(** * DVBridge: transport framing and bit unpacking

    A shallow embedding of the frame receivers of the converter
    (TcpReceiver, UdpReceiver) and of the bit unpacker (FrameUnpacker),
    with the properties the design document states about them.

    Conventions of the embedding.
    - [int] values of [Config] are integers of [Z]; the arithmetic of
      [frame_size()] is taken without signed overflow.
    - [size_t] offsets and lengths that index a buffer are [nat]: they are
      bounded by the length of the vector they index and cannot wrap.
    - the [uint64_t] statistics counters are [Z] with the wrap-around at
      [2^64] written out ([wrap64]).
    - bytes are [Byte.byte]; a [std::vector<uint8_t>] is a [list byte].
    - the socket layer is an explicit [World]: the trace of the calls made
      so far and the script of what the network will deliver.
    - messages written to [std::cout]/[std::cerr] are not modelled; the
      [verbose] flag only selects such messages. *)

From Stdlib Require Import ZArith List Bool Lia Arith Permutation.
From Stdlib Require Import Strings.Byte.
From Stdlib Require Strings.String.
Import String.StringSyntax.
Delimit Scope string_scope with string.
Import ListNotations.
Open Scope Z_scope.

(** ** Result of a member function *)

(** A call either returns, leaves through a C++ exception ([Raise]: the
    [std::length_error] of [vector::resize]), writes outside the object it
    was given ([Fault]: undefined behaviour), or the model ran out of the
    fuel given to a loop ([NoFuel]; shown below never to happen). *)
Inductive outcome (A : Type) : Type :=
| Ret (a : A)
| Raise
| Fault
| NoFuel.
Arguments Ret {A} a.
Arguments Raise {A}.
Arguments Fault {A}.
Arguments NoFuel {A}.

Definition bind {A B : Type} (m : outcome A) (k : A -> outcome B) : outcome B :=
  match m with
  | Ret a => k a
  | Raise => Raise
  | Fault => Fault
  | NoFuel => NoFuel
  end.

Notation "x <- m ;; k" := (bind m (fun x => k))
  (at level 61, m at next level, right associativity).
Notation "' p <- m ;; k" := (bind m (fun x => let p := x in k))
  (at level 61, p pattern, m at next level, right associativity).

(** ** Machine integers and vectors *)

Definition wrap64 (z : Z) : Z := z mod 2 ^ 64.

(** [static_cast<size_t>] of an [int] on a 64-bit target. *)
Definition to_size_t (z : Z) : nat := Z.to_nat (z mod 2 ^ 64).

Definition INT_MAX : Z := 2 ^ 31 - 1.

(** [std::vector<uint8_t>::max_size()]. *)
Definition vector_max_size : Z := 2 ^ 63 - 1.

Definition zero_byte : byte := x00.

(** [v.resize(n)]: keeps the first [n] elements, value-initialises new
    ones; a request above [max_size()] throws. *)
Definition resize (v : list byte) (n : nat) : outcome (list byte) :=
  if Z.of_nat n <=? vector_max_size
  then Ret (firstn n v ++ repeat zero_byte (n - length v))
  else Raise.

(** Overwrite [dst] from offset [off] with the bytes [src]. *)
Definition write_at (dst : list byte) (off : nat) (src : list byte) : list byte :=
  firstn off dst ++ src ++ skipn (off + length src) dst.

(** [std::memcpy(dst + off, src, n)]; leaving either object is a fault. *)
Definition memcpy (dst : list byte) (off : nat) (src : list byte) (n : nat)
  : outcome (list byte) :=
  if (off + n <=? length dst)%nat && (n <=? length src)%nat
  then Ret (write_at dst off (firstn n src))
  else Fault.

(** The value of a little-endian byte sequence. *)
Fixpoint le_decode (bs : list byte) : Z :=
  match bs with
  | [] => 0
  | b :: rest => Z.of_N (Byte.to_N b) + 256 * le_decode rest
  end.

(** ** config.hpp *)

Record Config : Type := {
  width : Z;
  height : Z;
  camera_ip : String.string;
  camera_port : Z;
  recv_buffer_size : Z;
  udp_packet_size : Z;
  has_header : bool;
  header_size : Z;
  msb_first : bool;
  positive_first : bool;
  row_major : bool;
  frame_interval_us : Z;
  verbose : bool
}.

(** The derived sizes.  The source computes them in [int]; the values
    below are the mathematical ones, which are the source's as long as
    [width * height] fits an [int] (signed overflow is undefined).  [/] on
    [int] truncates towards zero. *)
Definition pixels_per_channel (c : Config) : Z := width c * height c.
Definition bytes_per_channel (c : Config) : Z := Z.quot (pixels_per_channel c) 8.
Definition frame_size (c : Config) : Z := 2 * bytes_per_channel c.

(** ** The socket layer *)

Definition INVALID_SOCK : Z := -1.

(** What the network hands to the next receive call. *)
Inductive net_event : Type :=
| Packet (payload : list byte)   (* a peer write (TCP) or a datagram (UDP) *)
| PeerClose                      (* orderly shutdown: the call returns 0 *)
| SockError.                     (* the call returns -1 *)

Inductive syscall : Type :=
| sys_socket (ret : Z)
| sys_setsockopt (fd : Z)
| sys_inet_pton
| sys_connect (fd : Z)
| sys_bind (fd : Z)
| sys_close (fd : Z)
| sys_recv (fd : Z) (len : nat)
| sys_recvfrom (fd : Z) (len : nat).

(** [trace]: socket calls made so far, oldest first.  [inbound]: the whole
    future of the connection; once it is used up the peer has closed. *)
Record World : Type := {
  trace : list syscall;
  inbound : list net_event
}.

Definition log (w : World) (c : syscall) : World :=
  {| trace := trace w ++ [c]; inbound := inbound w |}.

(** The answers of the operating system during one [connect()].  The
    two [setsockopt] answers only decide whether a warning is printed. *)
Record SetupEnv : Type := {
  env_socket : Z;      (* socket(): a descriptor, or INVALID_SOCK *)
  env_rcvbuf : Z;      (* setsockopt(SO_RCVBUF) *)
  env_sockopt : Z;     (* setsockopt(TCP_NODELAY / SO_REUSEADDR) *)
  env_pton : Z;        (* inet_pton() *)
  env_attach : Z       (* ::connect() or bind() *)
}.

(** [recv] on a stream socket: at most [len] bytes of the byte stream;
    what a peer write leaves over stays queued; writes of no bytes are
    not seen by the reader. *)
Fixpoint stream_recv (s : list net_event) (len : nat)
  : Z * list byte * list net_event :=
  match s with
  | [] => (0, [], [])
  | PeerClose :: _ => (0, [], s)
  | SockError :: rest => (-1, [], rest)
  | Packet [] :: rest => stream_recv rest len
  | Packet bs :: rest =>
      let data := firstn len bs in
      (Z.of_nat (length data), data,
       match skipn len bs with
       | [] => rest
       | queued => Packet queued :: rest
       end)
  end.

Definition recv (w : World) (fd : Z) (len : nat) : Z * list byte * World :=
  let '(ret, data, rest) := stream_recv (inbound w) len in
  (ret, data, {| trace := trace w ++ [sys_recv fd len]; inbound := rest |}).

(** [recvfrom] on a datagram socket into a buffer of [len] bytes: one
    datagram per call, cut to [len]; the rest of the datagram is lost. *)
Definition recvfrom (w : World) (fd : Z) (len : nat) : Z * list byte * World :=
  let w' := fun rest =>
    {| trace := trace w ++ [sys_recvfrom fd len]; inbound := rest |} in
  match inbound w with
  | [] => (0, [], w' [])
  | PeerClose :: rest => (0, [], w' rest)
  | SockError :: rest => (-1, [], w' rest)
  | Packet bs :: rest =>
      let data := firstn len bs in (Z.of_nat (length data), data, w' rest)
  end.

Definition close (w : World) (fd : Z) : World := log w (sys_close fd).

(** ** tcp_receiver.cpp *)

Module Tcp.

Record TcpReceiver : Type := {
  config_ : Config;
  socket_ : Z;
  connected_ : bool;
  total_bytes_received_ : Z;
  total_frames_received_ : Z
}.

(** [TcpReceiver::TcpReceiver(const Config&)] *)
Definition make (cfg : Config) : TcpReceiver :=
  {| config_ := cfg; socket_ := INVALID_SOCK; connected_ := false;
     total_bytes_received_ := 0; total_frames_received_ := 0 |}.

Definition set_socket (r : TcpReceiver) (fd : Z) : TcpReceiver :=
  {| config_ := config_ r; socket_ := fd; connected_ := connected_ r;
     total_bytes_received_ := total_bytes_received_ r;
     total_frames_received_ := total_frames_received_ r |}.

Definition set_connected (r : TcpReceiver) (b : bool) : TcpReceiver :=
  {| config_ := config_ r; socket_ := socket_ r; connected_ := b;
     total_bytes_received_ := total_bytes_received_ r;
     total_frames_received_ := total_frames_received_ r |}.

Definition add_bytes (r : TcpReceiver) (n : Z) : TcpReceiver :=
  {| config_ := config_ r; socket_ := socket_ r; connected_ := connected_ r;
     total_bytes_received_ := wrap64 (total_bytes_received_ r + n);
     total_frames_received_ := total_frames_received_ r |}.

Definition incr_frames (r : TcpReceiver) : TcpReceiver :=
  {| config_ := config_ r; socket_ := socket_ r; connected_ := connected_ r;
     total_bytes_received_ := total_bytes_received_ r;
     total_frames_received_ := wrap64 (total_frames_received_ r + 1) |}.

Definition reset_stats (r : TcpReceiver) : TcpReceiver :=
  {| config_ := config_ r; socket_ := socket_ r; connected_ := connected_ r;
     total_bytes_received_ := 0; total_frames_received_ := 0 |}.

(** [TcpReceiver::disconnect] *)
Definition disconnect (r : TcpReceiver) (w : World) : TcpReceiver * World :=
  if negb (socket_ r =? INVALID_SOCK)
  then (set_connected (set_socket r INVALID_SOCK) false, close w (socket_ r))
  else (set_connected r false, w).

(** [TcpReceiver::connect] *)
Definition connect (e : SetupEnv) (r : TcpReceiver) (w : World)
  : bool * TcpReceiver * World :=
  if connected_ r then (true, r, w)
  else
    let r := set_socket r (env_socket e) in
    let w := log w (sys_socket (env_socket e)) in
    if socket_ r =? INVALID_SOCK then (false, r, w)
    else
      let w := log w (sys_setsockopt (socket_ r)) in
      let w := log w (sys_setsockopt (socket_ r)) in
      let w := log w sys_inet_pton in
      if env_pton e <=? 0 then
        let '(r, w) := disconnect r w in (false, r, w)
      else
        let w := log w (sys_connect (socket_ r)) in
        if env_attach e <? 0 then
          let '(r, w) := disconnect r w in (false, r, w)
        else (true, reset_stats (set_connected r true), w).

Definition isConnected (r : TcpReceiver) : bool := connected_ r.

Definition getFrameSize (r : TcpReceiver) : Z := frame_size (config_ r).

(** The [while (total_received < size)] loop of [receiveExact]; [buffer]
    is the object the caller passed the address of. *)
Fixpoint receiveExact_loop (fuel : nat) (r : TcpReceiver) (w : World)
    (buffer : list byte) (size total_received : nat)
  : outcome (bool * TcpReceiver * World * list byte) :=
  if (total_received <? size)%nat then
    match fuel with
    | O => NoFuel
    | S fuel' =>
        let '(received, data, w) := recv w (socket_ r) (size - total_received) in
        if received <=? 0 then Ret (false, set_connected r false, w, buffer)
        else if (length buffer <? total_received + length data)%nat then Fault
        else receiveExact_loop fuel' (add_bytes r received) w
               (write_at buffer total_received data) size
               (total_received + Z.to_nat received)
    end
  else Ret (true, r, w, buffer).

(** [TcpReceiver::receiveExact]; every iteration but the last adds at
    least one byte, so [size] rounds are enough. *)
Definition receiveExact (r : TcpReceiver) (w : World) (buffer : list byte)
    (size : nat) : outcome (bool * TcpReceiver * World * list byte) :=
  receiveExact_loop size r w buffer size 0.

(** The [uint32_t header_frame_size = 0] local, as its four bytes in
    memory; on the little-endian hosts the converter runs on, its value is
    [le_decode] of them. *)
Definition header_word : list byte := [x00; x00; x00; x00].

(** The sanity check on the header value. *)
Definition header_valid (header_frame_size : Z) : bool :=
  (0 <? header_frame_size) && (header_frame_size <? 100000000).

(** The rest of [receiveFrame], once [frame_size] is settled. *)
Definition receiveBody (r : TcpReceiver) (w : World) (buffer : list byte)
    (frame_size : Z) : outcome (bool * TcpReceiver * World * list byte) :=
  buffer <- resize buffer (to_size_t frame_size) ;;
  '(ok, r, w, buffer) <- receiveExact r w buffer (to_size_t frame_size) ;;
  if negb ok then Ret (false, r, w, buffer)
  else Ret (true, incr_frames r, w, buffer).

(** [TcpReceiver::receiveFrame] *)
Definition receiveFrame (r : TcpReceiver) (w : World) (buffer : list byte)
  : outcome (bool * TcpReceiver * World * list byte) :=
  if negb (connected_ r) then Ret (false, r, w, buffer)
  else
    let frame_size := getFrameSize r in
    if has_header (config_ r) then
      '(ok, r, w, header) <-
         receiveExact r w header_word (to_size_t (header_size (config_ r))) ;;
      if negb ok then Ret (false, r, w, buffer)
      else
        let header_frame_size := le_decode header in
        let frame_size :=
          if header_valid header_frame_size then header_frame_size
          else frame_size in
        receiveBody r w buffer frame_size
    else receiveBody r w buffer frame_size.

End Tcp.

(** ** udp_receiver.cpp *)

Module Udp.

(** The members the implementation file initialises and uses. *)
Record UdpReceiver : Type := {
  config_ : Config;
  socket_ : Z;
  bound_ : bool;
  accumulation_buffer_ : list byte;
  accumulated_bytes_ : nat;
  packet_buffer_ : list byte;
  total_bytes_received_ : Z;
  total_frames_received_ : Z
}.

(** [UdpReceiver::UdpReceiver(const Config&)]: the two buffers are
    pre-allocated, which can throw. *)
Definition make (cfg : Config) : outcome UdpReceiver :=
  acc <- resize [] (to_size_t (frame_size cfg)) ;;
  pkt <- resize [] (to_size_t (udp_packet_size cfg)) ;;
  Ret {| config_ := cfg; socket_ := INVALID_SOCK; bound_ := false;
         accumulation_buffer_ := acc; accumulated_bytes_ := 0%nat;
         packet_buffer_ := pkt;
         total_bytes_received_ := 0; total_frames_received_ := 0 |}.

Definition set_socket (r : UdpReceiver) (fd : Z) : UdpReceiver :=
  {| config_ := config_ r; socket_ := fd; bound_ := bound_ r;
     accumulation_buffer_ := accumulation_buffer_ r;
     accumulated_bytes_ := accumulated_bytes_ r;
     packet_buffer_ := packet_buffer_ r;
     total_bytes_received_ := total_bytes_received_ r;
     total_frames_received_ := total_frames_received_ r |}.

Definition set_bound (r : UdpReceiver) (b : bool) : UdpReceiver :=
  {| config_ := config_ r; socket_ := socket_ r; bound_ := b;
     accumulation_buffer_ := accumulation_buffer_ r;
     accumulated_bytes_ := accumulated_bytes_ r;
     packet_buffer_ := packet_buffer_ r;
     total_bytes_received_ := total_bytes_received_ r;
     total_frames_received_ := total_frames_received_ r |}.

Definition set_accumulated (r : UdpReceiver) (n : nat) : UdpReceiver :=
  {| config_ := config_ r; socket_ := socket_ r; bound_ := bound_ r;
     accumulation_buffer_ := accumulation_buffer_ r;
     accumulated_bytes_ := n;
     packet_buffer_ := packet_buffer_ r;
     total_bytes_received_ := total_bytes_received_ r;
     total_frames_received_ := total_frames_received_ r |}.

Definition set_packet (r : UdpReceiver) (pkt : list byte) : UdpReceiver :=
  {| config_ := config_ r; socket_ := socket_ r; bound_ := bound_ r;
     accumulation_buffer_ := accumulation_buffer_ r;
     accumulated_bytes_ := accumulated_bytes_ r;
     packet_buffer_ := pkt;
     total_bytes_received_ := total_bytes_received_ r;
     total_frames_received_ := total_frames_received_ r |}.

Definition add_bytes (r : UdpReceiver) (n : Z) : UdpReceiver :=
  {| config_ := config_ r; socket_ := socket_ r; bound_ := bound_ r;
     accumulation_buffer_ := accumulation_buffer_ r;
     accumulated_bytes_ := accumulated_bytes_ r;
     packet_buffer_ := packet_buffer_ r;
     total_bytes_received_ := wrap64 (total_bytes_received_ r + n);
     total_frames_received_ := total_frames_received_ r |}.

Definition incr_frames (r : UdpReceiver) : UdpReceiver :=
  {| config_ := config_ r; socket_ := socket_ r; bound_ := bound_ r;
     accumulation_buffer_ := accumulation_buffer_ r;
     accumulated_bytes_ := accumulated_bytes_ r;
     packet_buffer_ := packet_buffer_ r;
     total_bytes_received_ := total_bytes_received_ r;
     total_frames_received_ := wrap64 (total_frames_received_ r + 1) |}.

Definition reset_stats (r : UdpReceiver) : UdpReceiver :=
  {| config_ := config_ r; socket_ := socket_ r; bound_ := bound_ r;
     accumulation_buffer_ := accumulation_buffer_ r;
     accumulated_bytes_ := 0%nat;
     packet_buffer_ := packet_buffer_ r;
     total_bytes_received_ := 0; total_frames_received_ := 0 |}.

(** [UdpReceiver::disconnect] *)
Definition disconnect (r : UdpReceiver) (w : World) : UdpReceiver * World :=
  if negb (socket_ r =? INVALID_SOCK)
  then (set_accumulated (set_bound (set_socket r INVALID_SOCK) false) 0,
        close w (socket_ r))
  else (set_accumulated (set_bound r false) 0, w).

(** The address test of [connect]: the wildcard needs no parsing. *)
Definition wildcard_ip (ip : String.string) : bool :=
  String.eqb ip ""%string || String.eqb ip "0.0.0.0"%string.

(** [UdpReceiver::connect] *)
Definition connect (e : SetupEnv) (r : UdpReceiver) (w : World)
  : bool * UdpReceiver * World :=
  if bound_ r then (true, r, w)
  else
    let r := set_socket r (env_socket e) in
    let w := log w (sys_socket (env_socket e)) in
    if socket_ r =? INVALID_SOCK then (false, r, w)
    else
      let w := log w (sys_setsockopt (socket_ r)) in
      let w := log w (sys_setsockopt (socket_ r)) in
      let bind_step := fun w =>
        let w := log w (sys_bind (socket_ r)) in
        if env_attach e <? 0 then
          let '(r, w) := disconnect r w in (false, r, w)
        else (true, reset_stats (set_bound r true), w) in
      if wildcard_ip (camera_ip (config_ r)) then bind_step w
      else
        let w := log w sys_inet_pton in
        if env_pton e <=? 0 then
          let '(r, w) := disconnect r w in (false, r, w)
        else bind_step w.

Definition isConnected (r : UdpReceiver) : bool := bound_ r.

Definition getFrameSize (r : UdpReceiver) : Z := frame_size (config_ r).

(** The accumulation loop of [receiveFrame]. *)
Fixpoint receive_loop (fuel : nat) (r : UdpReceiver) (w : World)
    (buffer : list byte) (frame_size : Z)
  : outcome (bool * UdpReceiver * World * list byte) :=
  if (accumulated_bytes_ r <? to_size_t frame_size)%nat then
    match fuel with
    | O => NoFuel
    | S fuel' =>
        let '(received, data, w) :=
          recvfrom w (socket_ r) (length (packet_buffer_ r)) in
        let r := set_packet r (write_at (packet_buffer_ r) 0 data) in
        if received <=? 0 then Ret (false, set_bound r false, w, buffer)
        else
          let bytes_needed := (to_size_t frame_size - accumulated_bytes_ r)%nat in
          let bytes_to_copy := Nat.min bytes_needed (Z.to_nat received) in
          buffer <- memcpy buffer (accumulated_bytes_ r) (packet_buffer_ r)
                      bytes_to_copy ;;
          let r := set_accumulated r (accumulated_bytes_ r + bytes_to_copy) in
          let r := add_bytes r received in
          receive_loop fuel' r w buffer frame_size
    end
  else Ret (true, r, w, buffer).

(** [UdpReceiver::receiveFrame]; every datagram that does not end the
    call adds at least one byte, so [frame_size] rounds are enough. *)
Definition receiveFrame (r : UdpReceiver) (w : World) (buffer : list byte)
  : outcome (bool * UdpReceiver * World * list byte) :=
  if negb (bound_ r) then Ret (false, r, w, buffer)
  else
    let frame_size := getFrameSize r in
    buffer <- resize buffer (to_size_t frame_size) ;;
    let r := set_accumulated r 0 in
    '(ok, r, w, buffer) <-
       receive_loop (to_size_t frame_size) r w buffer frame_size ;;
    if negb ok then Ret (false, r, w, buffer)
    else Ret (true, incr_frames r, w, buffer).

End Udp.

(** ** frame_unpacker.hpp *)

Module Unpacker.

(** Modelled from the spec: [dv::Event] belongs to an external library;
    an event is a timestamp in microseconds, a pixel and a polarity. *)
Record Event : Type := {
  timestamp : Z;
  x : Z;
  y : Z;
  polarity : bool
}.

(** The members the header declares.  [bit_positions_] and [bit_counts_]
    have one entry per byte value, the base tables one entry per byte of
    a channel. *)
Record FrameUnpacker : Type := {
  config_ : Config;
  bit_positions_ : list (list nat);
  bit_counts_ : list nat;
  byte_to_base_x_ : list Z;
  byte_to_base_y_ : list Z
}.

Definition MAX_BITS_PER_BYTE : nat := 8.

(** Modelled from the spec: the body of [initLookupTables] is not part of
    the sources at hand.  For a byte value, the offsets (0 to 7) of the
    pixels whose bit is set, first pixel first; with [msb_first] the first
    pixel is bit 7, otherwise bit 0. *)
Definition set_bit_offsets (msb : bool) (byte_value : nat) : list nat :=
  filter (fun off => Nat.testbit byte_value (if msb then 7 - off else off))
         (seq 0 MAX_BITS_PER_BYTE).

(** Modelled from the spec: the pixel a byte of a channel starts at.  Row
    major, pixel [i] is column [i mod width] of row [i / width]; column
    major, it is row [i mod height] of column [i / height]. *)
Definition base_coordinate (cfg : Config) (byte_index : nat) : Z * Z :=
  let first_pixel := 8 * Z.of_nat byte_index in
  if row_major cfg
  then (first_pixel mod width cfg, first_pixel / width cfg)
  else (first_pixel / height cfg, first_pixel mod height cfg).

(** Modelled from the spec: [FrameUnpacker::FrameUnpacker] with
    [initLookupTables], whose bodies are not part of the sources at hand;
    the tables are derived from the geometry and the layout flags. *)
Definition make (cfg : Config) : FrameUnpacker :=
  let positions := map (set_bit_offsets (msb_first cfg)) (seq 0 256) in
  let bases := map (base_coordinate cfg)
                   (seq 0 (Z.to_nat (bytes_per_channel cfg))) in
  {| config_ := cfg;
     bit_positions_ := positions;
     bit_counts_ := map (@length nat) positions;
     byte_to_base_x_ := map fst bases;
     byte_to_base_y_ := map snd bases |}.

(** Modelled from the spec: base coordinate plus the offset of the bit in
    its byte; row major the offset advances [x] and wraps to the next row
    every [width] pixels, column major it advances [y] and wraps to the
    next column every [height] pixels. *)
Definition pixel_of (u : FrameUnpacker) (byte_index off : nat) : Z * Z :=
  let base_x := nth byte_index (byte_to_base_x_ u) 0 in
  let base_y := nth byte_index (byte_to_base_y_ u) 0 in
  let cfg := config_ u in
  if row_major cfg
  then ((base_x + Z.of_nat off) mod width cfg,
        base_y + (base_x + Z.of_nat off) / width cfg)
  else (base_x + (base_y + Z.of_nat off) / height cfg,
        (base_y + Z.of_nat off) mod height cfg).

(** Modelled from the spec: the events of one byte of a channel, read off
    the tables: one event per set bit, in the order of the table. *)
Definition unpackByte (u : FrameUnpacker) (ts : Z) (pol : bool)
    (byte_index : nat) (b : byte) : list Event :=
  let v := Byte.to_nat b in
  let count := nth v (bit_counts_ u) 0%nat in
  let offs := firstn count (nth v (bit_positions_ u) []) in
  map (fun off =>
         let '(px, py) := pixel_of u byte_index off in
         {| timestamp := ts; x := px; y := py; polarity := pol |}) offs.

(** Modelled from the spec: [unpackChannelFast], whose body is not part
    of the sources at hand; the bytes of the channel in order, starting
    with byte index [first]. *)
Fixpoint unpackChannelFrom (u : FrameUnpacker) (ts : Z) (pol : bool)
    (first : nat) (channel_data : list byte) : list Event :=
  match channel_data with
  | [] => []
  | b :: rest =>
      unpackByte u ts pol first b ++ unpackChannelFrom u ts pol (S first) rest
  end.

(** Modelled from the spec: [unpackChannelFast] decodes the bytes of one
    channel, [bytes_per_channel] of them, from the start of the slice. *)
Definition unpackChannelFast (u : FrameUnpacker) (channel_data : list byte)
    (ts : Z) (pol : bool) : list Event :=
  unpackChannelFrom u ts pol 0
    (firstn (Z.to_nat (bytes_per_channel (config_ u))) channel_data).

(** Modelled from the spec: [unpack], whose body is not part of the
    sources at hand.  A buffer shorter than the frame gives no events;
    otherwise the two channels are decoded in the configured order, all
    events of the frame carrying [frame_number * frame_interval_us].  The
    result is the count and the event store. *)
Definition unpack (u : FrameUnpacker) (frame_data : list byte)
    (frame_number : Z) : nat * list Event :=
  let cfg := config_ u in
  if Z.of_nat (length frame_data) <? frame_size cfg then (0%nat, [])
  else
    let ts := frame_number * frame_interval_us cfg in
    let bpc := Z.to_nat (bytes_per_channel cfg) in
    let first := unpackChannelFast u frame_data ts (positive_first cfg) in
    let second :=
      unpackChannelFast u (skipn bpc frame_data) ts
        (negb (positive_first cfg)) in
    let events := first ++ second in
    (length events, events).

(** *** The encoder of the round-trip test

    Modelled from the spec: the round-trip property packs a set of pixel
    coordinates into a frame buffer; the encoder is written from the
    frame layout alone (scan order, bit order, channel order). *)

(** The position of a pixel in the scan order of a channel. *)
Definition pixel_index (cfg : Config) (c : Z * Z) : Z :=
  if row_major cfg then snd c * width cfg + fst c
  else fst c * height cfg + snd c.

Definition in_grid (cfg : Config) (c : Z * Z) : Prop :=
  0 <= fst c < width cfg /\ 0 <= snd c < height cfg.

(** Is pixel number [i] of the channel one of [pixels]? *)
Definition lit (cfg : Config) (pixels : list (Z * Z)) (i : Z) : bool :=
  existsb (fun c => pixel_index cfg c =? i) pixels.

(** Byte [byte_index] of a channel: bit [k] stands for the pixel at
    offset [7 - k] (most significant bit first) or [k]. *)
Definition pack_byte (cfg : Config) (pixels : list (Z * Z)) (byte_index : nat)
  : byte :=
  let bit := fun k : nat =>
    let off := if msb_first cfg then (7 - k)%nat else k in
    lit cfg pixels (8 * Z.of_nat byte_index + Z.of_nat off) in
  Byte.of_bits
    (bit 0%nat, (bit 1%nat, (bit 2%nat, (bit 3%nat,
    (bit 4%nat, (bit 5%nat, (bit 6%nat, bit 7%nat))))))).

Definition pack_channel (cfg : Config) (pixels : list (Z * Z)) : list byte :=
  map (pack_byte cfg pixels) (seq 0 (Z.to_nat (bytes_per_channel cfg))).

(** The frame with the pixels [pos] lit in the positive channel and the
    pixels [neg] in the negative one. *)
Definition pack (cfg : Config) (pos neg : list (Z * Z)) : list byte :=
  if positive_first cfg
  then pack_channel cfg pos ++ pack_channel cfg neg
  else pack_channel cfg neg ++ pack_channel cfg pos.

(** The pixels of the events of one polarity, in the order of emission. *)
Definition pixels_of (events : list Event) (pol : bool) : list (Z * Z) :=
  map (fun e => (x e, y e))
      (filter (fun e => Bool.eqb (polarity e) pol) events).

End Unpacker.

(** ** Vocabulary of the statements *)

(** The bytes a stream socket can still deliver before the peer closes or
    the socket fails, whatever the peer's writes were. *)
Fixpoint stream_bytes (s : list net_event) : list byte :=
  match s with
  | Packet bs :: rest => bs ++ stream_bytes rest
  | _ => []
  end.

(** The descriptors released so far, oldest first. *)
Definition closes (w : World) : list Z :=
  flat_map (fun c => match c with sys_close fd => [fd] | _ => [] end) (trace w).

(** Configurations on which the receivers have defined behaviour: the
    frame size is a non-negative [int], and a declared header fits the
    32-bit word it is read into. *)
Definition valid_config (c : Config) : Prop :=
  0 <= frame_size c <= INT_MAX /\
  (has_header c = true -> 0 <= header_size c <= 4).

(** The number of header bytes in front of a frame. *)
Definition header_length (c : Config) : nat :=
  if has_header c then Z.to_nat (header_size c) else 0%nat.

(** The length [receiveFrame] asks for, given the bytes of the header. *)
Definition requested_length (c : Config) (header : list byte) : nat :=
  if has_header c && Tcp.header_valid (le_decode header)
  then Z.to_nat (le_decode header)
  else Z.to_nat (frame_size c).

(** A run of datagrams that completes a frame of [n] bytes with its last
    datagram and not before. *)
Definition completes (n : nat) (datagrams : list (list byte)) : Prop :=
  (length (concat (removelast datagrams)) < n <= length (concat datagrams))%nat.

(** [r'] is [r] after [n] more bytes were counted: the byte total moved
    by [n] modulo [2^64], configuration, descriptor and frame total kept. *)
Definition tcp_counted (r r' : Tcp.TcpReceiver) (n : nat) : Prop :=
  Tcp.config_ r' = Tcp.config_ r /\
  Tcp.socket_ r' = Tcp.socket_ r /\
  Tcp.total_frames_received_ r' = Tcp.total_frames_received_ r /\
  wrap64 (Tcp.total_bytes_received_ r')
    = wrap64 (Tcp.total_bytes_received_ r + Z.of_nat n).

(** The pixel that has position [i] in the scan order of a channel. *)
Definition scan (cfg : Config) (i : Z) : Z * Z :=
  if row_major cfg then (i mod width cfg, i / width cfg)
  else (i / height cfg, i mod height cfg).

(** The number of bytes of a channel, as an index bound. *)
Definition channel_bytes (cfg : Config) : nat :=
  Z.to_nat (bytes_per_channel cfg).

(** The pixels of [pixels], listed in scan order byte by byte. *)
Definition lit_pixels (cfg : Config) (pixels : list (Z * Z)) : list (Z * Z) :=
  flat_map
    (fun j : nat =>
       map (fun off : nat => scan cfg (8 * Z.of_nat j + Z.of_nat off))
           (filter (fun off : nat =>
                      Unpacker.lit cfg pixels (8 * Z.of_nat j + Z.of_nat off))
                   (seq 0 8)))
    (seq 0 (channel_bytes cfg)).

(** The event of a pixel. *)
Definition event_at (ts : Z) (pol : bool) (c : Z * Z) : Unpacker.Event :=
  {| Unpacker.timestamp := ts; Unpacker.x := fst c; Unpacker.y := snd c;
     Unpacker.polarity := pol |}.

(** The frame a call handed over, if it returned success. *)
Definition delivered {R : Type} (o : outcome (bool * R * World * list byte))
  : option (list byte) :=
  match o with
  | Ret (true, _, _, frame) => Some frame
  | _ => None
  end.

(** Sample configurations and worlds of the examples. *)
Definition sample_config (w h : Z) (header : bool) (hsize : Z) : Config :=
  {| width := w; height := h; camera_ip := "0.0.0.0"%string;
     camera_port := 5000; recv_buffer_size := 52428800;
     udp_packet_size := 65535; has_header := header; header_size := hsize;
     msb_first := false; positive_first := true; row_major := true;
     frame_interval_us := 200; verbose := false |}.

Definition sample_env : SetupEnv :=
  {| env_socket := 3; env_rcvbuf := 0; env_sockopt := 0; env_pton := 1;
     env_attach := 0 |}.

Definition fresh_world (s : list net_event) : World :=
  {| trace := []; inbound := s |}.

Definition connected_tcp (cfg : Config) (bytes frames : Z) : Tcp.TcpReceiver :=
  {| Tcp.config_ := cfg; Tcp.socket_ := 3; Tcp.connected_ := true;
     Tcp.total_bytes_received_ := bytes;
     Tcp.total_frames_received_ := frames |}.

Definition bound_udp (cfg : Config) (bytes frames : Z) : Udp.UdpReceiver :=
  {| Udp.config_ := cfg; Udp.socket_ := 3; Udp.bound_ := true;
     Udp.accumulation_buffer_ := []; Udp.accumulated_bytes_ := 0%nat;
     Udp.packet_buffer_ := repeat zero_byte 16;
     Udp.total_bytes_received_ := bytes;
     Udp.total_frames_received_ := frames |}.

(** ** Lifetime of the receivers: destructors and moves *)

Module TcpOwnership.

(** The receiver objects of a program, by address. *)
Definition objects : Type := nat -> Tcp.TcpReceiver.

Definition put (o : objects) (a : nat) (r : Tcp.TcpReceiver) : objects :=
  fun b => if Nat.eqb b a then r else o b.

(** [TcpReceiver::~TcpReceiver] *)
Definition destroy (r : Tcp.TcpReceiver) (w : World) : World :=
  snd (Tcp.disconnect r w).

(** [TcpReceiver::TcpReceiver(TcpReceiver&&)]: the new object, and what
    is left of [other]. *)
Definition move_construct (other : Tcp.TcpReceiver)
  : Tcp.TcpReceiver * Tcp.TcpReceiver :=
  let this :=
    {| Tcp.config_ := Tcp.config_ other;
       Tcp.socket_ := Tcp.socket_ other;
       Tcp.connected_ := Tcp.connected_ other;
       Tcp.total_bytes_received_ := Tcp.total_bytes_received_ other;
       Tcp.total_frames_received_ := Tcp.total_frames_received_ other |} in
  let other := Tcp.set_socket other INVALID_SOCK in
  let other := Tcp.set_connected other false in
  (this, other).

(** [TcpReceiver::operator=(TcpReceiver&&)] on the objects at the
    addresses [this] and [other]; [config_] is not assigned. *)
Definition move_assign (this other : nat) (o : objects) (w : World)
  : objects * World :=
  if negb (Nat.eqb this other) then
    let '(t, w) := Tcp.disconnect (o this) w in
    let src := o other in
    let t :=
      {| Tcp.config_ := Tcp.config_ t;
         Tcp.socket_ := Tcp.socket_ src;
         Tcp.connected_ := Tcp.connected_ src;
         Tcp.total_bytes_received_ := Tcp.total_bytes_received_ src;
         Tcp.total_frames_received_ := Tcp.total_frames_received_ src |} in
    let o := put o this t in
    let src := Tcp.set_socket src INVALID_SOCK in
    let src := Tcp.set_connected src false in
    (put o other src, w)
  else (o, w).

End TcpOwnership.

Module UdpOwnership.

Definition objects : Type := nat -> Udp.UdpReceiver.

Definition put (o : objects) (a : nat) (r : Udp.UdpReceiver) : objects :=
  fun b => if Nat.eqb b a then r else o b.

(** [UdpReceiver::~UdpReceiver] *)
Definition destroy (r : Udp.UdpReceiver) (w : World) : World :=
  snd (Udp.disconnect r w).

(** What a move leaves in the vectors of the object moved from. *)
Definition set_buffers (r : Udp.UdpReceiver) (acc pkt : list byte)
  : Udp.UdpReceiver :=
  {| Udp.config_ := Udp.config_ r; Udp.socket_ := Udp.socket_ r;
     Udp.bound_ := Udp.bound_ r;
     Udp.accumulation_buffer_ := acc;
     Udp.accumulated_bytes_ := Udp.accumulated_bytes_ r;
     Udp.packet_buffer_ := pkt;
     Udp.total_bytes_received_ := Udp.total_bytes_received_ r;
     Udp.total_frames_received_ := Udp.total_frames_received_ r |}.

(** [UdpReceiver::UdpReceiver(UdpReceiver&&)]: the new object, and what
    is left of [other]; a vector that was move-constructed from is
    empty. *)
Definition move_construct (other : Udp.UdpReceiver)
  : Udp.UdpReceiver * Udp.UdpReceiver :=
  let this :=
    {| Udp.config_ := Udp.config_ other;
       Udp.socket_ := Udp.socket_ other;
       Udp.bound_ := Udp.bound_ other;
       Udp.accumulation_buffer_ := Udp.accumulation_buffer_ other;
       Udp.accumulated_bytes_ := Udp.accumulated_bytes_ other;
       Udp.packet_buffer_ := Udp.packet_buffer_ other;
       Udp.total_bytes_received_ := Udp.total_bytes_received_ other;
       Udp.total_frames_received_ := Udp.total_frames_received_ other |} in
  let other := set_buffers other [] [] in
  let other := Udp.set_socket other INVALID_SOCK in
  let other := Udp.set_bound other false in
  (this, other).

(** [UdpReceiver::operator=(UdpReceiver&&)]; [config_] is not assigned.
    The state of a vector that was move-assigned from is not fixed by the
    language: [acc_left] and [pkt_left] stand for it. *)
Definition move_assign (acc_left pkt_left : list byte) (this other : nat)
    (o : objects) (w : World) : objects * World :=
  if negb (Nat.eqb this other) then
    let '(t, w) := Udp.disconnect (o this) w in
    let src := o other in
    let t :=
      {| Udp.config_ := Udp.config_ t;
         Udp.socket_ := Udp.socket_ src;
         Udp.bound_ := Udp.bound_ src;
         Udp.accumulation_buffer_ := Udp.accumulation_buffer_ src;
         Udp.accumulated_bytes_ := Udp.accumulated_bytes_ src;
         Udp.packet_buffer_ := Udp.packet_buffer_ src;
         Udp.total_bytes_received_ := Udp.total_bytes_received_ src;
         Udp.total_frames_received_ := Udp.total_frames_received_ src |} in
    let o := put o this t in
    let src := set_buffers src acc_left pkt_left in
    let src := Udp.set_socket src INVALID_SOCK in
    let src := Udp.set_bound src false in
    (put o other src, w)
  else (o, w).

End UdpOwnership.

(** ** The socket library of the platform *)

Module SocketLib.

Inductive wsa_call : Type :=
| WSAStartup (result : Z)
| WSACleanup.

(** The two receiver classes.  Each has its own copy of [initSocketLib]
    and [cleanupSocketLib], with the same body, and its own static flag. *)
Inductive receiver_class : Type :=
| TcpClass
| UdpClass.

Definition same_class (a b : receiver_class) : bool :=
  match a, b with
  | TcpClass, TcpClass | UdpClass, UdpClass => true
  | _, _ => false
  end.

(** The static flags [TcpReceiver::socket_lib_initialized_] and
    [UdpReceiver::socket_lib_initialized_], and the calls the process has
    made to the socket library so far. *)
Record State : Type := {
  socket_lib_initialized_ : receiver_class -> bool;
  wsa_calls : list wsa_call
}.

Definition start : State :=
  {| socket_lib_initialized_ := fun _ => false; wsa_calls := [] |}.

Definition set_initialized (s : State) (c : receiver_class) (b : bool) : State :=
  {| socket_lib_initialized_ :=
       fun d => if same_class d c then b else socket_lib_initialized_ s d;
     wsa_calls := wsa_calls s |}.

Definition call (s : State) (x : wsa_call) : State :=
  {| socket_lib_initialized_ := socket_lib_initialized_ s;
     wsa_calls := wsa_calls s ++ [x] |}.

(** [initSocketLib] of the class [c]: [win32] says whether [_WIN32] is
    defined, [wsa_result] is what [WSAStartup] answers if it is called. *)
Definition initSocketLib (win32 : bool) (c : receiver_class) (wsa_result : Z)
    (s : State) : bool * State :=
  if win32 then
    if negb (socket_lib_initialized_ s c) then
      let s := call s (WSAStartup wsa_result) in
      if negb (wsa_result =? 0) then (false, s)
      else (true, set_initialized s c true)
    else (true, s)
  else (true, s).

(** [cleanupSocketLib] of the class [c] *)
Definition cleanupSocketLib (win32 : bool) (c : receiver_class) (s : State)
  : State :=
  if win32 then
    if socket_lib_initialized_ s c then
      set_initialized (call s WSACleanup) c false
    else s
  else s.

End SocketLib.

(** ** Callers *)

(** A caller of a TCP receiver: it connects, disconnects and asks for
    frames in any order, while the network goes on delivering. *)
Inductive tcp_call : Type :=
| TcpConnect (e : SetupEnv)
| TcpDisconnect
| TcpReceiveFrame
| TcpNetwork (more : list net_event).

Definition tcp_state : Type := (Tcp.TcpReceiver * World * list byte)%type.

Definition tcp_step (c : tcp_call) (st : tcp_state) : outcome tcp_state :=
  let '(r, w, buffer) := st in
  match c with
  | TcpConnect e =>
      let '(_, r, w) := Tcp.connect e r w in Ret (r, w, buffer)
  | TcpDisconnect =>
      let '(r, w) := Tcp.disconnect r w in Ret (r, w, buffer)
  | TcpReceiveFrame =>
      '(_, r, w, buffer) <- Tcp.receiveFrame r w buffer ;; Ret (r, w, buffer)
  | TcpNetwork more =>
      Ret (r, {| trace := trace w; inbound := inbound w ++ more |}, buffer)
  end.

Fixpoint tcp_run (calls : list tcp_call) (st : tcp_state) : outcome tcp_state :=
  match calls with
  | [] => Ret st
  | c :: rest => st <- tcp_step c st ;; tcp_run rest st
  end.

Inductive udp_call : Type :=
| UdpConnect (e : SetupEnv)
| UdpDisconnect
| UdpReceiveFrame
| UdpNetwork (more : list net_event).

Definition udp_state : Type := (Udp.UdpReceiver * World * list byte)%type.

Definition udp_step (c : udp_call) (st : udp_state) : outcome udp_state :=
  let '(r, w, buffer) := st in
  match c with
  | UdpConnect e =>
      let '(_, r, w) := Udp.connect e r w in Ret (r, w, buffer)
  | UdpDisconnect =>
      let '(r, w) := Udp.disconnect r w in Ret (r, w, buffer)
  | UdpReceiveFrame =>
      '(_, r, w, buffer) <- Udp.receiveFrame r w buffer ;; Ret (r, w, buffer)
  | UdpNetwork more =>
      Ret (r, {| trace := trace w; inbound := inbound w ++ more |}, buffer)
  end.

Fixpoint udp_run (calls : list udp_call) (st : udp_state) : outcome udp_state :=
  match calls with
  | [] => Ret st
  | c :: rest => st <- udp_step c st ;; udp_run rest st
  end.

(** A caller that asks for [k] frames in a row into the same vector and
    stops at the first failure: the frames it got. *)
Fixpoint tcp_receive_many (k : nat) (r : Tcp.TcpReceiver) (w : World)
    (buffer : list byte) : outcome (list (list byte) * Tcp.TcpReceiver * World) :=
  match k with
  | O => Ret ([], r, w)
  | S k' =>
      '(ok, r, w, buffer) <- Tcp.receiveFrame r w buffer ;;
      if ok then
        '(frames, r, w) <- tcp_receive_many k' r w buffer ;;
        Ret (buffer :: frames, r, w)
      else Ret ([], r, w)
  end.

Fixpoint udp_receive_many (k : nat) (r : Udp.UdpReceiver) (w : World)
    (buffer : list byte) : outcome (list (list byte) * Udp.UdpReceiver * World) :=
  match k with
  | O => Ret ([], r, w)
  | S k' =>
      '(ok, r, w, buffer) <- Udp.receiveFrame r w buffer ;;
      if ok then
        '(frames, r, w) <- udp_receive_many k' r w buffer ;;
        Ret (buffer :: frames, r, w)
      else Ret ([], r, w)
  end.

(** ** Vocabulary of the further statements *)

Definition uint64_range (z : Z) : Prop := 0 <= z < 2 ^ 64.

(** What holds of a TCP receiver made for [cfg] at any time. *)
Definition tcp_inv (cfg : Config) (r : Tcp.TcpReceiver) : Prop :=
  Tcp.config_ r = cfg /\
  (Tcp.connected_ r = true -> Tcp.socket_ r <> INVALID_SOCK) /\
  uint64_range (Tcp.total_bytes_received_ r) /\
  uint64_range (Tcp.total_frames_received_ r).

(** What holds of a UDP receiver made for [cfg] at any time. *)
Definition udp_inv (cfg : Config) (r : Udp.UdpReceiver) : Prop :=
  Udp.config_ r = cfg /\
  (Udp.bound_ r = true -> Udp.socket_ r <> INVALID_SOCK) /\
  uint64_range (Udp.total_bytes_received_ r) /\
  uint64_range (Udp.total_frames_received_ r) /\
  length (Udp.packet_buffer_ r) = to_size_t (udp_packet_size cfg) /\
  (Udp.accumulated_bytes_ r <= to_size_t (frame_size cfg))%nat.

(** The frames of a byte stream: header, if declared, then payload, [k]
    times or until the bytes run out. *)
Fixpoint parse_frames (cfg : Config) (k : nat) (avail : list byte)
  : list (list byte) :=
  match k with
  | O => []
  | S k' =>
      let hs := header_length cfg in
      let n := requested_length cfg (firstn hs avail) in
      if (hs + n <=? length avail)%nat
      then firstn n (skipn hs avail)
           :: parse_frames cfg k' (skipn (hs + n) avail)
      else []
  end.

(** Pending input on which the next datagram receive returns zero or an
    error: no input, a close, an error, or a datagram of no bytes. *)
Definition breaks_frame (s : list net_event) : bool :=
  match s with
  | Packet (_ :: _) :: _ => false
  | _ => true
  end.

(** Datagrams the packet buffer of [r] takes whole. *)
Definition fits (r : Udp.UdpReceiver) (d : list byte) : Prop :=
  (0 < length d <= length (Udp.packet_buffer_ r))%nat.

(** The WSAStartup answers up to and including the first success. *)
Fixpoint until_success (answers : list Z) : list Z :=
  match answers with
  | [] => []
  | a :: rest => if a =? 0 then [a] else a :: until_success rest
  end.

(** The receivers a program constructs, in order: the class of each and
    what [WSAStartup] would answer its constructor. *)
Definition constructions : Type := list (SocketLib.receiver_class * Z).

(** The answers that fall to the constructors of the class [c]. *)
Definition answers_of (c : SocketLib.receiver_class) (cs : constructions)
  : list Z :=
  map snd (filter (fun x => SocketLib.same_class (fst x) c) cs).

(** [initSocketLib] once per constructed receiver, as the constructors
    call it. *)
Fixpoint init_each (win32 : bool) (cs : constructions) (s : SocketLib.State)
  : SocketLib.State :=
  match cs with
  | [] => s
  | (c, a) :: rest =>
      init_each win32 rest (snd (SocketLib.initSocketLib win32 c a s))
  end.

(** * Properties *)

(** ** Connection state: rejection, teardown, repeated connect *)

Lemma bind_ret_inv {A B : Type} (m : outcome A) (k : A -> outcome B) (b : B) :
  bind m k = Ret b -> exists a, m = Ret a /\ k a = Ret b.
Proof.
  destruct m as [a| | |]; simpl; intro H; try discriminate.
  exists a; split; [reflexivity | exact H].
Qed.

Lemma tcp_loop_false_disconnects :
  forall fuel (r : Tcp.TcpReceiver) w buffer size total r' w' buffer',
    Tcp.receiveExact_loop fuel r w buffer size total
      = Ret (false, r', w', buffer') ->
    Tcp.connected_ r' = false.
Proof.
  induction fuel as [|fuel IH]; intros r w buffer size total r' w' buffer' H;
    simpl in H; destruct (total <? size)%nat; try discriminate.
  destruct (recv w (Tcp.socket_ r) (size - total)) as [[received data] w1].
  destruct (received <=? 0).
  - injection H as <- _ _. reflexivity.
  - destruct (length buffer <? total + length data)%nat; [discriminate|].
    eapply IH; eassumption.
Qed.

Lemma tcp_body_false_disconnects :
  forall (r : Tcp.TcpReceiver) w buffer fs r' w' buffer',
    Tcp.receiveBody r w buffer fs = Ret (false, r', w', buffer') ->
    Tcp.connected_ r' = false.
Proof.
  intros r w buffer fs r' w' buffer' H. unfold Tcp.receiveBody in H.
  apply bind_ret_inv in H as (b1 & _ & H).
  apply bind_ret_inv in H as ([[[ok r1] w1] b2] & Hex & H).
  destruct ok; simpl in H; [discriminate|].
  injection H as <- _ _.
  eapply tcp_loop_false_disconnects; exact Hex.
Qed.

Lemma udp_loop_false_unbinds :
  forall fuel (r : Udp.UdpReceiver) w buffer fs r' w' buffer',
    Udp.receive_loop fuel r w buffer fs = Ret (false, r', w', buffer') ->
    Udp.bound_ r' = false.
Proof.
  induction fuel as [|fuel IH]; intros r w buffer fs r' w' buffer' H;
    simpl in H;
    destruct (Udp.accumulated_bytes_ r <? to_size_t fs)%nat; try discriminate.
  destruct (recvfrom w (Udp.socket_ r) (length (Udp.packet_buffer_ r)))
    as [[received data] w1].
  destruct (received <=? 0).
  - injection H as <- _ _. reflexivity.
  - apply bind_ret_inv in H as (b1 & _ & H). eapply IH; exact H.
Qed.

(** C6. [receiveFrame] on a receiver that is not connected (TCP) or not
    bound (UDP) returns failure at once: the receiver, the world (so the
    trace of socket calls and the pending input) and the caller's buffer
    are exactly as before.  This is the state of a new receiver, and the
    state every failing [receiveFrame] that returns leaves behind. *)
Theorem C6_receiveFrame_rejected_when_disconnected :
  (forall (r : Tcp.TcpReceiver) w buffer,
      Tcp.connected_ r = false ->
      Tcp.receiveFrame r w buffer = Ret (false, r, w, buffer)) /\
  (forall (r : Udp.UdpReceiver) w buffer,
      Udp.bound_ r = false ->
      Udp.receiveFrame r w buffer = Ret (false, r, w, buffer)) /\
  (forall cfg, Tcp.connected_ (Tcp.make cfg) = false) /\
  (forall cfg r, Udp.make cfg = Ret r -> Udp.bound_ r = false) /\
  (forall (r r' : Tcp.TcpReceiver) w w' buffer buffer',
      Tcp.receiveFrame r w buffer = Ret (false, r', w', buffer') ->
      Tcp.connected_ r' = false) /\
  (forall (r r' : Udp.UdpReceiver) w w' buffer buffer',
      Udp.receiveFrame r w buffer = Ret (false, r', w', buffer') ->
      Udp.bound_ r' = false).
Proof.
  repeat split.
  - intros r w buffer H. unfold Tcp.receiveFrame. now rewrite H.
  - intros r w buffer H. unfold Udp.receiveFrame. now rewrite H.
  - intros cfg r H. unfold Udp.make in H.
    apply bind_ret_inv in H as (acc & _ & H).
    apply bind_ret_inv in H as (pkt & _ & H).
    injection H as <-. reflexivity.
  - intros r r' w w' buffer buffer' H. unfold Tcp.receiveFrame in H.
    destruct (Tcp.connected_ r) eqn:Hc; simpl in H.
    + destruct (has_header (Tcp.config_ r)).
      * apply bind_ret_inv in H as ([[[ok r1] w1] hdr] & Hex & H).
        destruct ok; simpl in H.
        -- eapply tcp_body_false_disconnects; exact H.
        -- injection H as <- _ _.
           eapply tcp_loop_false_disconnects; exact Hex.
      * eapply tcp_body_false_disconnects; exact H.
    + injection H as <- _ _. exact Hc.
  - intros r r' w w' buffer buffer' H. unfold Udp.receiveFrame in H.
    destruct (Udp.bound_ r) eqn:Hc; simpl in H.
    + apply bind_ret_inv in H as (b1 & _ & H).
      apply bind_ret_inv in H as ([[[ok r1] w1] b2] & Hex & H).
      destruct ok; simpl in H; [discriminate|].
      injection H as <- _ _.
      eapply udp_loop_false_unbinds; exact Hex.
    + injection H as <- _ _. exact Hc.
Qed.

Lemma C6_witness :
  Tcp.receiveFrame (Tcp.make (sample_config 8 8 false 4))
     (fresh_world [Packet [x01; x02]]) []
  = Ret (false, Tcp.make (sample_config 8 8 false 4),
         fresh_world [Packet [x01; x02]], []).
Proof.
  apply (proj1 C6_receiveFrame_rejected_when_disconnected). reflexivity.
Defined.

Lemma closes_close (w : World) (fd : Z) : closes (close w fd) = closes w ++ [fd].
Proof.
  unfold closes, close, log; simpl. rewrite flat_map_app. reflexivity.
Qed.

(** C7. [disconnect()] is idempotent for both receivers.  Whatever the
    receiver and the world, it returns, the receiver is then disconnected
    (unbound) with no descriptor (and, for UDP, an accumulation offset of
    zero), the descriptor it held, if any, has been released once, and a
    second call right after changes neither the receiver nor the world: it
    releases nothing.  On a receiver that was never connected the first
    call already releases nothing. *)
Theorem C7_disconnect_idempotent :
  (forall (r : Tcp.TcpReceiver) (w : World),
      let r1 := fst (Tcp.disconnect r w) in
      let w1 := snd (Tcp.disconnect r w) in
      Tcp.connected_ r1 = false /\
      Tcp.socket_ r1 = INVALID_SOCK /\
      closes w1 =
        closes w ++ (if Tcp.socket_ r =? INVALID_SOCK then [] else [Tcp.socket_ r]) /\
      Tcp.disconnect r1 w1 = (r1, w1)) /\
  (forall cfg w, Tcp.disconnect (Tcp.make cfg) w = (Tcp.make cfg, w)) /\
  (forall (r : Udp.UdpReceiver) (w : World),
      let r1 := fst (Udp.disconnect r w) in
      let w1 := snd (Udp.disconnect r w) in
      Udp.bound_ r1 = false /\
      Udp.socket_ r1 = INVALID_SOCK /\
      Udp.accumulated_bytes_ r1 = 0%nat /\
      closes w1 =
        closes w ++ (if Udp.socket_ r =? INVALID_SOCK then [] else [Udp.socket_ r]) /\
      Udp.disconnect r1 w1 = (r1, w1)) /\
  (forall cfg r0 w, Udp.make cfg = Ret r0 -> Udp.disconnect r0 w = (r0, w)).
Proof.
  split; [|split; [|split]].
  - intros r w. unfold Tcp.disconnect.
    destruct (Tcp.socket_ r =? INVALID_SOCK) eqn:E; simpl.
    + apply Z.eqb_eq in E. rewrite app_nil_r.
      repeat split; try assumption.
      unfold Tcp.disconnect; simpl. apply Z.eqb_eq in E. now rewrite E.
    + repeat split. apply closes_close.
  - intros cfg w. reflexivity.
  - intros r w. unfold Udp.disconnect.
    destruct (Udp.socket_ r =? INVALID_SOCK) eqn:E; simpl.
    + apply Z.eqb_eq in E. rewrite app_nil_r.
      repeat split; try assumption.
      unfold Udp.disconnect; simpl. apply Z.eqb_eq in E. now rewrite E.
    + repeat split. apply closes_close.
  - intros cfg r0 w H. unfold Udp.make in H.
    apply bind_ret_inv in H as (acc & _ & H).
    apply bind_ret_inv in H as (pkt & _ & H).
    injection H as <-. reflexivity.
Qed.

Lemma C7_witness :
  exists r0, Udp.make (sample_config 8 8 false 4) = Ret r0 /\
             Udp.disconnect r0 (fresh_world []) = (r0, fresh_world []).
Proof.
  eexists. split; [reflexivity|].
  apply (proj2 (proj2 (proj2 C7_disconnect_idempotent))
           (sample_config 8 8 false 4)).
  reflexivity.
Defined.

(** C8. [connect()] on a receiver that is already connected (TCP) or
    already bound (UDP) returns success and is a no-op: the receiver is
    unchanged and so is the world, so no socket call was made, whatever
    the operating system would have answered. *)
Theorem C8_connect_when_connected_is_noop :
  (forall e (r : Tcp.TcpReceiver) w,
      Tcp.connected_ r = true -> Tcp.connect e r w = (true, r, w)) /\
  (forall e (r : Udp.UdpReceiver) w,
      Udp.bound_ r = true -> Udp.connect e r w = (true, r, w)).
Proof.
  split; intros e r w H.
  - unfold Tcp.connect. now rewrite H.
  - unfold Udp.connect. now rewrite H.
Qed.

Lemma C8_witness :
  Tcp.connect sample_env (connected_tcp (sample_config 8 8 false 4) 5 1)
    (fresh_world [])
  = (true, connected_tcp (sample_config 8 8 false 4) 5 1, fresh_world []).
Proof.
  apply (proj1 C8_connect_when_connected_is_noop). reflexivity.
Defined.

(** C10, as stated, fails: a [connect()] on a connected receiver returns
    success and keeps the 5 bytes and 1 frame counted so far. *)
Lemma C10_counterexample :
  let r := connected_tcp (sample_config 8 8 false 4) 5 1 in
  exists r' w',
    Tcp.connect sample_env r (fresh_world []) = (true, r', w') /\
    Tcp.total_bytes_received_ r' = 5 /\
    Tcp.total_frames_received_ r' = 1.
Proof.
  simpl. eexists. eexists. split; [reflexivity|]. split; reflexivity.
Qed.

(** C10 (amended). A [connect()] that establishes the connection, that
    is, one made on a receiver that is not connected (not bound) and
    returning success, leaves the receiver connected with the byte and
    frame totals at zero (and, for UDP, the accumulation offset at zero).
    A [connect()] on a receiver that is already connected (bound) returns
    success and keeps the totals. *)
Theorem C10_connect_resets_statistics :
  (forall e (r r' : Tcp.TcpReceiver) w w',
      Tcp.connected_ r = false ->
      Tcp.connect e r w = (true, r', w') ->
      Tcp.connected_ r' = true /\
      Tcp.total_bytes_received_ r' = 0 /\
      Tcp.total_frames_received_ r' = 0) /\
  (forall e (r r' : Udp.UdpReceiver) w w',
      Udp.bound_ r = false ->
      Udp.connect e r w = (true, r', w') ->
      Udp.bound_ r' = true /\
      Udp.total_bytes_received_ r' = 0 /\
      Udp.total_frames_received_ r' = 0 /\
      Udp.accumulated_bytes_ r' = 0%nat) /\
  (forall e (r r' : Tcp.TcpReceiver) w w',
      Tcp.connected_ r = true ->
      Tcp.connect e r w = (true, r', w') ->
      Tcp.total_bytes_received_ r' = Tcp.total_bytes_received_ r /\
      Tcp.total_frames_received_ r' = Tcp.total_frames_received_ r) /\
  (forall e (r r' : Udp.UdpReceiver) w w',
      Udp.bound_ r = true ->
      Udp.connect e r w = (true, r', w') ->
      Udp.total_bytes_received_ r' = Udp.total_bytes_received_ r /\
      Udp.total_frames_received_ r' = Udp.total_frames_received_ r).
Proof.
  split; [|split; [|split]].
  - intros e r r' w w' Hc H. unfold Tcp.connect in H. rewrite Hc in H.
    cbn [Tcp.set_socket Tcp.socket_] in H.
    destruct (env_socket e =? INVALID_SOCK); [discriminate|].
    destruct (env_pton e <=? 0).
    { destruct Tcp.disconnect; discriminate. }
    destruct (env_attach e <? 0).
    { destruct Tcp.disconnect; discriminate. }
    injection H as <- _. repeat split.
  - intros e r r' w w' Hc H. unfold Udp.connect in H. rewrite Hc in H.
    cbn [Udp.set_socket Udp.socket_ Udp.config_] in H.
    destruct (env_socket e =? INVALID_SOCK); [discriminate|].
    destruct (Udp.wildcard_ip (camera_ip (Udp.config_ r))).
    + destruct (env_attach e <? 0).
      { destruct Udp.disconnect; discriminate. }
      injection H as <- _. repeat split.
    + destruct (env_pton e <=? 0).
      { destruct Udp.disconnect; discriminate. }
      destruct (env_attach e <? 0).
      { destruct Udp.disconnect; discriminate. }
      injection H as <- _. repeat split.
  - intros e r r' w w' Hc H. unfold Tcp.connect in H. rewrite Hc in H.
    injection H as <- _. split; reflexivity.
  - intros e r r' w w' Hc H. unfold Udp.connect in H. rewrite Hc in H.
    injection H as <- _. split; reflexivity.
Qed.

Lemma C10_witness :
  let r := Tcp.make (sample_config 8 8 false 4) in
  let res := Tcp.connect sample_env r (fresh_world []) in
  Tcp.connected_ (snd (fst res)) = true /\
  Tcp.total_bytes_received_ (snd (fst res)) = 0 /\
  Tcp.total_frames_received_ (snd (fst res)) = 0.
Proof.
  apply (proj1 C10_connect_resets_statistics sample_env
           (Tcp.make (sample_config 8 8 false 4)) _ (fresh_world [])
           (snd (Tcp.connect sample_env (Tcp.make (sample_config 8 8 false 4))
                   (fresh_world [])))).
  - reflexivity.
  - reflexivity.
Defined.

(** ** Lists and buffers *)

Lemma firstn_add {A : Type} (n m : nat) (l : list A) :
  firstn (n + m) l = firstn n l ++ firstn m (skipn n l).
Proof.
  revert l; induction n as [|n IH]; intros [|a l]; simpl;
    try reflexivity.
  - now rewrite firstn_nil.
  - now rewrite IH.
Qed.

Lemma skipn_add {A : Type} (n m : nat) (l : list A) :
  skipn (n + m) l = skipn m (skipn n l).
Proof.
  revert l; induction n as [|n IH]; intros [|a l]; simpl;
    try reflexivity.
  - now rewrite skipn_nil.
  - apply IH.
Qed.

Lemma write_at_nil (b : list byte) (t : nat) : write_at b t [] = b.
Proof.
  unfold write_at; simpl. rewrite Nat.add_0_r. apply firstn_skipn.
Qed.

Lemma length_write_at (b d : list byte) (t : nat) :
  (t + length d <= length b)%nat -> length (write_at b t d) = length b.
Proof.
  intro H. unfold write_at.
  rewrite !length_app, length_firstn, length_skipn. lia.
Qed.

Lemma write_at_app (b d1 d2 : list byte) (t : nat) :
  (t + length d1 <= length b)%nat ->
  write_at (write_at b t d1) (t + length d1) d2 = write_at b t (d1 ++ d2).
Proof.
  intro H. unfold write_at.
  assert (Ht : length (firstn t b) = t) by (rewrite length_firstn; lia).
  set (pre := firstn t b) in *.
  set (post := skipn (t + length d1) b).
  assert (Hl : length (pre ++ d1) = (t + length d1)%nat)
    by (rewrite length_app; lia).
  rewrite (app_assoc pre d1 post).
  replace (firstn (t + length d1) ((pre ++ d1) ++ post)) with (pre ++ d1).
  2:{ rewrite <- Hl, firstn_app, firstn_all, Nat.sub_diag, firstn_O.
      now rewrite app_nil_r. }
  replace (skipn (t + length d1 + length d2) ((pre ++ d1) ++ post))
    with (skipn (length d2) post).
  2:{ rewrite skipn_add, <- Hl, skipn_app, skipn_all, Nat.sub_diag.
      reflexivity. }
  subst post. rewrite skipn_skipn, length_app, <- !app_assoc.
  do 4 f_equal. lia.
Qed.

Lemma write_at_whole (b d : list byte) :
  length d = length b -> write_at b 0 d = d.
Proof.
  intro H. unfold write_at; simpl. rewrite H, skipn_all. apply app_nil_r.
Qed.

Lemma skipn_repeat {A : Type} (a : A) (k n : nat) :
  skipn k (repeat a n) = repeat a (n - k).
Proof.
  revert n; induction k as [|k IH]; intros [|n]; simpl; try reflexivity.
  apply IH.
Qed.

Lemma le_decode_zeros (n : nat) : le_decode (repeat zero_byte n) = 0.
Proof.
  induction n as [|n IH]; simpl; [reflexivity|]. rewrite IH. reflexivity.
Qed.

Lemma le_decode_app_zeros (d : list byte) (n : nat) :
  le_decode (d ++ repeat zero_byte n) = le_decode d.
Proof.
  induction d as [|b d IH]; simpl.
  - apply le_decode_zeros.
  - now rewrite IH.
Qed.

Lemma to_size_t_small (z : Z) : 0 <= z <= INT_MAX -> to_size_t z = Z.to_nat z.
Proof.
  intro H. unfold to_size_t. rewrite Z.mod_small; [reflexivity|].
  unfold INT_MAX in H. lia.
Qed.

Lemma wrap64_add_l (a b : Z) : wrap64 (wrap64 a + b) = wrap64 (a + b).
Proof. unfold wrap64. apply Z.add_mod_idemp_l. lia. Qed.

Lemma resize_small (v : list byte) (n : nat) :
  Z.of_nat n <= INT_MAX ->
  exists v', resize v n = Ret v' /\ length v' = n.
Proof.
  intro H. unfold resize.
  destruct (Z.of_nat n <=? vector_max_size) eqn:E.
  - eexists; split; [reflexivity|].
    rewrite length_app, length_firstn, repeat_length. lia.
  - apply Z.leb_gt in E. unfold vector_max_size, INT_MAX in *. lia.
Qed.

(** ** The stream socket *)

Lemma stream_recv_spec (s : list net_event) (len : nat) :
  (0 < len)%nat ->
  forall ret data rest, stream_recv s len = (ret, data, rest) ->
    (stream_bytes s = [] /\ ret <= 0) \/
    (ret = Z.of_nat (length data) /\ (0 < length data <= len)%nat /\
     data = firstn (length data) (stream_bytes s) /\
     stream_bytes rest = skipn (length data) (stream_bytes s)).
Proof.
  intro Hlen. induction s as [|ev s IH]; intros ret data rest H; simpl in H.
  - injection H as <- _ _. left. split; [reflexivity | lia].
  - destruct ev as [bs| |].
    + destruct bs as [|b bs].
      * simpl. apply IH. exact H.
      * right. injection H as <- <- <-.
        set (l := b :: bs) in *.
        assert (Hd : length (firstn len l) = Nat.min len (length l))
          by apply length_firstn.
        assert (Hpos : (0 < length l)%nat) by (subst l; simpl; lia).
        clearbody l.
        split; [reflexivity|]. split; [lia|].
        cbn [stream_bytes]. split.
        -- rewrite firstn_app.
           replace (length (firstn len l) - length l)%nat with 0%nat by lia.
           rewrite firstn_O, app_nil_r, Hd.
           destruct (Nat.le_gt_cases len (length l)) as [Hle|Hgt].
           ++ now rewrite Nat.min_l by exact Hle.
           ++ rewrite Nat.min_r by lia.
              rewrite firstn_all. apply firstn_all2. lia.
        -- rewrite skipn_app.
           destruct (Nat.le_gt_cases (length l) len) as [Hle|Hgt].
           ++ rewrite (skipn_all2 l) by lia.
              replace (length (firstn len l)) with (length l) by lia.
              rewrite skipn_all, Nat.sub_diag. reflexivity.
           ++ replace (length (firstn len l)) with len by lia.
              replace (len - length l)%nat with 0%nat by lia.
              simpl skipn at 3.
              destruct (skipn len l) eqn:E; [|reflexivity].
              apply (f_equal (@length byte)) in E.
              rewrite length_skipn in E. simpl in E. lia.
    + left. injection H as <- _ _. split; [reflexivity | lia].
    + left. injection H as <- _ _. split; [reflexivity | lia].
Qed.

(** ** The stream receiver *)

(** Two [<=?] tests that agree: decide both and compare. *)
Ltac same_leb :=
  match goal with
  | |- (?a <=? ?b)%nat = (?c <=? ?d)%nat =>
      destruct (Nat.leb_spec0 a b); destruct (Nat.leb_spec0 c d);
      try reflexivity; lia
  end.

Lemma tcp_counted_refl (r : Tcp.TcpReceiver) : tcp_counted r r 0.
Proof.
  unfold tcp_counted. repeat split. simpl. now rewrite Z.add_0_r.
Qed.

Lemma tcp_counted_step (r r' : Tcp.TcpReceiver) (k m : nat) :
  tcp_counted (Tcp.add_bytes r (Z.of_nat k)) r' m ->
  tcp_counted r r' (k + m).
Proof.
  unfold tcp_counted; simpl. intros (Hc & Hs & Hf & Hb).
  repeat split; try assumption.
  rewrite Hb, wrap64_add_l. f_equal. lia.
Qed.

(** The read-exact loop: it always returns; it succeeds exactly when the
    stream still holds the missing bytes, and then the buffer holds them
    from offset [total] on. *)
Lemma tcp_loop_spec :
  forall fuel (r : Tcp.TcpReceiver) w buffer size total,
    (size - total <= fuel)%nat ->
    (total <= size <= length buffer)%nat ->
    exists r' w' buffer',
      Tcp.receiveExact_loop fuel r w buffer size total
        = Ret ((size - total <=? length (stream_bytes (inbound w)))%nat,
               r', w', buffer') /\
      tcp_counted r r'
        (Nat.min (size - total) (length (stream_bytes (inbound w)))) /\
      length buffer' = length buffer /\
      ((size - total <= length (stream_bytes (inbound w)))%nat ->
         buffer' = write_at buffer total
                     (firstn (size - total) (stream_bytes (inbound w))) /\
         Tcp.connected_ r' = Tcp.connected_ r /\
         stream_bytes (inbound w')
           = skipn (size - total) (stream_bytes (inbound w))) /\
      ((length (stream_bytes (inbound w)) < size - total)%nat ->
         Tcp.connected_ r' = false).
Proof.
  induction fuel as [|fuel IH]; intros r w buffer size total Hfuel Hb.
  - assert (size = total) by lia. subst size.
    exists r, w, buffer. simpl. rewrite Nat.ltb_irrefl, Nat.sub_diag. simpl.
    split; [reflexivity|]. split; [apply tcp_counted_refl|].
    split; [reflexivity|]. split; [|lia].
    intros _. now rewrite write_at_nil.
  - simpl. destruct (total <? size)%nat eqn:Hlt.
    2:{ apply Nat.ltb_ge in Hlt. assert (size = total) by lia. subst size.
        exists r, w, buffer. rewrite Nat.sub_diag. simpl.
        split; [reflexivity|]. split; [apply tcp_counted_refl|].
        split; [reflexivity|]. split; [|lia].
        intros _. now rewrite write_at_nil. }
    apply Nat.ltb_lt in Hlt.
    unfold recv.
    destruct (stream_recv (inbound w) (size - total))
      as [[ret data] rest] eqn:E.
    assert (Hpos : (0 < size - total)%nat) by lia.
    destruct (stream_recv_spec _ _ Hpos _ _ _ E)
      as [[Hnil Hret] | (Hret & Hk & Hdata & Hrest)].
    + apply Z.leb_le in Hret. rewrite Hret, Hnil. simpl.
      eexists _, _, _. split.
      { destruct (size - total <=? 0)%nat eqn:E0; [|reflexivity].
        apply Nat.leb_le in E0. lia. }
      rewrite Nat.min_0_r.
      split.
      { unfold tcp_counted; simpl. rewrite Z.add_0_r. repeat split. }
      split; [reflexivity|].
      split; [lia | reflexivity].
    + set (avail := stream_bytes (inbound w)) in *.
      set (k := length data) in *.
      assert (Hka : (k <= length avail)%nat).
      { apply (f_equal (@length byte)) in Hdata.
        rewrite length_firstn in Hdata. fold k in Hdata. lia. }
      replace (ret <=? 0) with false by (symmetry; apply Z.leb_gt; lia).
      replace (length buffer <? total + k)%nat with false
        by (symmetry; apply Nat.ltb_ge; lia).
      replace (Z.to_nat ret) with k by lia.
      destruct (IH (Tcp.add_bytes r ret) 
                   {| trace := trace w ++ [sys_recv (Tcp.socket_ r) (size - total)];
                      inbound := rest |}
                   (write_at buffer total data) size (total + k)%nat)
        as (r' & w' & buffer' & Hrun & Hcnt & Hlen & Hok & Hko).
      { lia. }
      { rewrite length_write_at by (fold k; lia). lia. }
      cbn [inbound] in Hrun, Hcnt, Hok, Hko. rewrite Hrest in *.
      rewrite length_skipn in *.
      exists r', w', buffer'. split.
      { cbn [Tcp.add_bytes Tcp.socket_] in Hrun. rewrite Hrun.
        do 4 f_equal. same_leb. }
      split.
      { rewrite Hret in Hcnt. apply tcp_counted_step in Hcnt.
        replace (Nat.min (size - total) (length avail))
          with (k + Nat.min (size - (total + k)) (length avail - k))%nat
          by lia.
        exact Hcnt. }
      split.
      { rewrite Hlen. apply length_write_at. fold k; lia. }
      split.
      * intro Hle. destruct Hok as (Hbuf & Hconn & Hstream); [lia|].
        split; [|split].
        -- rewrite Hbuf. unfold k at 1. rewrite write_at_app by (fold k; lia).
           f_equal.
           replace (size - total)%nat with (k + (size - (total + k)))%nat by lia.
           rewrite firstn_add. f_equal. exact Hdata.
        -- exact Hconn.
        -- rewrite Hstream, <- skipn_add. f_equal. lia.
      * intro Hgt. apply Hko. lia.
Qed.

Lemma tcp_receiveExact_spec :
  forall (r : Tcp.TcpReceiver) w buffer size,
    (size <= length buffer)%nat ->
    exists r' w' buffer',
      Tcp.receiveExact r w buffer size
        = Ret ((size <=? length (stream_bytes (inbound w)))%nat,
               r', w', buffer') /\
      tcp_counted r r' (Nat.min size (length (stream_bytes (inbound w)))) /\
      length buffer' = length buffer /\
      ((size <= length (stream_bytes (inbound w)))%nat ->
         buffer' = write_at buffer 0 (firstn size (stream_bytes (inbound w))) /\
         Tcp.connected_ r' = Tcp.connected_ r /\
         stream_bytes (inbound w') = skipn size (stream_bytes (inbound w))) /\
      ((length (stream_bytes (inbound w)) < size)%nat ->
         Tcp.connected_ r' = false).
Proof.
  intros r w buffer size H. unfold Tcp.receiveExact.
  destruct (tcp_loop_spec size r w buffer size 0) as (r' & w' & b' & Hrun);
    [lia | lia |].
  rewrite Nat.sub_0_r in Hrun. exists r', w', b'. exact Hrun.
Qed.

Lemma tcp_receiveBody_spec :
  forall (r : Tcp.TcpReceiver) w buffer fs,
    0 <= fs <= INT_MAX ->
    exists r' w' buffer',
      Tcp.receiveBody r w buffer fs
        = Ret ((Z.to_nat fs <=? length (stream_bytes (inbound w)))%nat,
               r', w', buffer') /\
      Tcp.config_ r' = Tcp.config_ r /\
      wrap64 (Tcp.total_bytes_received_ r')
        = wrap64 (Tcp.total_bytes_received_ r
                  + Z.of_nat (Nat.min (Z.to_nat fs)
                                (length (stream_bytes (inbound w))))) /\
      length buffer' = Z.to_nat fs /\
      ((Z.to_nat fs <= length (stream_bytes (inbound w)))%nat ->
         buffer' = firstn (Z.to_nat fs) (stream_bytes (inbound w)) /\
         Tcp.connected_ r' = Tcp.connected_ r /\
         Tcp.total_frames_received_ r'
           = wrap64 (Tcp.total_frames_received_ r + 1) /\
         stream_bytes (inbound w')
           = skipn (Z.to_nat fs) (stream_bytes (inbound w))) /\
      ((length (stream_bytes (inbound w)) < Z.to_nat fs)%nat ->
         Tcp.connected_ r' = false /\
         Tcp.total_frames_received_ r' = Tcp.total_frames_received_ r).
Proof.
  intros r w buffer fs Hfs. unfold Tcp.receiveBody.
  rewrite to_size_t_small by exact Hfs.
  set (n := Z.to_nat fs). set (avail := stream_bytes (inbound w)).
  destruct (resize_small buffer n) as (b0 & -> & Hb0); [subst n; lia|].
  simpl bind.
  destruct (tcp_receiveExact_spec r w b0 n)
    as (r1 & w1 & b1 & Hrun & (Hc & Hs & Hf & Hbytes) & Hlen & Hok & Hko);
    [lia|].
  fold avail in Hrun, Hbytes, Hok, Hko. rewrite Hrun. simpl bind.
  destruct (Nat.leb_spec0 n (length avail)) as [Hle|Hgt]; simpl.
  - destruct (Hok Hle) as (Hbuf & Hconn & Hstream).
    eexists _, _, _. split; [reflexivity|]. simpl.
    repeat split; try assumption; try lia.
    + rewrite Hbuf. apply write_at_whole.
      rewrite length_firstn. lia.
    + now rewrite Hf.
  - eexists _, _, _. split; [reflexivity|].
    repeat split; try assumption; try lia.
    apply Hko. lia.
Qed.

Lemma le_decode_header (d : list byte) :
  (length d <= 4)%nat ->
  le_decode (write_at Tcp.header_word 0 d) = le_decode d.
Proof.
  intro H. unfold write_at. simpl firstn. simpl app at 1.
  change Tcp.header_word with (repeat zero_byte 4).
  rewrite skipn_repeat. apply le_decode_app_zeros.
Qed.

Lemma header_valid_range (h : Z) :
  Tcp.header_valid h = true <-> 0 < h < 100000000.
Proof.
  unfold Tcp.header_valid. rewrite andb_true_iff, !Z.ltb_lt. tauto.
Qed.

(** What [receiveFrame] does on a connected receiver, in terms of the
    bytes the stream delivers before it closes or fails. *)
Lemma tcp_receiveFrame_spec :
  forall (r : Tcp.TcpReceiver) w buffer,
    Tcp.connected_ r = true ->
    valid_config (Tcp.config_ r) ->
    let avail := stream_bytes (inbound w) in
    let hs := header_length (Tcp.config_ r) in
    let n := requested_length (Tcp.config_ r) (firstn hs avail) in
    exists r' w' buffer',
      Tcp.receiveFrame r w buffer
        = Ret ((hs + n <=? length avail)%nat, r', w', buffer') /\
      wrap64 (Tcp.total_bytes_received_ r')
        = wrap64 (Tcp.total_bytes_received_ r
                  + Z.of_nat (Nat.min (hs + n) (length avail))) /\
      ((hs + n <= length avail)%nat ->
         buffer' = firstn n (skipn hs avail) /\
         length buffer' = n /\
         Tcp.connected_ r' = true /\
         Tcp.total_frames_received_ r'
           = wrap64 (Tcp.total_frames_received_ r + 1) /\
         stream_bytes (inbound w') = skipn (hs + n) avail) /\
      ((length avail < hs + n)%nat ->
         Tcp.connected_ r' = false /\
         Tcp.total_frames_received_ r' = Tcp.total_frames_received_ r).
Proof.
  intros r w buffer Hconn [Hfs Hhs] avail hs n.
  unfold Tcp.receiveFrame. rewrite Hconn. simpl negb. cbv iota.
  unfold Tcp.getFrameSize.
  subst n hs. unfold header_length, requested_length.
  destruct (has_header (Tcp.config_ r)) eqn:Hh; simpl andb.
  - specialize (Hhs eq_refl).
    rewrite to_size_t_small by (unfold INT_MAX; lia).
    set (hs := Z.to_nat (header_size (Tcp.config_ r))).
    assert (Hhs4 : (hs <= 4)%nat) by (subst hs; lia).
    destruct (tcp_receiveExact_spec r w Tcp.header_word hs)
      as (r1 & w1 & hdr & Hrun & (Hc & Hs & Hf & Hbytes) & Hlen & Hok & Hko);
      [simpl; lia|].
    fold avail in Hrun, Hbytes, Hok, Hko. rewrite Hrun. simpl bind.
    destruct (Nat.leb_spec0 hs (length avail)) as [Hle|Hgt]; simpl negb;
      cbv iota.
    + destruct (Hok Hle) as (Hbuf & Hconn1 & Hstream).
      assert (Hdec : le_decode hdr = le_decode (firstn hs avail)).
      { rewrite Hbuf. apply le_decode_header. rewrite length_firstn. lia. }
      rewrite Hdec. set (h := le_decode (firstn hs avail)).
      set (fs := if Tcp.header_valid h then h else frame_size (Tcp.config_ r)).
      assert (Hfsr : 0 <= fs <= INT_MAX).
      { subst fs. destruct (Tcp.header_valid h) eqn:Hv; [|exact Hfs].
        apply header_valid_range in Hv. unfold INT_MAX. lia. }
      replace (if Tcp.header_valid h then Z.to_nat h
               else Z.to_nat (frame_size (Tcp.config_ r)))
        with (Z.to_nat fs) by (subst fs; now destruct (Tcp.header_valid h)).
      destruct (tcp_receiveBody_spec r1 w1 buffer fs Hfsr)
        as (r2 & w2 & b2 & Hrun2 & Hc2 & Hbytes2 & Hlen2 & Hok2 & Hko2).
      rewrite Hstream, length_skipn in *.
      exists r2, w2, b2. split.
      { rewrite Hrun2. do 4 f_equal. same_leb. }
      split.
      { rewrite Hbytes2, <- wrap64_add_l, Hbytes, wrap64_add_l.
        f_equal. lia. }
      split.
      * intro Hall. destruct Hok2 as (Hb2 & Hcn2 & Hfr2 & Hst2); [lia|].
        repeat split.
        -- exact Hb2.
        -- exact Hlen2.
        -- now rewrite Hcn2, Hconn1.
        -- now rewrite Hfr2, Hf.
        -- rewrite Hst2, <- skipn_add. reflexivity.
      * intro Hnot. destruct Hko2 as (Hcn2 & Hfr2); [lia|].
        split; [exact Hcn2 | now rewrite Hfr2, Hf].
    + exists r1, w1, buffer. split.
      { do 4 f_equal. symmetry. apply Nat.leb_gt. lia. }
      split.
      { rewrite Hbytes. do 2 f_equal. lia. }
      split; [lia|]. intros _. split; [apply Hko; lia | exact Hf].
  - destruct (tcp_receiveBody_spec r w buffer _ Hfs)
      as (r2 & w2 & b2 & Hrun2 & Hc2 & Hbytes2 & Hlen2 & Hok2 & Hko2).
    fold avail in Hrun2, Hbytes2, Hok2, Hko2.
    simpl firstn. simpl skipn. rewrite !Nat.add_0_l.
    exists r2, w2, b2. split; [exact Hrun2|]. split; [exact Hbytes2|].
    split.
    + intro Hall. destruct (Hok2 Hall) as (Hb2 & Hcn2 & Hfr2 & Hst2).
      repeat split; try assumption. now rewrite Hcn2.
    + exact Hko2.
Qed.

Lemma le_decode_nonneg (bs : list byte) : 0 <= le_decode bs.
Proof.
  induction bs as [|b bs IH]; cbn [le_decode]; [lia|].
  pose proof (N2Z.is_nonneg (Byte.to_N b)). lia.
Qed.

(** ** The stream receiver: exact reads, header, counters *)

(** What a connected [receiveFrame] hands over is a function of the bytes
    of the stream alone. *)
Lemma tcp_delivered_spec :
  forall (r : Tcp.TcpReceiver) (w : World) (buffer : list byte),
    Tcp.connected_ r = true ->
    valid_config (Tcp.config_ r) ->
    let avail := stream_bytes (inbound w) in
    let hs := header_length (Tcp.config_ r) in
    let n := requested_length (Tcp.config_ r) (firstn hs avail) in
    delivered (Tcp.receiveFrame r w buffer)
    = if (hs + n <=? length avail)%nat
      then Some (firstn n (skipn hs avail)) else None.
Proof.
  intros r w buffer Hc Hv avail hs n.
  destruct (tcp_receiveFrame_spec r w buffer Hc Hv)
    as (r' & w' & b' & Hrun & _ & Hok & _).
  fold avail hs n in Hrun, Hok. rewrite Hrun.
  destruct (Nat.leb_spec0 (hs + n) (length avail)) as [Hle|Hgt]; simpl.
  - destruct (Hok Hle) as (Hb & _). now rewrite Hb.
  - reflexivity.
Qed.

(** C1. On a connected receiver [receiveFrame] returns, and there are two
    cases only, decided by the bytes [avail] the stream delivers before
    the peer closes or the socket fails, not by how the peer cut them into
    writes.  With [hs] header bytes and a requested length [n]: if
    [hs + n] bytes arrive, the call returns success and the output buffer
    is exactly the [n] bytes that follow the header, the receiver staying
    connected; if a receive returns zero or an error before that, the call
    returns failure and the receiver is disconnected.  Two peers that
    send the same bytes in different writes get the same frame handed
    over. *)
Theorem C1_tcp_receiveFrame_exact :
  forall (r : Tcp.TcpReceiver) (w : World) (buffer : list byte),
    Tcp.connected_ r = true ->
    valid_config (Tcp.config_ r) ->
    let avail := stream_bytes (inbound w) in
    let hs := header_length (Tcp.config_ r) in
    let n := requested_length (Tcp.config_ r) (firstn hs avail) in
    (exists r' w' buffer',
       ((hs + n <= length avail)%nat /\
        Tcp.receiveFrame r w buffer = Ret (true, r', w', buffer') /\
        buffer' = firstn n (skipn hs avail) /\
        length buffer' = n /\
        Tcp.connected_ r' = true /\
        stream_bytes (inbound w') = skipn (hs + n) avail)
       \/
       ((length avail < hs + n)%nat /\
        Tcp.receiveFrame r w buffer = Ret (false, r', w', buffer') /\
        Tcp.connected_ r' = false)) /\
    (forall (w2 : World) (buffer2 : list byte),
        stream_bytes (inbound w2) = avail ->
        delivered (Tcp.receiveFrame r w2 buffer2)
        = delivered (Tcp.receiveFrame r w buffer)).
Proof.
  intros r w buffer Hc Hv avail hs n. split.
  - destruct (tcp_receiveFrame_spec r w buffer Hc Hv)
      as (r' & w' & b' & Hrun & _ & Hok & Hko).
    fold avail hs n in Hrun, Hok, Hko.
    exists r', w', b'.
    destruct (Nat.leb_spec0 (hs + n) (length avail)) as [Hle|Hgt].
    + left. destruct (Hok Hle) as (Hb & Hl & Hcn & _ & Hst).
      repeat split; assumption.
    + right. destruct Hko as (Hcn & _); [lia|].
      repeat split; [lia | assumption | assumption].
  - intros w2 buffer2 Hsame.
    rewrite (tcp_delivered_spec r w2 buffer2 Hc Hv).
    rewrite (tcp_delivered_spec r w buffer Hc Hv).
    fold avail. now rewrite Hsame.
Qed.

Lemma C1_witness :
  let r := connected_tcp (sample_config 8 1 false 4) 0 0 in
  let w := fresh_world [Packet [x0a]; Packet []; Packet [x0b; x0c]] in
  exists r' w' buffer',
    ((0 + 2 <= 3)%nat /\
     Tcp.receiveFrame r w [] = Ret (true, r', w', buffer') /\
     buffer' = [x0a; x0b] /\
     length buffer' = 2%nat /\
     Tcp.connected_ r' = true /\
     stream_bytes (inbound w') = [x0c])
    \/
    ((3 < 0 + 2)%nat /\
     Tcp.receiveFrame r w [] = Ret (false, r', w', buffer') /\
     Tcp.connected_ r' = false).
Proof.
  apply (C1_tcp_receiveFrame_exact
           (connected_tcp (sample_config 8 1 false 4) 0 0)
           (fresh_world [Packet [x0a]; Packet []; Packet [x0b; x0c]]) []).
  - reflexivity.
  - split; [vm_compute; split; discriminate | discriminate].
Defined.

Lemma tcp_loop_overrun :
  forall fuel (r : Tcp.TcpReceiver) w buffer size total,
    (size - total <= fuel)%nat ->
    (total <= length buffer < size)%nat ->
    (length buffer < total + length (stream_bytes (inbound w)))%nat ->
    Tcp.receiveExact_loop fuel r w buffer size total = Fault.
Proof.
  induction fuel as [|fuel IH]; intros r w buffer size total Hfuel Hb Hav;
    [lia|].
  simpl. replace (total <? size)%nat with true
    by (symmetry; apply Nat.ltb_lt; lia).
  unfold recv.
  destruct (stream_recv (inbound w) (size - total))
    as [[ret data] rest] eqn:E.
  assert (Hpos : (0 < size - total)%nat) by lia.
  destruct (stream_recv_spec _ _ Hpos _ _ _ E)
    as [[Hnil _] | (Hret & Hk & Hdata & Hrest)].
  - rewrite Hnil in Hav. simpl in Hav. lia.
  - replace (ret <=? 0) with false by (symmetry; apply Z.leb_gt; lia).
    destruct (length buffer <? total + length data)%nat eqn:Hover;
      [reflexivity|].
    apply Nat.ltb_ge in Hover.
    assert (Hka : (length data <= length (stream_bytes (inbound w)))%nat).
    { apply (f_equal (@length byte)) in Hdata.
      rewrite length_firstn in Hdata. lia. }
    apply IH.
    + lia.
    + rewrite length_write_at by lia. lia.
    + cbn [inbound]. rewrite Hrest, length_skipn.
      rewrite length_write_at by lia. lia.
Qed.

(** C2. The claim fails on the code when the declared header is wider
    than the 32-bit word it is read into: [receiveFrame] passes the address
    of its [uint32_t] local and [header_size] to [receiveExact], so for
    every [int] value of [header_size] outside [0..4] (a negative one is
    converted to a huge [size_t]) the read runs past the four bytes of the
    local as soon as the stream delivers a fifth byte.  The call then has
    undefined behaviour; it neither reads [header_size] bytes as a
    little-endian length nor goes on without an error. *)
Theorem C2_header_overruns_word :
  forall (r : Tcp.TcpReceiver) (w : World) (buffer : list byte),
    Tcp.connected_ r = true ->
    has_header (Tcp.config_ r) = true ->
    - 2 ^ 31 <= header_size (Tcp.config_ r) <= INT_MAX ->
    header_size (Tcp.config_ r) < 0 \/ 4 < header_size (Tcp.config_ r) ->
    (4 < length (stream_bytes (inbound w)))%nat ->
    Tcp.receiveFrame r w buffer = Fault.
Proof.
  intros r w buffer Hc Hh Hint Hout Hav.
  unfold Tcp.receiveFrame, Tcp.receiveExact. rewrite Hc, Hh. simpl negb.
  cbv iota.
  rewrite tcp_loop_overrun; [reflexivity | lia | |simpl; lia].
  simpl length. unfold to_size_t, INT_MAX in *.
  destruct Hout as [Hneg|Hbig].
  - replace (header_size (Tcp.config_ r) mod 2 ^ 64)
      with (header_size (Tcp.config_ r) + 2 ^ 64).
    + lia.
    + apply Z.mod_unique with (q := -1); lia.
  - rewrite Z.mod_small by lia. lia.
Qed.

Lemma C2_header_overruns_word_witness :
  let r := connected_tcp (sample_config 8 1 true 8) 0 0 in
  let w := fresh_world [Packet [x02; x00; x00; x00; x00; x00; x00; x00];
                        Packet [x0a; x0b]] in
  Tcp.receiveFrame r w [] = Fault.
Proof.
  apply (C2_header_overruns_word
           (connected_tcp (sample_config 8 1 true 8) 0 0)
           (fresh_world [Packet [x02; x00; x00; x00; x00; x00; x00; x00];
                         Packet [x0a; x0b]]) []).
  - reflexivity.
  - reflexivity.
  - vm_compute. split; discriminate.
  - right. simpl. lia.
  - simpl. lia.
Defined.

(** X20. With a frame-size header of at most four bytes declared, a
    connected [receiveFrame] takes the first [header_size] bytes of the
    stream as a little-endian unsigned number [h] and asks for [h] bytes
    when [0 < h < 100000000], for the configured frame size when [h] is
    [0] or at least [100000000]; in either case it returns, without
    raising an error, and succeeds as soon as the stream holds the header
    and that many bytes, the frame being the bytes right after the
    header. *)
Theorem tcp_header_clamp_within_word :
  forall (r : Tcp.TcpReceiver) (w : World) (buffer : list byte),
    Tcp.connected_ r = true ->
    valid_config (Tcp.config_ r) ->
    has_header (Tcp.config_ r) = true ->
    let avail := stream_bytes (inbound w) in
    let hs := Z.to_nat (header_size (Tcp.config_ r)) in
    let h := le_decode (firstn hs avail) in
    let n := requested_length (Tcp.config_ r) (firstn hs avail) in
    0 <= h /\
    (0 < h < 100000000 -> n = Z.to_nat h) /\
    (h = 0 \/ 100000000 <= h -> n = Z.to_nat (frame_size (Tcp.config_ r))) /\
    exists r' w' buffer',
      Tcp.receiveFrame r w buffer
        = Ret ((hs + n <=? length avail)%nat, r', w', buffer') /\
      ((hs + n <= length avail)%nat ->
         buffer' = firstn n (skipn hs avail) /\
         length buffer' = n /\
         stream_bytes (inbound w') = skipn (hs + n) avail).
Proof.
  intros r w buffer Hc Hv Hh avail hs h n.
  split; [apply le_decode_nonneg|].
  split; [|split].
  - intro Hr. subst n. unfold requested_length. rewrite Hh.
    fold h. apply header_valid_range in Hr. now rewrite Hr.
  - intro Hr. subst n. unfold requested_length. rewrite Hh. fold h.
    destruct (Tcp.header_valid h) eqn:E; [|reflexivity].
    apply header_valid_range in E. lia.
  - destruct (tcp_receiveFrame_spec r w buffer Hc Hv)
      as (r' & w' & b' & Hrun & _ & Hok & _).
    unfold header_length in Hrun, Hok. rewrite Hh in Hrun, Hok.
    fold avail hs n in Hrun, Hok.
    exists r', w', b'. split; [exact Hrun|].
    intro Hle. destruct (Hok Hle) as (Hb & Hl & _ & _ & Hst).
    repeat split; assumption.
Qed.

Lemma tcp_header_clamp_within_word_witness :
  let r := connected_tcp (sample_config 8 1 true 4) 0 0 in
  let w := fresh_world [Packet [x03; x00]; Packet [x00; x00; x0a];
                        Packet [x0b; x0c; x0d]] in
  let avail := [x03; x00; x00; x00; x0a; x0b; x0c; x0d] in
  let n := requested_length (sample_config 8 1 true 4) (firstn 4 avail) in
  0 <= 3 /\
  (0 < 3 < 100000000 -> n = 3%nat) /\
  (3 = 0 \/ 100000000 <= 3 -> n = 2%nat) /\
  exists r' w' buffer',
    Tcp.receiveFrame r w [] = Ret (true, r', w', buffer') /\
    ((4 + n <= 8)%nat ->
       buffer' = firstn n [x0a; x0b; x0c; x0d] /\
       length buffer' = n /\
       stream_bytes (inbound w') = skipn (4 + n) avail).
Proof.
  apply (tcp_header_clamp_within_word
           (connected_tcp (sample_config 8 1 true 4) 0 0)
           (fresh_world [Packet [x03; x00]; Packet [x00; x00; x0a];
                         Packet [x0b; x0c; x0d]]) []).
  - reflexivity.
  - split; [vm_compute; split; discriminate | intros _; simpl; lia].
  - reflexivity.
Defined.

(** C4, as stated, fails for the byte counter: with a frame of 2 bytes
    and a peer that closes after 1 byte, [receiveFrame] returns failure
    and the byte total has gone from 0 to 1. *)
Lemma C4_counterexample :
  let r := connected_tcp (sample_config 8 1 false 4) 0 0 in
  let w := fresh_world [Packet [x0a]; PeerClose] in
  exists r' w' buffer',
    Tcp.receiveFrame r w [] = Ret (false, r', w', buffer') /\
    Tcp.total_bytes_received_ r = 0 /\
    Tcp.total_bytes_received_ r' = 1.
Proof.
  simpl. eexists _, _, _. split; [vm_compute; reflexivity|].
  split; reflexivity.
Qed.

(** C4 (amended). A connected [receiveFrame] returns.  On success the
    frame counter has gone up by one, the byte counter by the header and
    the frame, and the buffer holds a whole frame.  On failure the frame
    counter is unchanged and the receiver is disconnected; the byte
    counter has gone up by the bytes received before the failure.
    Counters are taken modulo [2^64]. *)
Theorem C4_tcp_counters :
  forall (r : Tcp.TcpReceiver) (w : World) (buffer : list byte),
    Tcp.connected_ r = true ->
    valid_config (Tcp.config_ r) ->
    let avail := stream_bytes (inbound w) in
    let hs := header_length (Tcp.config_ r) in
    let n := requested_length (Tcp.config_ r) (firstn hs avail) in
    exists ok r' w' buffer',
      Tcp.receiveFrame r w buffer = Ret (ok, r', w', buffer') /\
      (ok = true ->
         Tcp.total_frames_received_ r'
           = wrap64 (Tcp.total_frames_received_ r + 1) /\
         wrap64 (Tcp.total_bytes_received_ r')
           = wrap64 (Tcp.total_bytes_received_ r + Z.of_nat (hs + n)) /\
         buffer' = firstn n (skipn hs avail) /\
         length buffer' = n) /\
      (ok = false ->
         Tcp.total_frames_received_ r' = Tcp.total_frames_received_ r /\
         wrap64 (Tcp.total_bytes_received_ r')
           = wrap64 (Tcp.total_bytes_received_ r + Z.of_nat (length avail)) /\
         Tcp.connected_ r' = false).
Proof.
  intros r w buffer Hc Hv avail hs n.
  destruct (tcp_receiveFrame_spec r w buffer Hc Hv)
    as (r' & w' & b' & Hrun & Hbytes & Hok & Hko).
  fold avail hs n in Hrun, Hbytes, Hok, Hko.
  eexists _, r', w', b'. split; [exact Hrun|].
  destruct (Nat.leb_spec0 (hs + n) (length avail)) as [Hle|Hgt].
  - split; [|discriminate]. intros _.
    destruct (Hok Hle) as (Hb & Hl & _ & Hfr & _).
    rewrite Nat.min_l in Hbytes by exact Hle.
    repeat split; assumption.
  - split; [discriminate|]. intros _.
    destruct Hko as (Hcn & Hfr); [lia|].
    rewrite Nat.min_r in Hbytes by lia.
    repeat split; assumption.
Qed.

Lemma C4_witness :
  let r := connected_tcp (sample_config 8 1 false 4) 7 1 in
  let w := fresh_world [Packet [x0a]; Packet [x0b; x0c]] in
  exists ok r' w' buffer',
    Tcp.receiveFrame r w [] = Ret (ok, r', w', buffer') /\
    (ok = true ->
       Tcp.total_frames_received_ r' = wrap64 (1 + 1) /\
       wrap64 (Tcp.total_bytes_received_ r') = wrap64 (7 + 2) /\
       buffer' = [x0a; x0b] /\
       length buffer' = 2%nat) /\
    (ok = false ->
       Tcp.total_frames_received_ r' = 1 /\
       wrap64 (Tcp.total_bytes_received_ r') = wrap64 (7 + 3) /\
       Tcp.connected_ r' = false).
Proof.
  apply (C4_tcp_counters
           (connected_tcp (sample_config 8 1 false 4) 7 1)
           (fresh_world [Packet [x0a]; Packet [x0b; x0c]]) []).
  - reflexivity.
  - split; [vm_compute; split; discriminate | discriminate].
Defined.

(** ** The datagram receiver *)

Lemma memcpy_ok (dst src : list byte) (off n : nat) :
  (off + n <= length dst)%nat -> (n <= length src)%nat ->
  memcpy dst off src n = Ret (write_at dst off (firstn n src)).
Proof.
  intros H1 H2. unfold memcpy.
  apply Nat.leb_le in H1, H2. now rewrite H1, H2.
Qed.

Lemma udp_loop_done fuel (r : Udp.UdpReceiver) w buffer fs :
  (to_size_t fs <= Udp.accumulated_bytes_ r)%nat ->
  Udp.receive_loop fuel r w buffer fs = Ret (true, r, w, buffer).
Proof.
  intro H. apply Nat.ltb_ge in H. destruct fuel; simpl; now rewrite H.
Qed.

(** The accumulation loop on any input: it returns, and every copy stays
    inside the output buffer. *)
Lemma udp_loop_safe :
  forall fuel (r : Udp.UdpReceiver) w buffer fs,
    length buffer = to_size_t fs ->
    (Udp.accumulated_bytes_ r <= to_size_t fs)%nat ->
    (to_size_t fs - Udp.accumulated_bytes_ r <= fuel)%nat ->
    exists ok r' w' buffer',
      Udp.receive_loop fuel r w buffer fs = Ret (ok, r', w', buffer') /\
      length buffer' = to_size_t fs /\
      Udp.config_ r' = Udp.config_ r /\
      (ok = true -> Udp.accumulated_bytes_ r' = to_size_t fs).
Proof.
  induction fuel as [|fuel IH]; intros r w buffer fs Hlen Hacc Hfuel.
  - rewrite udp_loop_done by lia.
    exists true, r, w, buffer. repeat split; [assumption | lia].
  - destruct (Nat.ltb_spec (Udp.accumulated_bytes_ r) (to_size_t fs))
      as [Hlt|Hge].
    2:{ rewrite udp_loop_done by lia.
        exists true, r, w, buffer. repeat split; [assumption | lia]. }
    cbn [Udp.receive_loop].
    replace (Udp.accumulated_bytes_ r <? to_size_t fs)%nat with true
      by (symmetry; apply Nat.ltb_lt; exact Hlt).
    unfold recvfrom.
    destruct (inbound w) as [|[bs| |] rest].
    1,3,4: (simpl; eexists _, _, _, _; split; [reflexivity|];
            repeat split; [assumption | discriminate]).
    cbn zeta. cbn [Udp.set_packet Udp.packet_buffer_ Udp.accumulated_bytes_
                    Udp.socket_].
    set (pkt := Udp.packet_buffer_ r).
    set (data := firstn (length pkt) bs).
    assert (Hd : (length data <= length pkt)%nat)
      by (subst data; rewrite length_firstn; lia).
    destruct (Z.of_nat (length data) <=? 0) eqn:Hrecv.
    { eexists _, _, _, _; split; [reflexivity|].
      repeat split; [assumption | discriminate]. }
    apply Z.leb_gt in Hrecv. rewrite Nat2Z.id.
    set (n := Nat.min (to_size_t fs - Udp.accumulated_bytes_ r) (length data)).
    rewrite memcpy_ok.
    2:{ subst n. lia. }
    2:{ rewrite length_write_at by (simpl; lia). subst n. lia. }
    cbn [bind].
    match goal with
    | |- context [Udp.receive_loop fuel ?r1 ?w1 ?b1 fs] =>
        destruct (IH r1 w1 b1 fs) as (ok & r' & w' & b' & Hrun & Hl & Hc & Ha)
    end.
    + rewrite length_write_at; [exact Hlen|].
      rewrite length_firstn, length_write_at by (simpl; lia). subst n. lia.
    + simpl. subst n. lia.
    + simpl. subst n. lia.
    + exists ok, r', w', b'. split; [exact Hrun|].
      repeat split; assumption.
Qed.

Lemma firstn_write_at_0 (pkt d : list byte) (n : nat) :
  (n <= length d)%nat -> firstn n (write_at pkt 0 d) = firstn n d.
Proof.
  intro H. unfold write_at. simpl firstn. simpl app at 1.
  rewrite firstn_app. replace (n - length d)%nat with 0%nat by lia.
  rewrite firstn_O. apply app_nil_r.
Qed.

(** The accumulation loop on a run of datagrams that completes the frame
    with its last datagram. *)
Lemma udp_loop_complete :
  forall ds fuel (r : Udp.UdpReceiver) w buffer fs tail,
    inbound w = map Packet ds ++ tail ->
    Forall (fun d => (0 < length d <= length (Udp.packet_buffer_ r))%nat) ds ->
    length buffer = to_size_t fs ->
    (Udp.accumulated_bytes_ r + length (concat (removelast ds)) < to_size_t fs
     <= Udp.accumulated_bytes_ r + length (concat ds))%nat ->
    (to_size_t fs - Udp.accumulated_bytes_ r <= fuel)%nat ->
    exists r' w',
      Udp.receive_loop fuel r w buffer fs
        = Ret (true, r', w',
               write_at buffer (Udp.accumulated_bytes_ r)
                 (firstn (to_size_t fs - Udp.accumulated_bytes_ r) (concat ds))) /\
      inbound w' = tail /\
      Udp.accumulated_bytes_ r' = to_size_t fs /\
      Udp.bound_ r' = Udp.bound_ r /\
      Udp.config_ r' = Udp.config_ r /\
      Udp.total_frames_received_ r' = Udp.total_frames_received_ r /\
      wrap64 (Udp.total_bytes_received_ r')
        = wrap64 (Udp.total_bytes_received_ r + Z.of_nat (length (concat ds))).
Proof.
  induction ds as [|d ds IH];
    intros fuel r w buffer fs tail Hin Hall Hlen Hcov Hfuel.
  - simpl in Hcov. lia.
  - inversion Hall as [|d0 ds0 Hd Hall']; subst d0 ds0.
    assert (Ha : (Udp.accumulated_bytes_ r < to_size_t fs)%nat).
    { destruct Hcov as [Hc _]. lia. }
    destruct fuel as [|fuel]; [lia|].
    cbn [Udp.receive_loop].
    replace (Udp.accumulated_bytes_ r <? to_size_t fs)%nat with true
      by (symmetry; apply Nat.ltb_lt; exact Ha).
    unfold recvfrom. rewrite Hin. cbn [map app].
    cbn zeta. cbn [Udp.set_packet Udp.packet_buffer_ Udp.accumulated_bytes_
                    Udp.socket_].
    rewrite (firstn_all2 (n := length (Udp.packet_buffer_ r)) d) by lia.
    replace (Z.of_nat (length d) <=? 0) with false
      by (symmetry; apply Z.leb_gt; lia).
    rewrite Nat2Z.id.
    rewrite memcpy_ok.
    2:{ lia. }
    2:{ rewrite length_write_at by (simpl; lia). lia. }
    cbn [bind]. rewrite firstn_write_at_0 by lia.
    destruct ds as [|d' ds'].
    + (* the last datagram: it may overrun the frame *)
      simpl in Hcov. rewrite app_nil_r in Hcov.
      rewrite Nat.min_l by lia.
      rewrite udp_loop_done by (simpl; lia).
      eexists _, _. split.
      { cbn [concat]. rewrite app_nil_r. reflexivity. }
      simpl. rewrite app_nil_r.
      repeat split; try reflexivity; try lia.
      unfold wrap64. apply Z.mod_mod. lia.
    + (* a datagram inside the frame: copied whole *)
      assert (Hrl : removelast (d :: d' :: ds') = d :: removelast (d' :: ds'))
        by reflexivity.
      rewrite Hrl in Hcov. cbn [concat] in Hcov.
      rewrite !length_app in Hcov.
      rewrite Nat.min_r by lia. rewrite firstn_all.
      match goal with
      | |- context [Udp.receive_loop fuel ?r1 ?w1 ?b1 fs] =>
          destruct (IH fuel r1 w1 b1 fs tail)
            as (r' & w' & Hrun & Hi & Hacc & Hb & Hc & Hf & Hby)
      end.
      * reflexivity.
      * cbn [Udp.add_bytes Udp.set_accumulated Udp.set_packet
               Udp.packet_buffer_].
        rewrite length_write_at by (simpl; lia). exact Hall'.
      * rewrite length_write_at by lia. exact Hlen.
      * cbn [Udp.add_bytes Udp.set_accumulated Udp.accumulated_bytes_].
        cbn [concat]. rewrite length_app. lia.
      * cbn [Udp.add_bytes Udp.set_accumulated Udp.accumulated_bytes_].
        lia.
      * cbn [Udp.add_bytes Udp.set_accumulated Udp.set_packet
               Udp.accumulated_bytes_ Udp.bound_ Udp.config_
               Udp.total_frames_received_ Udp.total_bytes_received_]
          in Hrun, Hacc, Hb, Hc, Hf, Hby.
        exists r', w'. split.
        { rewrite Hrun. do 2 f_equal.
          rewrite write_at_app by lia. f_equal.
          change (concat (d :: d' :: ds')) with (d ++ concat (d' :: ds')).
          rewrite (firstn_app (to_size_t fs - Udp.accumulated_bytes_ r) d).
          rewrite (firstn_all2
                     (n := (to_size_t fs - Udp.accumulated_bytes_ r)%nat) d)
            by lia.
          do 2 f_equal. lia. }
        repeat split; try assumption.
        rewrite Hby, wrap64_add_l. f_equal.
        cbn [concat]. rewrite !length_app. lia.
Qed.

(** C3. On a bound receiver, let the next datagrams be a run (each of
    them non-empty and no longer than the packet buffer) that reaches the
    frame size with its last datagram and not before.  Then [receiveFrame]
    starts from offset zero, consumes exactly this run and returns
    success; the output buffer is the concatenation of the run cut to the
    frame size, so what the last datagram carries beyond the frame is
    dropped and the input that follows the run is untouched; the
    accumulation offset ends at the frame size, the frame counter has
    gone up by one and the byte counter by the full length of the run,
    dropped bytes included (counters modulo [2^64]). *)
Theorem C3_udp_reassembly :
  forall (r : Udp.UdpReceiver) (w : World) (buffer : list byte)
         (datagrams : list (list byte)) (tail : list net_event),
    Udp.bound_ r = true ->
    0 <= frame_size (Udp.config_ r) <= INT_MAX ->
    inbound w = map Packet datagrams ++ tail ->
    Forall (fun d => (0 < length d <= length (Udp.packet_buffer_ r))%nat)
           datagrams ->
    completes (Z.to_nat (frame_size (Udp.config_ r))) datagrams ->
    exists r' w',
      Udp.receiveFrame r w buffer
        = Ret (true, r', w',
               firstn (Z.to_nat (frame_size (Udp.config_ r)))
                      (concat datagrams)) /\
      inbound w' = tail /\
      Udp.accumulated_bytes_ r' = Z.to_nat (frame_size (Udp.config_ r)) /\
      Udp.bound_ r' = true /\
      Udp.total_frames_received_ r'
        = wrap64 (Udp.total_frames_received_ r + 1) /\
      wrap64 (Udp.total_bytes_received_ r')
        = wrap64 (Udp.total_bytes_received_ r
                  + Z.of_nat (length (concat datagrams))).
Proof.
  intros r w buffer ds tail Hb Hfs Hin Hall Hcov.
  unfold Udp.receiveFrame, Udp.getFrameSize. rewrite Hb. simpl negb.
  cbv iota.
  destruct (resize_small buffer (to_size_t (frame_size (Udp.config_ r))))
    as (b0 & -> & Hb0).
  { rewrite to_size_t_small by exact Hfs. lia. }
  simpl bind.
  destruct (udp_loop_complete ds
              (to_size_t (frame_size (Udp.config_ r)))
              (Udp.set_accumulated r 0) w b0
              (frame_size (Udp.config_ r)) tail)
    as (r' & w' & Hrun & Hi & Hacc & Hbd & Hc & Hf & Hby).
  - exact Hin.
  - exact Hall.
  - exact Hb0.
  - simpl. rewrite to_size_t_small by exact Hfs. exact Hcov.
  - simpl. lia.
  - cbn [Udp.set_accumulated Udp.accumulated_bytes_ Udp.bound_
          Udp.total_frames_received_ Udp.total_bytes_received_]
      in Hrun, Hacc, Hbd, Hf, Hby.
    rewrite Hrun. simpl bind.
    rewrite to_size_t_small in * by exact Hfs.
    rewrite Nat.sub_0_r.
    rewrite write_at_whole.
    2:{ rewrite length_firstn, Hb0. destruct Hcov as [_ Hc2]. lia. }
    eexists _, _. split; [reflexivity|]. simpl.
    repeat split; try assumption.
    + now rewrite Hbd.
    + now rewrite Hf.
Qed.

Lemma C3_witness :
  let r := bound_udp (sample_config 8 1 false 4) 0 0 in
  let w := fresh_world [Packet [x0a]; Packet [x0b; x0c]; Packet [x0d]] in
  exists r' w',
    Udp.receiveFrame r w [] = Ret (true, r', w', [x0a; x0b]) /\
    inbound w' = [Packet [x0d]] /\
    Udp.accumulated_bytes_ r' = 2%nat /\
    Udp.bound_ r' = true /\
    Udp.total_frames_received_ r' = wrap64 (0 + 1) /\
    wrap64 (Udp.total_bytes_received_ r') = wrap64 (0 + 3).
Proof.
  apply (C3_udp_reassembly
           (bound_udp (sample_config 8 1 false 4) 0 0)
           (fresh_world [Packet [x0a]; Packet [x0b; x0c]; Packet [x0d]]) []
           [[x0a]; [x0b; x0c]] [Packet [x0d]]).
  - reflexivity.
  - vm_compute. split; discriminate.
  - reflexivity.
  - repeat constructor; simpl; lia.
  - unfold completes. simpl. lia.
Defined.

(** C9. On a bound receiver [receiveFrame] returns for every input, so no
    copy of the accumulation loop leaves the output buffer (a copy that
    did would be a [Fault]): each copy takes at most the bytes the frame
    still needs into a buffer resized to the frame size beforehand.  The
    buffer has the length [getFrameSize()] when the call returns, and on
    success that many bytes were accumulated. *)
Theorem C9_udp_copy_in_bounds :
  forall (r : Udp.UdpReceiver) (w : World) (buffer : list byte),
    Udp.bound_ r = true ->
    0 <= frame_size (Udp.config_ r) <= INT_MAX ->
    exists ok r' w' buffer',
      Udp.receiveFrame r w buffer = Ret (ok, r', w', buffer') /\
      Z.of_nat (length buffer') = Udp.getFrameSize r' /\
      (ok = true -> Z.of_nat (Udp.accumulated_bytes_ r') = Udp.getFrameSize r').
Proof.
  intros r w buffer Hb Hfs.
  unfold Udp.receiveFrame, Udp.getFrameSize. rewrite Hb. simpl negb.
  cbv iota.
  destruct (resize_small buffer (to_size_t (frame_size (Udp.config_ r))))
    as (b0 & -> & Hb0).
  { rewrite to_size_t_small by exact Hfs. lia. }
  simpl bind.
  destruct (udp_loop_safe (to_size_t (frame_size (Udp.config_ r)))
              (Udp.set_accumulated r 0) w b0 (frame_size (Udp.config_ r)))
    as (ok & r' & w' & b' & Hrun & Hl & Hc & Ha).
  - exact Hb0.
  - simpl. lia.
  - simpl. lia.
  - rewrite Hrun. simpl bind. simpl in Hc.
    rewrite to_size_t_small in * by exact Hfs.
    destruct ok; simpl.
    + eexists _, _, _, _. split; [reflexivity|]. simpl.
      rewrite Hc, Hl. split; [lia|]. intros _. rewrite Ha by reflexivity. lia.
    + eexists _, _, _, _. split; [reflexivity|].
      rewrite Hc, Hl. split; [lia | discriminate].
Qed.

Lemma C9_witness :
  let r := bound_udp (sample_config 8 1 false 4) 0 0 in
  let w := fresh_world [Packet [x0a]; Packet [x0b; x0c; x0d; x0e]] in
  exists ok r' w' buffer',
    Udp.receiveFrame r w [x01; x02; x03] = Ret (ok, r', w', buffer') /\
    Z.of_nat (length buffer') = Udp.getFrameSize r' /\
    (ok = true -> Z.of_nat (Udp.accumulated_bytes_ r') = Udp.getFrameSize r').
Proof.
  apply (C9_udp_copy_in_bounds
           (bound_udp (sample_config 8 1 false 4) 0 0)
           (fresh_world [Packet [x0a]; Packet [x0b; x0c; x0d; x0e]])
           [x01; x02; x03]).
  - reflexivity.
  - vm_compute. split; discriminate.
Defined.

(** ** The bit unpacker *)

Section Geometry.

Variable cfg : Config.
Hypothesis width_pos : 0 < width cfg.
Hypothesis height_pos : 0 < height cfg.

Lemma scan_in_grid (i : Z) :
  0 <= i < width cfg * height cfg -> Unpacker.in_grid cfg (scan cfg i).
Proof.
  intro Hi. unfold Unpacker.in_grid, scan.
  destruct (row_major cfg); simpl.
  - split; [apply Z.mod_pos_bound; lia|].
    split; [apply Z.div_pos; lia | apply Z.div_lt_upper_bound; lia].
  - split; [|apply Z.mod_pos_bound; lia].
    split; [apply Z.div_pos; lia | apply Z.div_lt_upper_bound; lia].
Qed.

Lemma index_scan (i : Z) : Unpacker.pixel_index cfg (scan cfg i) = i.
Proof.
  unfold Unpacker.pixel_index, scan. destruct (row_major cfg); simpl.
  - pose proof (Z.div_mod i (width cfg)). lia.
  - pose proof (Z.div_mod i (height cfg)). lia.
Qed.

Lemma scan_index (c : Z * Z) :
  Unpacker.in_grid cfg c -> scan cfg (Unpacker.pixel_index cfg c) = c.
Proof.
  destruct c as [cx cy]. unfold Unpacker.in_grid, Unpacker.pixel_index, scan.
  simpl. intros [Hx Hy]. destruct (row_major cfg).
  - rewrite Z.add_comm, Z.mod_add, Z.div_add by lia.
    rewrite Z.mod_small, Z.div_small by lia. reflexivity.
  - rewrite Z.add_comm, Z.mod_add, Z.div_add by lia.
    rewrite Z.mod_small, Z.div_small by lia. reflexivity.
Qed.

Lemma index_range (c : Z * Z) :
  Unpacker.in_grid cfg c ->
  0 <= Unpacker.pixel_index cfg c < width cfg * height cfg.
Proof.
  destruct c as [cx cy]. unfold Unpacker.in_grid, Unpacker.pixel_index.
  simpl. intros [Hx Hy]. destruct (row_major cfg); nia.
Qed.

(** Base coordinate plus offset, with the wrap, is the pixel at that
    position of the scan order. *)
Lemma base_plus_offset (first off : Z) :
  scan cfg (first + off)
  = if row_major cfg
    then ((first mod width cfg + off) mod width cfg,
          first / width cfg + (first mod width cfg + off) / width cfg)
    else (first / height cfg + (first mod height cfg + off) / height cfg,
          (first mod height cfg + off) mod height cfg).
Proof.
  unfold scan. destruct (row_major cfg).
  - f_equal.
    + now rewrite Z.add_mod_idemp_l by lia.
    + rewrite <- Z.div_add_l by lia. f_equal.
      pose proof (Z.div_mod first (width cfg)). lia.
  - f_equal.
    + rewrite <- Z.div_add_l by lia. f_equal.
      pose proof (Z.div_mod first (height cfg)). lia.
    + now rewrite Z.add_mod_idemp_l by lia.
Qed.

End Geometry.

(** *** Bytes and the bit table *)

Lemma testbit_of_bits (b0 b1 b2 b3 b4 b5 b6 b7 : bool) (k : nat) :
  (k < 8)%nat ->
  Nat.testbit
    (Byte.to_nat (Byte.of_bits (b0, (b1, (b2, (b3, (b4, (b5, (b6, b7)))))))))
    k
  = nth k [b0; b1; b2; b3; b4; b5; b6; b7] false.
Proof.
  intro H.
  destruct b0, b1, b2, b3, b4, b5, b6, b7;
    do 8 (destruct k as [|k]; [reflexivity|]); lia.
Qed.

Lemma pack_byte_testbit (cfg : Config) (pixels : list (Z * Z)) (j off : nat) :
  (off < 8)%nat ->
  Nat.testbit (Byte.to_nat (Unpacker.pack_byte cfg pixels j))
              (if msb_first cfg then 7 - off else off)
  = Unpacker.lit cfg pixels (8 * Z.of_nat j + Z.of_nat off).
Proof.
  intro H. unfold Unpacker.pack_byte.
  rewrite testbit_of_bits by (destruct (msb_first cfg); lia).
  destruct (msb_first cfg);
    do 8 (destruct off as [|off]; [reflexivity|]); lia.
Qed.

Lemma offsets_of_pack_byte (cfg : Config) (pixels : list (Z * Z)) (j : nat) :
  Unpacker.set_bit_offsets (msb_first cfg)
    (Byte.to_nat (Unpacker.pack_byte cfg pixels j))
  = filter (fun off : nat =>
              Unpacker.lit cfg pixels (8 * Z.of_nat j + Z.of_nat off))
           (seq 0 8).
Proof.
  unfold Unpacker.set_bit_offsets, Unpacker.MAX_BITS_PER_BYTE.
  apply filter_ext_in. intros off Hin. apply in_seq in Hin.
  apply pack_byte_testbit. lia.
Qed.

Lemma nth_map_seq {A : Type} (f : nat -> A) (n k : nat) (d : A) :
  (k < n)%nat -> nth k (map f (seq 0 n)) d = f k.
Proof.
  intro H. rewrite (nth_indep _ d (f 0%nat)) by (now rewrite length_map, length_seq).
  rewrite map_nth, seq_nth by exact H. reflexivity.
Qed.

Lemma bit_positions_make (cfg : Config) (b : byte) :
  nth (Byte.to_nat b) (Unpacker.bit_positions_ (Unpacker.make cfg)) []
  = Unpacker.set_bit_offsets (msb_first cfg) (Byte.to_nat b).
Proof.
  unfold Unpacker.make. cbn [Unpacker.bit_positions_].
  apply nth_map_seq. pose proof (Byte.to_nat_bounded b). lia.
Qed.

Lemma bit_counts_make (cfg : Config) (b : byte) :
  nth (Byte.to_nat b) (Unpacker.bit_counts_ (Unpacker.make cfg)) 0%nat
  = length (Unpacker.set_bit_offsets (msb_first cfg) (Byte.to_nat b)).
Proof.
  unfold Unpacker.make. cbn [Unpacker.bit_counts_].
  rewrite map_map.
  apply (nth_map_seq
           (fun v => length (Unpacker.set_bit_offsets (msb_first cfg) v))).
  pose proof (Byte.to_nat_bounded b). lia.
Qed.

(** *** From the tables to the scan order *)

Lemma channel_bytes_exact (cfg : Config) :
  0 < width cfg -> 0 < height cfg ->
  (width cfg * height cfg) mod 8 = 0 ->
  8 * Z.of_nat (channel_bytes cfg) = width cfg * height cfg.
Proof.
  intros Hw Hh Hm. unfold channel_bytes, bytes_per_channel, pixels_per_channel.
  rewrite Z.quot_div_nonneg by nia.
  rewrite Z2Nat.id by (apply Z.div_pos; nia).
  symmetry. apply Z.div_exact; [lia | exact Hm].
Qed.

Lemma pixel_of_make (cfg : Config) (j off : nat) :
  0 < width cfg -> 0 < height cfg ->
  (j < channel_bytes cfg)%nat ->
  Unpacker.pixel_of (Unpacker.make cfg) j off
  = scan cfg (8 * Z.of_nat j + Z.of_nat off).
Proof.
  intros Hw Hh Hj. unfold Unpacker.pixel_of, Unpacker.make.
  cbn [Unpacker.byte_to_base_x_ Unpacker.byte_to_base_y_ Unpacker.config_].
  rewrite !map_map. fold (channel_bytes cfg).
  rewrite !nth_map_seq by exact Hj.
  rewrite (base_plus_offset cfg Hw Hh).
  unfold Unpacker.base_coordinate. destruct (row_major cfg); reflexivity.
Qed.

Lemma unpackByte_pack (cfg : Config) (pixels : list (Z * Z)) ts pol (j : nat) :
  0 < width cfg -> 0 < height cfg ->
  (j < channel_bytes cfg)%nat ->
  Unpacker.unpackByte (Unpacker.make cfg) ts pol j
    (Unpacker.pack_byte cfg pixels j)
  = map (fun off : nat =>
           event_at ts pol (scan cfg (8 * Z.of_nat j + Z.of_nat off)))
        (filter (fun off : nat =>
                   Unpacker.lit cfg pixels (8 * Z.of_nat j + Z.of_nat off))
                (seq 0 8)).
Proof.
  intros Hw Hh Hj. unfold Unpacker.unpackByte.
  rewrite bit_counts_make, bit_positions_make, firstn_all.
  rewrite offsets_of_pack_byte.
  apply map_ext. intro off. rewrite pixel_of_make by assumption.
  destruct (scan cfg (8 * Z.of_nat j + Z.of_nat off)); reflexivity.
Qed.

Lemma flat_map_map {A B C : Type} (f : B -> C) (g : A -> list B) (l : list A) :
  flat_map (fun a => map f (g a)) l = map f (flat_map g l).
Proof.
  induction l as [|a l IH]; simpl; [reflexivity|].
  now rewrite map_app, IH.
Qed.

Lemma unpackChannelFrom_pack (cfg : Config) (pixels : list (Z * Z)) ts pol :
  0 < width cfg -> 0 < height cfg ->
  forall n first,
    (first + n <= channel_bytes cfg)%nat ->
    Unpacker.unpackChannelFrom (Unpacker.make cfg) ts pol first
      (map (Unpacker.pack_byte cfg pixels) (seq first n))
    = flat_map
        (fun j : nat =>
           map (fun off : nat =>
                  event_at ts pol (scan cfg (8 * Z.of_nat j + Z.of_nat off)))
               (filter (fun off : nat =>
                          Unpacker.lit cfg pixels
                            (8 * Z.of_nat j + Z.of_nat off))
                       (seq 0 8)))
        (seq first n).
Proof.
  intros Hw Hh. induction n as [|n IH]; intros first Hb; simpl.
  - reflexivity.
  - rewrite unpackByte_pack by (assumption || lia).
    rewrite IH by lia. reflexivity.
Qed.

Lemma unpackChannel_pack (cfg : Config) (pixels : list (Z * Z)) ts pol :
  0 < width cfg -> 0 < height cfg ->
  Unpacker.unpackChannelFrom (Unpacker.make cfg) ts pol 0
    (Unpacker.pack_channel cfg pixels)
  = map (event_at ts pol) (lit_pixels cfg pixels).
Proof.
  intros Hw Hh. unfold Unpacker.pack_channel. fold (channel_bytes cfg).
  rewrite unpackChannelFrom_pack by (assumption || lia).
  unfold lit_pixels.
  rewrite <- (flat_map_map (event_at ts pol)).
  apply flat_map_ext. intro j. now rewrite map_map.
Qed.

(** *** The pixels of a packed channel *)

Lemma lit_spec (cfg : Config) (pixels : list (Z * Z)) (i : Z) :
  Unpacker.lit cfg pixels i = true
  <-> exists c, In c pixels /\ Unpacker.pixel_index cfg c = i.
Proof.
  unfold Unpacker.lit. rewrite existsb_exists.
  split; intros (c & Hin & Hc); exists c; split; try assumption;
    now apply Z.eqb_eq.
Qed.

Lemma NoDup_flat_map {A B : Type} (f : A -> list B) (l : list A) :
  NoDup l ->
  (forall a, In a l -> NoDup (f a)) ->
  (forall a a' b, In a l -> In a' l -> In b (f a) -> In b (f a') -> a = a') ->
  NoDup (flat_map f l).
Proof.
  induction l as [|a l IH]; intros Hl Hf Hd; simpl; [constructor|].
  inversion Hl as [|a0 l0 Hnotin Hl']; subst.
  apply NoDup_app.
  - apply Hf. now left.
  - apply IH; [exact Hl' | |].
    + intros a' Ha'. apply Hf. now right.
    + intros a1 a2 b H1 H2. apply Hd; now right.
  - intros b Hb Hb'. apply in_flat_map in Hb' as (a' & Ha' & Hb').
    assert (a = a') by (apply (Hd a a' b); auto using in_eq, in_cons).
    subst a'. contradiction.
Qed.

Section Channel.

Variable cfg : Config.
Hypothesis width_pos : 0 < width cfg.
Hypothesis height_pos : 0 < height cfg.
Hypothesis whole_bytes : (width cfg * height cfg) mod 8 = 0.

Lemma slot_range (j off : nat) :
  (j < channel_bytes cfg)%nat -> (off < 8)%nat ->
  0 <= 8 * Z.of_nat j + Z.of_nat off < width cfg * height cfg.
Proof.
  intros Hj Ho.
  pose proof (channel_bytes_exact cfg width_pos height_pos whole_bytes). lia.
Qed.

Lemma scan_slot_inj (j off j' off' : nat) :
  (off < 8)%nat -> (off' < 8)%nat ->
  scan cfg (8 * Z.of_nat j + Z.of_nat off)
    = scan cfg (8 * Z.of_nat j' + Z.of_nat off') ->
  j = j' /\ off = off'.
Proof.
  intros Ho Ho' H. apply (f_equal (Unpacker.pixel_index cfg)) in H.
  rewrite !index_scan in H by assumption. lia.
Qed.

Lemma In_lit_pixels (pixels : list (Z * Z)) (c : Z * Z) :
  Forall (Unpacker.in_grid cfg) pixels ->
  In c (lit_pixels cfg pixels) <-> In c pixels.
Proof.
  intro Hgrid. unfold lit_pixels. rewrite in_flat_map. split.
  - intros (j & Hj & Hc). apply in_map_iff in Hc as (off & Hc & Hoff).
    apply filter_In in Hoff as (_ & Hlit).
    apply lit_spec in Hlit as (c' & Hin & Hidx).
    assert (Hg : Unpacker.in_grid cfg c').
    { rewrite Forall_forall in Hgrid. now apply Hgrid. }
    rewrite <- Hidx in Hc. rewrite scan_index in Hc by assumption.
    now subst c'.
  - intro Hin.
    assert (Hg : Unpacker.in_grid cfg c).
    { rewrite Forall_forall in Hgrid. now apply Hgrid. }
    pose proof (index_range cfg width_pos height_pos c Hg) as Hr.
    pose proof (channel_bytes_exact cfg width_pos height_pos whole_bytes) as Hb.
    set (i := Unpacker.pixel_index cfg c) in *.
    exists (Z.to_nat (i / 8)). split.
    + apply in_seq.
      assert (i / 8 < Z.of_nat (channel_bytes cfg))
        by (apply Z.div_lt_upper_bound; lia).
      assert (0 <= i / 8) by (apply Z.div_pos; lia). lia.
    + apply in_map_iff. exists (Z.to_nat (i mod 8)).
      assert (Hs : 8 * Z.of_nat (Z.to_nat (i / 8)) + Z.of_nat (Z.to_nat (i mod 8))
                   = i).
      { pose proof (Z.div_mod i 8). pose proof (Z.mod_pos_bound i 8).
        assert (0 <= i / 8) by (apply Z.div_pos; lia). lia. }
      rewrite Hs. split.
      * subst i. now apply scan_index.
      * apply filter_In. split.
        -- apply in_seq. pose proof (Z.mod_pos_bound i 8). lia.
        -- rewrite Hs. apply lit_spec. exists c. now split.
Qed.

Lemma NoDup_lit_pixels (pixels : list (Z * Z)) : NoDup (lit_pixels cfg pixels).
Proof.
  unfold lit_pixels. apply NoDup_flat_map.
  - apply seq_NoDup.
  - intros j Hj. apply NoDup_map_NoDup_ForallPairs.
    + intros off off' Ho Ho' Heq.
      apply filter_In in Ho as (Ho & _). apply filter_In in Ho' as (Ho' & _).
      apply in_seq in Ho, Ho'.
      apply scan_slot_inj in Heq; [tauto | lia | lia].
    + apply NoDup_filter, seq_NoDup.
  - intros j j' c Hj Hj' Hc Hc'.
    apply in_map_iff in Hc as (off & Hc & Ho).
    apply in_map_iff in Hc' as (off' & Hc' & Ho').
    apply filter_In in Ho as (Ho & _). apply filter_In in Ho' as (Ho' & _).
    apply in_seq in Ho, Ho'.
    rewrite <- Hc' in Hc.
    apply scan_slot_inj in Hc; [tauto | lia | lia].
Qed.

End Channel.

Lemma pixels_of_events (ts : Z) (pol pol' : bool) (l : list (Z * Z)) :
  Unpacker.pixels_of (map (event_at ts pol) l) pol'
  = if Bool.eqb pol pol' then l else [].
Proof.
  unfold Unpacker.pixels_of.
  induction l as [|[cx cy] l IH]; simpl.
  - now destruct (Bool.eqb pol pol').
  - destruct (Bool.eqb pol pol'); simpl; [now rewrite IH | exact IH].
Qed.

Lemma pixels_of_app (e1 e2 : list Unpacker.Event) (pol : bool) :
  Unpacker.pixels_of (e1 ++ e2) pol
  = Unpacker.pixels_of e1 pol ++ Unpacker.pixels_of e2 pol.
Proof.
  unfold Unpacker.pixels_of. now rewrite filter_app, map_app.
Qed.

Lemma length_pack_channel (cfg : Config) (pixels : list (Z * Z)) :
  length (Unpacker.pack_channel cfg pixels) = channel_bytes cfg.
Proof.
  unfold Unpacker.pack_channel. now rewrite length_map, length_seq.
Qed.

(** The events of a packed frame: the lit pixels of the first channel,
    then those of the second. *)
Lemma unpack_pack (cfg : Config) (pos neg : list (Z * Z)) (frame_number : Z) :
  0 < width cfg -> 0 < height cfg ->
  snd (Unpacker.unpack (Unpacker.make cfg) (Unpacker.pack cfg pos neg)
         frame_number)
  = let ts := frame_number * frame_interval_us cfg in
    if positive_first cfg
    then map (event_at ts true) (lit_pixels cfg pos)
         ++ map (event_at ts false) (lit_pixels cfg neg)
    else map (event_at ts false) (lit_pixels cfg neg)
         ++ map (event_at ts true) (lit_pixels cfg pos).
Proof.
  intros Hw Hh. unfold Unpacker.unpack.
  change (Unpacker.config_ (Unpacker.make cfg)) with cfg.
  assert (Hb : 0 <= bytes_per_channel cfg).
  { unfold bytes_per_channel, pixels_per_channel.
    rewrite Z.quot_div_nonneg by nia. apply Z.div_pos; nia. }
  assert (Hlen : forall a b,
             length (Unpacker.pack_channel cfg a ++ Unpacker.pack_channel cfg b)
             = (channel_bytes cfg + channel_bytes cfg)%nat)
    by (intros; now rewrite length_app, !length_pack_channel).
  assert (Hfirst : forall a b,
             firstn (channel_bytes cfg)
               (Unpacker.pack_channel cfg a ++ Unpacker.pack_channel cfg b)
             = Unpacker.pack_channel cfg a).
  { intros a b. rewrite <- (length_pack_channel cfg a) at 1.
    rewrite firstn_app, firstn_all, Nat.sub_diag, firstn_O. apply app_nil_r. }
  assert (Hsecond : forall a b,
             firstn (channel_bytes cfg)
               (skipn (channel_bytes cfg)
                  (Unpacker.pack_channel cfg a ++ Unpacker.pack_channel cfg b))
             = Unpacker.pack_channel cfg b).
  { intros a b. rewrite <- (length_pack_channel cfg a) at 2.
    rewrite skipn_app, skipn_all, Nat.sub_diag. simpl.
    rewrite <- (length_pack_channel cfg b) at 1. apply firstn_all. }
  replace (Z.of_nat (length (Unpacker.pack cfg pos neg)) <? frame_size cfg)
    with false.
  2:{ symmetry. apply Z.ltb_ge. unfold Unpacker.pack, frame_size.
      destruct (positive_first cfg); rewrite Hlen; unfold channel_bytes; lia. }
  cbn [snd]. unfold Unpacker.unpackChannelFast.
  change (Unpacker.config_ (Unpacker.make cfg)) with cfg.
  fold (channel_bytes cfg). unfold Unpacker.pack.
  destruct (positive_first cfg); rewrite Hfirst, Hsecond;
    rewrite !unpackChannel_pack by assumption; reflexivity.
Qed.

(** Without pixels there is no byte to decode. *)
Lemma unpack_pack_empty (cfg : Config) (pos neg : list (Z * Z)) (fn : Z) :
  width cfg = 0 \/ height cfg = 0 ->
  channel_bytes cfg = 0%nat /\
  snd (Unpacker.unpack (Unpacker.make cfg) (Unpacker.pack cfg pos neg) fn) = [].
Proof.
  intro H0.
  assert (Hz : bytes_per_channel cfg = 0).
  { unfold bytes_per_channel, pixels_per_channel.
    replace (width cfg * height cfg) with 0 by (destruct H0; nia).
    reflexivity. }
  assert (Hc : channel_bytes cfg = 0%nat)
    by (unfold channel_bytes; now rewrite Hz).
  split; [exact Hc|].
  unfold Unpacker.unpack, Unpacker.pack, Unpacker.pack_channel,
    Unpacker.unpackChannelFast, frame_size.
  change (Unpacker.config_ (Unpacker.make cfg)) with cfg.
  rewrite Hz. simpl. now destruct (positive_first cfg).
Qed.

(** C5. For a geometry whose channel is a whole number of bytes and every
    combination of [msb_first], [positive_first] and [row_major]:
    the decoder maps the pairs (byte index of a channel, offset of a bit
    in the byte; the bit itself is [7 - offset] or [offset]) one-to-one
    onto the pixel grid: every pair gives a pixel of the grid and every
    pixel of the grid comes from exactly one pair; and unpacking the
    frame packed from two sets of grid pixels gives back, per polarity,
    exactly the pixels of the set, each once. *)
Theorem C5_unpack_roundtrip_bijection :
  forall (cfg : Config) (pos neg : list (Z * Z)) (frame_number : Z),
    0 <= width cfg -> 0 <= height cfg ->
    (width cfg * height cfg) mod 8 = 0 ->
    Forall (Unpacker.in_grid cfg) pos ->
    Forall (Unpacker.in_grid cfg) neg ->
    let u := Unpacker.make cfg in
    let events :=
      snd (Unpacker.unpack u (Unpacker.pack cfg pos neg) frame_number) in
    (forall j off,
        (j < channel_bytes cfg)%nat -> (off < 8)%nat ->
        Unpacker.in_grid cfg (Unpacker.pixel_of u j off)) /\
    (forall c,
        Unpacker.in_grid cfg c ->
        exists j off,
          (j < channel_bytes cfg)%nat /\ (off < 8)%nat /\
          Unpacker.pixel_of u j off = c /\
          forall j' off',
            (j' < channel_bytes cfg)%nat -> (off' < 8)%nat ->
            Unpacker.pixel_of u j' off' = c -> j' = j /\ off' = off) /\
    NoDup (Unpacker.pixels_of events true) /\
    (forall c, In c (Unpacker.pixels_of events true) <-> In c pos) /\
    NoDup (Unpacker.pixels_of events false) /\
    (forall c, In c (Unpacker.pixels_of events false) <-> In c neg).
Proof.
  intros cfg pos neg fn Hw Hh Hm Hpos Hneg u events.
  assert (Hcase : (width cfg = 0 \/ height cfg = 0)
                  \/ (0 < width cfg /\ 0 < height cfg)) by lia.
  destruct Hcase as [H0 | [Hwp Hhp]].
  - (* no pixel at all *)
    destruct (unpack_pack_empty cfg pos neg fn H0) as [Hc He].
    assert (Hnone : forall c, ~ Unpacker.in_grid cfg c).
    { intros c [Hx Hy]. lia. }
    assert (Hnil : forall l, Forall (Unpacker.in_grid cfg) l -> l = []).
    { intros [|c l] Hl; [reflexivity|].
      inversion Hl as [|c0 l0 Hc0 _]. now apply Hnone in Hc0. }
    subst events u. rewrite He, (Hnil pos Hpos), (Hnil neg Hneg), Hc.
    split; [intros; lia|].
    split; [intros c Hg; now apply Hnone in Hg|].
    simpl. repeat split; try constructor; auto.
  - pose proof (channel_bytes_exact cfg Hwp Hhp Hm) as Hb.
    split; [|split].
    + intros j off Hj Ho. subst u. rewrite pixel_of_make by assumption.
      apply scan_in_grid; try assumption.
      now apply slot_range.
    + intros c Hg.
      pose proof (index_range cfg Hwp Hhp c Hg) as Hr.
      set (i := Unpacker.pixel_index cfg c) in *.
      assert (Hq : 0 <= i / 8 < Z.of_nat (channel_bytes cfg)).
      { split; [apply Z.div_pos; lia | apply Z.div_lt_upper_bound; lia]. }
      pose proof (Z.mod_pos_bound i 8 ltac:(lia)) as Hrm.
      assert (Hs : 8 * Z.of_nat (Z.to_nat (i / 8))
                   + Z.of_nat (Z.to_nat (i mod 8)) = i).
      { pose proof (Z.div_mod i 8). lia. }
      exists (Z.to_nat (i / 8)), (Z.to_nat (i mod 8)).
      split; [lia|]. split; [lia|]. split.
      * subst u. rewrite pixel_of_make by (assumption || lia).
        rewrite Hs. subst i. now apply scan_index.
      * intros j' off' Hj' Ho' Hp. subst u.
        rewrite pixel_of_make in Hp by assumption.
        apply (f_equal (Unpacker.pixel_index cfg)) in Hp.
        rewrite index_scan in Hp by assumption. fold i in Hp. lia.
    + subst events u. rewrite unpack_pack by assumption. cbv zeta.
      destruct (positive_first cfg);
        rewrite !pixels_of_app, !pixels_of_events; simpl;
        rewrite ?app_nil_r;
        repeat split;
        try (apply NoDup_lit_pixels; assumption);
        try (apply In_lit_pixels; assumption).
Qed.

Lemma C5_witness :
  let cfg := sample_config 4 2 false 4 in
  let events :=
    snd (Unpacker.unpack (Unpacker.make cfg)
           (Unpacker.pack cfg [(3, 1); (0, 0)] [(2, 1)]) 7) in
  NoDup (Unpacker.pixels_of events true) /\
  (forall c, In c (Unpacker.pixels_of events true) <-> In c [(3, 1); (0, 0)]) /\
  NoDup (Unpacker.pixels_of events false) /\
  (forall c, In c (Unpacker.pixels_of events false) <-> In c [(2, 1)]).
Proof.
  apply (C5_unpack_roundtrip_bijection (sample_config 4 2 false 4)
           [(3, 1); (0, 0)] [(2, 1)] 7).
  - simpl; lia.
  - simpl; lia.
  - reflexivity.
  - repeat constructor; simpl; lia.
  - repeat constructor; simpl; lia.
Defined.

(** ** Worked examples *)

(** A payload sent in one write and the same payload dribbled in small
    writes give the same frame. *)
Example tcp_split_like_single :
  let r := connected_tcp (sample_config 8 2 false 4) 0 0 in
  delivered (Tcp.receiveFrame r
               (fresh_world [Packet [x01; x02; x03; x04; x05]]) [])
  = Some [x01; x02; x03; x04] /\
  delivered (Tcp.receiveFrame r
               (fresh_world [Packet [x01]; Packet []; Packet [x02; x03];
                             Packet [x04; x05]]) [])
  = Some [x01; x02; x03; x04].
Proof. split; reflexivity. Qed.

(** Header values 0 and 100000000 fall back to the configured 2 bytes,
    header value 3 overrides it. *)
Example tcp_header_values :
  let r := connected_tcp (sample_config 8 1 true 4) 0 0 in
  let payload := Packet [x0a; x0b; x0c; x0d] in
  delivered (Tcp.receiveFrame r
               (fresh_world [Packet [x00; x00; x00; x00]; payload]) [])
  = Some [x0a; x0b] /\
  le_decode [x00; xe1; xf5; x05] = 100000000 /\
  delivered (Tcp.receiveFrame r
               (fresh_world [Packet [x00; xe1; xf5; x05]; payload]) [])
  = Some [x0a; x0b] /\
  delivered (Tcp.receiveFrame r
               (fresh_world [Packet [x03; x00; x00; x00]; payload]) [])
  = Some [x0a; x0b; x0c].
Proof. repeat split; reflexivity. Qed.

(** A peer that closes in the middle of a frame: the call fails, the
    receiver is disconnected, and the next call is refused without a
    receive. *)
Example tcp_close_then_refuse :
  let r := connected_tcp (sample_config 8 1 false 4) 0 0 in
  exists r' w' b',
    Tcp.receiveFrame r (fresh_world [Packet [x0a]; PeerClose]) []
      = Ret (false, r', w', b') /\
    Tcp.connected_ r' = false /\
    Tcp.receiveFrame r' w' b' = Ret (false, r', w', b').
Proof. eexists _, _, _. repeat split; reflexivity. Qed.

(** A stale accumulation offset does not leak into the next frame, and
    a datagram that overruns the frame is cut. *)
Example udp_overrun_is_cut :
  let r := Udp.set_accumulated (bound_udp (sample_config 8 2 false 4) 0 0) 3 in
  delivered (Udp.receiveFrame r
               (fresh_world [Packet [x01; x02; x03];
                             Packet [x04; x05; x06]]) [])
  = Some [x01; x02; x03; x04].
Proof. reflexivity. Qed.

(** The eight layouts decode the frame packed for them to the same
    pixels. *)
Example unpack_all_layouts :
  forallb
    (fun flags : bool * bool * bool =>
       let '(msb, pf, rm) := flags in
       let cfg :=
         {| width := 4; height := 2; camera_ip := ""%string;
            camera_port := 5000; recv_buffer_size := 0;
            udp_packet_size := 16; has_header := false; header_size := 4;
            msb_first := msb; positive_first := pf; row_major := rm;
            frame_interval_us := 200; verbose := false |} in
       let events :=
         snd (Unpacker.unpack (Unpacker.make cfg)
                (Unpacker.pack cfg [(0, 0); (3, 1)] [(2, 1)]) 1) in
       match Unpacker.pixels_of events true, Unpacker.pixels_of events false with
       | [(0, 0); (3, 1)], [(2, 1)] => true
       | _, _ => false
       end)
    [(false, false, false); (false, false, true); (false, true, false);
     (false, true, true); (true, false, false); (true, false, true);
     (true, true, false); (true, true, true)]
  = true.
Proof. vm_compute. reflexivity. Qed.

(** * Further properties of the receivers *)

(** ** Descriptors: who opens, who closes *)

Lemma closes_log (w : World) (c : syscall) :
  (forall fd, c <> sys_close fd) -> closes (log w c) = closes w.
Proof.
  intro H. unfold closes, log; simpl. rewrite flat_map_app. simpl.
  destruct c; try apply app_nil_r. now destruct (H fd).
Qed.

Lemma closes_trace (t : list syscall) (s s' : list net_event) (c : syscall) :
  (forall fd, c <> sys_close fd) ->
  closes {| trace := t ++ [c]; inbound := s' |}
  = closes {| trace := t; inbound := s |}.
Proof.
  intro H. unfold closes; simpl. rewrite flat_map_app. simpl.
  destruct c; try apply app_nil_r. now destruct (H fd).
Qed.

Lemma tcp_disconnect_closes (r : Tcp.TcpReceiver) (w : World) :
  closes (snd (Tcp.disconnect r w))
  = closes w ++ (if Tcp.socket_ r =? INVALID_SOCK then [] else [Tcp.socket_ r]).
Proof.
  unfold Tcp.disconnect. destruct (Tcp.socket_ r =? INVALID_SOCK); simpl.
  - now rewrite app_nil_r.
  - apply closes_close.
Qed.

Lemma udp_disconnect_closes (r : Udp.UdpReceiver) (w : World) :
  closes (snd (Udp.disconnect r w))
  = closes w ++ (if Udp.socket_ r =? INVALID_SOCK then [] else [Udp.socket_ r]).
Proof.
  unfold Udp.disconnect. destruct (Udp.socket_ r =? INVALID_SOCK); simpl.
  - now rewrite app_nil_r.
  - apply closes_close.
Qed.

(** X1. A [connect()] on a TCP receiver that is not connected succeeds
    exactly when [socket()], [inet_pton()] and [::connect()] all succeed.
    On success the receiver holds the new descriptor and nothing was
    closed.  On failure the receiver is disconnected and holds no
    descriptor, its counters are as before, and the descriptor that was
    opened, if any, has been closed. *)
Theorem tcp_connect_outcome :
  forall (e : SetupEnv) (r : Tcp.TcpReceiver) (w : World),
    Tcp.connected_ r = false ->
    let ok := fst (fst (Tcp.connect e r w)) in
    let r' := snd (fst (Tcp.connect e r w)) in
    let w' := snd (Tcp.connect e r w) in
    ok = negb (env_socket e =? INVALID_SOCK)
         && (0 <? env_pton e) && (0 <=? env_attach e) /\
    Tcp.config_ r' = Tcp.config_ r /\
    (ok = true ->
       Tcp.connected_ r' = true /\
       Tcp.socket_ r' = env_socket e /\
       closes w' = closes w) /\
    (ok = false ->
       Tcp.connected_ r' = false /\
       Tcp.socket_ r' = INVALID_SOCK /\
       Tcp.total_bytes_received_ r' = Tcp.total_bytes_received_ r /\
       Tcp.total_frames_received_ r' = Tcp.total_frames_received_ r /\
       closes w'
         = closes w ++ (if env_socket e =? INVALID_SOCK then []
                        else [env_socket e])).
Proof.
  intros e r w Hc. unfold Tcp.connect. rewrite Hc.
  cbn [Tcp.set_socket Tcp.socket_].
  destruct (env_socket e =? INVALID_SOCK) eqn:Es; cbn [negb andb fst snd].
  - apply Z.eqb_eq in Es.
    repeat split; try discriminate; try assumption.
    rewrite app_nil_r. apply closes_log. discriminate.
  - replace (0 <? env_pton e) with (negb (env_pton e <=? 0))
      by (destruct (Z.leb_spec (env_pton e) 0);
          destruct (Z.ltb_spec 0 (env_pton e)); try reflexivity; lia).
    replace (0 <=? env_attach e) with (negb (env_attach e <? 0))
      by (destruct (Z.ltb_spec (env_attach e) 0);
          destruct (Z.leb_spec 0 (env_attach e)); try reflexivity; lia).
    destruct (env_pton e <=? 0); cbn [negb andb].
    + unfold Tcp.disconnect. cbn [Tcp.set_socket Tcp.socket_]. rewrite Es.
      cbn [negb fst snd Tcp.set_connected Tcp.set_socket Tcp.connected_
             Tcp.socket_ Tcp.config_ Tcp.total_bytes_received_
             Tcp.total_frames_received_].
      repeat split; try discriminate.
      rewrite closes_close. f_equal.
      rewrite !closes_log by discriminate. reflexivity.
    + destruct (env_attach e <? 0); cbn [negb].
      * unfold Tcp.disconnect. cbn [Tcp.set_socket Tcp.socket_]. rewrite Es.
        cbn [negb fst snd Tcp.set_connected Tcp.set_socket Tcp.connected_
               Tcp.socket_ Tcp.config_ Tcp.total_bytes_received_
               Tcp.total_frames_received_].
        repeat split; try discriminate.
        rewrite closes_close. f_equal.
        rewrite !closes_log by discriminate. reflexivity.
      * cbn [fst snd Tcp.reset_stats Tcp.set_connected Tcp.set_socket
               Tcp.connected_ Tcp.socket_ Tcp.config_].
        repeat split; try discriminate.
        rewrite !closes_log by discriminate. reflexivity.
Qed.

Lemma tcp_connect_outcome_witness :
  let e := {| env_socket := 4; env_rcvbuf := 0; env_sockopt := 0;
              env_pton := 1; env_attach := -1 |} in
  let res := Tcp.connect e (Tcp.make (sample_config 8 8 false 4))
               (fresh_world []) in
  fst (fst res) = false /\
  Tcp.socket_ (snd (fst res)) = INVALID_SOCK /\
  closes (snd res) = [4].
Proof.
  pose proof (tcp_connect_outcome
                {| env_socket := 4; env_rcvbuf := 0; env_sockopt := 0;
                   env_pton := 1; env_attach := -1 |}
                (Tcp.make (sample_config 8 8 false 4)) (fresh_world [])
                eq_refl) as (Hok & _ & _ & Hfail).
  split; [exact Hok|].
  destruct (Hfail Hok) as (_ & Hs & _ & _ & Hcl).
  split; [exact Hs | exact Hcl].
Defined.

(** X2. A [connect()] on a UDP receiver that is not bound succeeds exactly
    when [socket()] and [bind()] succeed and the configured address is the
    wildcard (empty or 0.0.0.0) or [inet_pton()] accepts it; for the
    wildcard [inet_pton()] is not called at all.  On failure the receiver
    is unbound and holds no descriptor, its counters are as before, and
    the descriptor that was opened, if any, has been closed. *)
Theorem udp_connect_outcome :
  forall (e : SetupEnv) (r : Udp.UdpReceiver) (w : World),
    Udp.bound_ r = false ->
    let wild := Udp.wildcard_ip (camera_ip (Udp.config_ r)) in
    let ok := fst (fst (Udp.connect e r w)) in
    let r' := snd (fst (Udp.connect e r w)) in
    let w' := snd (Udp.connect e r w) in
    ok = negb (env_socket e =? INVALID_SOCK)
         && (wild || (0 <? env_pton e)) && (0 <=? env_attach e) /\
    Udp.config_ r' = Udp.config_ r /\
    (wild = true ->
       forall c, In c (trace w') -> In c (trace w) \/ c <> sys_inet_pton) /\
    (ok = true ->
       Udp.bound_ r' = true /\
       Udp.socket_ r' = env_socket e /\
       closes w' = closes w) /\
    (ok = false ->
       Udp.bound_ r' = false /\
       Udp.socket_ r' = INVALID_SOCK /\
       Udp.total_bytes_received_ r' = Udp.total_bytes_received_ r /\
       Udp.total_frames_received_ r' = Udp.total_frames_received_ r /\
       closes w'
         = closes w ++ (if env_socket e =? INVALID_SOCK then []
                        else [env_socket e])).
Proof.
  intros e r w Hc. unfold Udp.connect. rewrite Hc.
  cbn [Udp.set_socket Udp.socket_ Udp.config_].
  assert (Hin : forall (t : list syscall) (cs : list syscall) c,
             In c (t ++ cs) -> ~ In sys_inet_pton cs ->
             In c t \/ c <> sys_inet_pton).
  { intros t cs c Hi Hn. apply in_app_or in Hi as [Hi|Hi]; [now left|].
    right. intro Heq. subst c. contradiction. }
  destruct (env_socket e =? INVALID_SOCK) eqn:Es; cbn [negb andb fst snd].
  - apply Z.eqb_eq in Es.
    repeat split; try discriminate; try assumption.
    + intros _ c Hi. apply (Hin _ _ _ Hi). simpl. intuition discriminate.
    + rewrite app_nil_r. apply closes_log. discriminate.
  - replace (0 <? env_pton e) with (negb (env_pton e <=? 0))
      by (destruct (Z.leb_spec (env_pton e) 0);
          destruct (Z.ltb_spec 0 (env_pton e)); try reflexivity; lia).
    replace (0 <=? env_attach e) with (negb (env_attach e <? 0))
      by (destruct (Z.ltb_spec (env_attach e) 0);
          destruct (Z.leb_spec 0 (env_attach e)); try reflexivity; lia).
    destruct (Udp.wildcard_ip (camera_ip (Udp.config_ r))) eqn:Ew;
      cbn [orb andb].
    + destruct (env_attach e <? 0); cbn [negb].
      * unfold Udp.disconnect. cbn [Udp.set_socket Udp.socket_]. rewrite Es.
        cbn [negb fst snd Udp.set_bound Udp.set_socket Udp.set_accumulated
               Udp.bound_ Udp.socket_ Udp.config_ Udp.total_bytes_received_
               Udp.total_frames_received_].
        repeat split; try discriminate.
        -- intros _ c Hi. unfold close, log in Hi. cbn [trace] in Hi.
           rewrite <- !app_assoc in Hi.
           apply (Hin _ _ _ Hi). simpl. intuition discriminate.
        -- rewrite closes_close. f_equal.
           rewrite !closes_log by discriminate. reflexivity.
      * cbn [fst snd Udp.reset_stats Udp.set_bound Udp.set_socket
               Udp.bound_ Udp.socket_ Udp.config_].
        repeat split; try discriminate.
        -- intros _ c Hi. unfold log in Hi. cbn [trace] in Hi.
           rewrite <- !app_assoc in Hi.
           apply (Hin _ _ _ Hi). simpl. intuition discriminate.
        -- rewrite !closes_log by discriminate. reflexivity.
    + destruct (env_pton e <=? 0); cbn [negb andb].
      * unfold Udp.disconnect. cbn [Udp.set_socket Udp.socket_]. rewrite Es.
        cbn [negb fst snd Udp.set_bound Udp.set_socket Udp.set_accumulated
               Udp.bound_ Udp.socket_ Udp.config_ Udp.total_bytes_received_
               Udp.total_frames_received_].
        repeat split; try discriminate.
        rewrite closes_close. f_equal.
        rewrite !closes_log by discriminate. reflexivity.
      * destruct (env_attach e <? 0); cbn [negb].
        -- unfold Udp.disconnect. cbn [Udp.set_socket Udp.socket_]. rewrite Es.
           cbn [negb fst snd Udp.set_bound Udp.set_socket Udp.set_accumulated
                  Udp.bound_ Udp.socket_ Udp.config_
                  Udp.total_bytes_received_ Udp.total_frames_received_].
           repeat split; try discriminate.
           rewrite closes_close. f_equal.
           rewrite !closes_log by discriminate. reflexivity.
        -- cbn [fst snd Udp.reset_stats Udp.set_bound Udp.set_socket
                  Udp.bound_ Udp.socket_ Udp.config_].
           repeat split; try discriminate.
           rewrite !closes_log by discriminate. reflexivity.
Qed.

Lemma udp_connect_outcome_witness :
  let e := {| env_socket := 4; env_rcvbuf := 0; env_sockopt := 0;
              env_pton := 0; env_attach := 0 |} in
  let r := bound_udp (sample_config 8 8 false 4) 0 0 in
  let res := Udp.connect e (Udp.set_bound r false) (fresh_world []) in
  fst (fst res) = true /\
  Udp.socket_ (snd (fst res)) = 4 /\
  closes (snd res) = [].
Proof.
  pose proof (udp_connect_outcome
                {| env_socket := 4; env_rcvbuf := 0; env_sockopt := 0;
                   env_pton := 0; env_attach := 0 |}
                (Udp.set_bound (bound_udp (sample_config 8 8 false 4) 0 0) false)
                (fresh_world []) eq_refl) as (Hok & _ & _ & Hgood & _).
  split; [exact Hok|].
  destruct (Hgood Hok) as (_ & Hs & Hcl).
  split; [exact Hs | exact Hcl].
Defined.

(** ** What a receive call leaves alone *)

Lemma closes_received (w : World) (c : syscall) (s : list net_event) :
  (forall fd, c <> sys_close fd) ->
  closes {| trace := trace w ++ [c]; inbound := s |} = closes w.
Proof.
  intro H. unfold closes; simpl. rewrite flat_map_app. simpl.
  destruct c; try apply app_nil_r. now destruct (H fd).
Qed.

Lemma wrap64_range (z : Z) : uint64_range (wrap64 z).
Proof. unfold uint64_range, wrap64. apply Z.mod_pos_bound. lia. Qed.

(** Close the conjuncts that are left as they were. *)
Ltac conj_split := repeat match goal with |- _ /\ _ => split end.

Ltac kept :=
  conj_split; auto; try discriminate; try congruence;
  try solve [intros; apply wrap64_range].

Lemma tcp_loop_keeps :
  forall fuel (r : Tcp.TcpReceiver) w buffer size total ok r' w' buffer',
    Tcp.receiveExact_loop fuel r w buffer size total
      = Ret (ok, r', w', buffer') ->
    Tcp.config_ r' = Tcp.config_ r /\
    Tcp.socket_ r' = Tcp.socket_ r /\
    Tcp.total_frames_received_ r' = Tcp.total_frames_received_ r /\
    (Tcp.connected_ r' = true -> Tcp.connected_ r = true) /\
    closes w' = closes w /\
    (uint64_range (Tcp.total_bytes_received_ r) ->
     uint64_range (Tcp.total_bytes_received_ r')).
Proof.
  induction fuel as [|fuel IH];
    intros r w buffer size total ok r' w' buffer' H; simpl in H;
    destruct (total <? size)%nat; try discriminate;
    try (injection H as _ <- <- _; kept).
  unfold recv in H.
  destruct (stream_recv (inbound w) (size - total)) as [[received data] rest].
  destruct (received <=? 0).
  - injection H as _ <- <- _. simpl.
    kept; try solve [apply closes_received; discriminate].
  - destruct (length buffer <? total + length data)%nat; [discriminate|].
    apply IH in H as (Hc & Hs & Hf & Hcn & Hcl & Hr).
    cbn [Tcp.add_bytes Tcp.config_ Tcp.socket_ Tcp.connected_
           Tcp.total_frames_received_ Tcp.total_bytes_received_]
      in Hc, Hs, Hf, Hcn, Hcl, Hr.
    kept;
      try solve [rewrite Hcl; apply closes_received; discriminate
                | intros _; apply Hr, wrap64_range].
Qed.

Lemma tcp_receiveFrame_keeps :
  forall (r : Tcp.TcpReceiver) w buffer ok r' w' buffer',
    Tcp.receiveFrame r w buffer = Ret (ok, r', w', buffer') ->
    Tcp.config_ r' = Tcp.config_ r /\
    Tcp.socket_ r' = Tcp.socket_ r /\
    (Tcp.connected_ r' = true -> Tcp.connected_ r = true) /\
    closes w' = closes w /\
    (uint64_range (Tcp.total_bytes_received_ r) ->
     uint64_range (Tcp.total_bytes_received_ r')) /\
    (uint64_range (Tcp.total_frames_received_ r) ->
     uint64_range (Tcp.total_frames_received_ r')).
Proof.
  assert (Hbody : forall (r : Tcp.TcpReceiver) w buffer fs ok r' w' buffer',
             Tcp.receiveBody r w buffer fs = Ret (ok, r', w', buffer') ->
             Tcp.config_ r' = Tcp.config_ r /\
             Tcp.socket_ r' = Tcp.socket_ r /\
             (Tcp.connected_ r' = true -> Tcp.connected_ r = true) /\
             closes w' = closes w /\
             (uint64_range (Tcp.total_bytes_received_ r) ->
              uint64_range (Tcp.total_bytes_received_ r')) /\
             (uint64_range (Tcp.total_frames_received_ r) ->
              uint64_range (Tcp.total_frames_received_ r'))).
  { intros r w buffer fs ok r' w' buffer' H. unfold Tcp.receiveBody in H.
    apply bind_ret_inv in H as (b1 & _ & H).
    apply bind_ret_inv in H as ([[[ok1 r1] w1] b2] & Hex & H).
    apply tcp_loop_keeps in Hex as (Hc & Hs & Hf & Hcn & Hcl & Hr).
    destruct ok1; simpl in H; injection H as _ <- <- _; simpl; kept. }
  intros r w buffer ok r' w' buffer' H. unfold Tcp.receiveFrame in H.
  destruct (Tcp.connected_ r) eqn:Hconn; simpl in H.
  2:{ injection H as _ <- <- _. kept. }
  destruct (has_header (Tcp.config_ r)).
  - apply bind_ret_inv in H as ([[[ok1 r1] w1] hdr] & Hex & H).
    apply tcp_loop_keeps in Hex as (Hc & Hs & Hf & Hcn & Hcl & Hr).
    destruct ok1; simpl in H.
    + apply Hbody in H as (Hc2 & Hs2 & Hcn2 & Hcl2 & Hr2 & Hf2).
      kept. rewrite <- Hf. exact Hf2.
    + injection H as _ <- <- _. kept.
  - apply Hbody in H as (? & ? & ? & ? & ? & ?). kept.
Qed.

Lemma udp_loop_keeps :
  forall fuel (r : Udp.UdpReceiver) w buffer fs ok r' w' buffer',
    Udp.receive_loop fuel r w buffer fs = Ret (ok, r', w', buffer') ->
    Udp.config_ r' = Udp.config_ r /\
    Udp.socket_ r' = Udp.socket_ r /\
    Udp.total_frames_received_ r' = Udp.total_frames_received_ r /\
    (Udp.bound_ r' = true -> Udp.bound_ r = true) /\
    closes w' = closes w /\
    (uint64_range (Udp.total_bytes_received_ r) ->
     uint64_range (Udp.total_bytes_received_ r')) /\
    length (Udp.packet_buffer_ r') = length (Udp.packet_buffer_ r) /\
    ((Udp.accumulated_bytes_ r <= to_size_t fs)%nat ->
     (Udp.accumulated_bytes_ r' <= to_size_t fs)%nat).
Proof.
  induction fuel as [|fuel IH];
    intros r w buffer fs ok r' w' buffer' H; simpl in H;
    destruct (Udp.accumulated_bytes_ r <? to_size_t fs)%nat;
    try discriminate;
    try (injection H as _ <- <- _; kept).
  assert (Hpkt : forall data : list byte,
             (length data <= length (Udp.packet_buffer_ r))%nat ->
             length (write_at (Udp.packet_buffer_ r) 0 data)
             = length (Udp.packet_buffer_ r))
    by (intros; apply length_write_at; simpl; lia).
  assert (Hgen : forall received data s,
      (length data <= length (Udp.packet_buffer_ r))%nat ->
      (0 < received -> received = Z.of_nat (length data)) ->
      (let r0 := Udp.set_packet r (write_at (Udp.packet_buffer_ r) 0 data) in
       let w0 := {| trace := trace w ++
                       [sys_recvfrom (Udp.socket_ r)
                          (length (Udp.packet_buffer_ r))];
                    inbound := s |} in
       if received <=? 0 then Ret (false, Udp.set_bound r0 false, w0, buffer)
       else
         buffer <- memcpy buffer (Udp.accumulated_bytes_ r0)
                     (Udp.packet_buffer_ r0)
                     (Nat.min (to_size_t fs - Udp.accumulated_bytes_ r0)
                        (Z.to_nat received)) ;;
         Udp.receive_loop fuel
           (Udp.add_bytes
              (Udp.set_accumulated r0
                 (Udp.accumulated_bytes_ r0
                  + Nat.min (to_size_t fs - Udp.accumulated_bytes_ r0)
                      (Z.to_nat received)))
              received) w0 buffer fs)
      = Ret (ok, r', w', buffer') ->
      Udp.config_ r' = Udp.config_ r /\
      Udp.socket_ r' = Udp.socket_ r /\
      Udp.total_frames_received_ r' = Udp.total_frames_received_ r /\
      (Udp.bound_ r' = true -> Udp.bound_ r = true) /\
      closes w' = closes w /\
      (uint64_range (Udp.total_bytes_received_ r) ->
       uint64_range (Udp.total_bytes_received_ r')) /\
      length (Udp.packet_buffer_ r') = length (Udp.packet_buffer_ r) /\
      ((Udp.accumulated_bytes_ r <= to_size_t fs)%nat ->
       (Udp.accumulated_bytes_ r' <= to_size_t fs)%nat)).
  { intros received data s Hd Hrecv Hrun. cbv zeta in Hrun.
    destruct (received <=? 0) eqn:E.
    - injection Hrun as _ <- <- _. simpl.
      kept; try solve [apply closes_received; discriminate | now apply Hpkt].
    - apply bind_ret_inv in Hrun as (b1 & _ & Hrun).
      apply IH in Hrun as (Hc & Hs & Hf & Hb & Hcl & Hr & Hp & Ha).
      cbn [Udp.add_bytes Udp.set_accumulated Udp.set_packet Udp.config_
             Udp.socket_ Udp.bound_ Udp.total_frames_received_
             Udp.total_bytes_received_ Udp.packet_buffer_
             Udp.accumulated_bytes_] in Hc, Hs, Hf, Hb, Hcl, Hr, Hp, Ha.
      kept;
        try solve [rewrite Hcl; apply closes_received; discriminate
                  | intros _; apply Hr, wrap64_range
                  | rewrite Hp; now apply Hpkt
                  | intro Hle; apply Ha; lia]. }
  unfold recvfrom in H.
  destruct (inbound w) as [|[bs| |] rest].
  - apply (Hgen 0 [] []); [simpl; lia | lia | exact H].
  - apply (Hgen (Z.of_nat (length (firstn (length (Udp.packet_buffer_ r)) bs)))
             (firstn (length (Udp.packet_buffer_ r)) bs) rest);
      [rewrite length_firstn; lia | reflexivity | exact H].
  - apply (Hgen 0 [] rest); [simpl; lia | lia | exact H].
  - apply (Hgen (-1) [] rest); [simpl; lia | lia | exact H].
Qed.

Lemma udp_receiveFrame_keeps :
  forall (r : Udp.UdpReceiver) w buffer ok r' w' buffer',
    Udp.receiveFrame r w buffer = Ret (ok, r', w', buffer') ->
    Udp.config_ r' = Udp.config_ r /\
    Udp.socket_ r' = Udp.socket_ r /\
    (Udp.bound_ r' = true -> Udp.bound_ r = true) /\
    closes w' = closes w /\
    (uint64_range (Udp.total_bytes_received_ r) ->
     uint64_range (Udp.total_bytes_received_ r')) /\
    (uint64_range (Udp.total_frames_received_ r) ->
     uint64_range (Udp.total_frames_received_ r')) /\
    length (Udp.packet_buffer_ r') = length (Udp.packet_buffer_ r) /\
    ((Udp.accumulated_bytes_ r <= to_size_t (frame_size (Udp.config_ r)))%nat ->
     (Udp.accumulated_bytes_ r'
      <= to_size_t (frame_size (Udp.config_ r)))%nat).
Proof.
  intros r w buffer ok r' w' buffer' H. unfold Udp.receiveFrame in H.
  destruct (Udp.bound_ r) eqn:Hb; simpl in H.
  2:{ injection H as _ <- <- _. kept. }
  apply bind_ret_inv in H as (b1 & _ & H).
  apply bind_ret_inv in H as ([[[ok1 r1] w1] b2] & Hex & H).
  apply udp_loop_keeps in Hex as (Hc & Hs & Hf & Hbd & Hcl & Hr & Hp & Ha).
  cbn [Udp.set_accumulated Udp.config_ Udp.socket_ Udp.bound_
         Udp.total_frames_received_ Udp.total_bytes_received_
         Udp.packet_buffer_ Udp.accumulated_bytes_]
    in Hc, Hs, Hf, Hbd, Hcl, Hr, Hp, Ha.
  unfold Udp.getFrameSize in Ha.
  destruct ok1; simpl in H; injection H as _ <- <- _; simpl;
    kept; try solve [intros _; apply Ha; lia].
Qed.

(** X3. [receiveFrame], whether it succeeds or fails, keeps the
    descriptor and the configuration of the receiver, closes nothing,
    and never makes a receiver connected (bound) that was not: after a
    failure the receiver is marked disconnected while its descriptor is
    still held and still open. *)
Theorem receiveFrame_keeps_descriptor :
  (forall (r : Tcp.TcpReceiver) w buffer ok r' w' buffer',
      Tcp.receiveFrame r w buffer = Ret (ok, r', w', buffer') ->
      Tcp.socket_ r' = Tcp.socket_ r /\
      Tcp.config_ r' = Tcp.config_ r /\
      closes w' = closes w /\
      (Tcp.connected_ r' = true -> Tcp.connected_ r = true)) /\
  (forall (r : Udp.UdpReceiver) w buffer ok r' w' buffer',
      Udp.receiveFrame r w buffer = Ret (ok, r', w', buffer') ->
      Udp.socket_ r' = Udp.socket_ r /\
      Udp.config_ r' = Udp.config_ r /\
      closes w' = closes w /\
      (Udp.bound_ r' = true -> Udp.bound_ r = true)).
Proof.
  split; intros r w buffer ok r' w' buffer' H.
  - apply tcp_receiveFrame_keeps in H. tauto.
  - apply udp_receiveFrame_keeps in H. tauto.
Qed.

Lemma receiveFrame_keeps_descriptor_witness :
  let r := connected_tcp (sample_config 8 1 false 4) 0 0 in
  let w := fresh_world [Packet [x0a]; PeerClose] in
  exists r' w' buffer',
    Tcp.receiveFrame r w [] = Ret (false, r', w', buffer') /\
    Tcp.socket_ r' = 3 /\
    Tcp.config_ r' = sample_config 8 1 false 4 /\
    closes w' = [] /\
    Tcp.connected_ r' = false.
Proof.
  eexists _, _, _. split; [reflexivity|].
  split; [|split; [|split]].
  - eapply (proj1 receiveFrame_keeps_descriptor
              (connected_tcp (sample_config 8 1 false 4) 0 0)
              (fresh_world [Packet [x0a]; PeerClose]) []).
    reflexivity.
  - reflexivity.
  - reflexivity.
  - reflexivity.
Defined.

Lemma tcp_receiveFrame_false_disconnects :
  forall (r r' : Tcp.TcpReceiver) w w' buffer buffer',
    Tcp.receiveFrame r w buffer = Ret (false, r', w', buffer') ->
    Tcp.connected_ r' = false.
Proof.
  intros r r' w w' buffer buffer' H. unfold Tcp.receiveFrame in H.
  destruct (Tcp.connected_ r) eqn:Hc; simpl in H.
  - destruct (has_header (Tcp.config_ r)).
    + apply bind_ret_inv in H as ([[[ok r1] w1] hdr] & Hex & H).
      destruct ok; simpl in H.
      * eapply tcp_body_false_disconnects; exact H.
      * injection H as <- _ _.
        eapply tcp_loop_false_disconnects; exact Hex.
    + eapply tcp_body_false_disconnects; exact H.
  - injection H as <- _ _. exact Hc.
Qed.

Lemma udp_receiveFrame_false_unbinds :
  forall (r r' : Udp.UdpReceiver) w w' buffer buffer',
    Udp.receiveFrame r w buffer = Ret (false, r', w', buffer') ->
    Udp.bound_ r' = false.
Proof.
  intros r r' w w' buffer buffer' H. unfold Udp.receiveFrame in H.
  destruct (Udp.bound_ r) eqn:Hc; simpl in H.
  - apply bind_ret_inv in H as (b1 & _ & H).
    apply bind_ret_inv in H as ([[[ok r1] w1] b2] & Hex & H).
    destruct ok; simpl in H; [discriminate|].
    injection H as <- _ _.
    eapply udp_loop_false_unbinds; exact Hex.
  - injection H as <- _ _. exact Hc.
Qed.

Lemma count_occ_other (l : list Z) (a b : Z) :
  a <> b -> count_occ Z.eq_dec (l ++ [a]) b = count_occ Z.eq_dec l b.
Proof.
  intro H. rewrite count_occ_app. simpl.
  destruct (Z.eq_dec a b); [contradiction | lia].
Qed.

(** X4. The descriptor of a connection that broke is never released
    unless [disconnect()] is called before the next [connect()]: after a
    [receiveFrame] that failed on a connected (bound) receiver, a
    [connect()] followed by a [disconnect()] closes, if anything, only
    the descriptor the new [connect()] opened; the old one is closed by
    none of the three calls. *)
Theorem reconnect_abandons_descriptor :
  (forall (r r1 : Tcp.TcpReceiver) w w1 buffer buffer1 (e : SetupEnv),
      Tcp.receiveFrame r w buffer = Ret (false, r1, w1, buffer1) ->
      env_socket e <> Tcp.socket_ r ->
      let r2 := snd (fst (Tcp.connect e r1 w1)) in
      let w2 := snd (Tcp.connect e r1 w1) in
      let w3 := snd (Tcp.disconnect r2 w2) in
      count_occ Z.eq_dec (closes w3) (Tcp.socket_ r)
      = count_occ Z.eq_dec (closes w) (Tcp.socket_ r)) /\
  (forall (r r1 : Udp.UdpReceiver) w w1 buffer buffer1 (e : SetupEnv),
      Udp.receiveFrame r w buffer = Ret (false, r1, w1, buffer1) ->
      env_socket e <> Udp.socket_ r ->
      let r2 := snd (fst (Udp.connect e r1 w1)) in
      let w2 := snd (Udp.connect e r1 w1) in
      let w3 := snd (Udp.disconnect r2 w2) in
      count_occ Z.eq_dec (closes w3) (Udp.socket_ r)
      = count_occ Z.eq_dec (closes w) (Udp.socket_ r)).
Proof.
  split.
  - intros r r1 w w1 buffer buffer1 e Hrun Hfd r2 w2 w3.
    pose proof (tcp_receiveFrame_false_disconnects _ _ _ _ _ _ Hrun) as Hd.
    apply tcp_receiveFrame_keeps in Hrun as (_ & _ & _ & Hcl & _).
    destruct (tcp_connect_outcome e r1 w1 Hd) as (Hok & _ & Hgood & Hbad).
    subst w3. rewrite tcp_disconnect_closes. subst r2 w2.
    destruct (fst (fst (Tcp.connect e r1 w1))).
    + destruct (Hgood eq_refl) as (_ & Hs & Hc2). rewrite Hs, Hc2, Hcl.
      destruct (env_socket e =? INVALID_SOCK).
      * now rewrite app_nil_r.
      * now apply count_occ_other.
    + destruct (Hbad eq_refl) as (_ & Hs & _ & _ & Hc2). rewrite Hs, Hc2, Hcl.
      simpl. rewrite app_nil_r.
      destruct (env_socket e =? INVALID_SOCK).
      * now rewrite app_nil_r.
      * now apply count_occ_other.
  - intros r r1 w w1 buffer buffer1 e Hrun Hfd r2 w2 w3.
    pose proof (udp_receiveFrame_false_unbinds _ _ _ _ _ _ Hrun) as Hd.
    apply udp_receiveFrame_keeps in Hrun as (_ & _ & _ & Hcl & _).
    destruct (udp_connect_outcome e r1 w1 Hd) as (Hok & _ & _ & Hgood & Hbad).
    subst w3. rewrite udp_disconnect_closes. subst r2 w2.
    destruct (fst (fst (Udp.connect e r1 w1))).
    + destruct (Hgood eq_refl) as (_ & Hs & Hc2). rewrite Hs, Hc2, Hcl.
      destruct (env_socket e =? INVALID_SOCK).
      * now rewrite app_nil_r.
      * now apply count_occ_other.
    + destruct (Hbad eq_refl) as (_ & Hs & _ & _ & Hc2). rewrite Hs, Hc2, Hcl.
      simpl. rewrite app_nil_r.
      destruct (env_socket e =? INVALID_SOCK).
      * now rewrite app_nil_r.
      * now apply count_occ_other.
Qed.

Lemma reconnect_abandons_descriptor_witness :
  let r := connected_tcp (sample_config 8 1 false 4) 0 0 in
  let w := fresh_world [Packet [x0a]; PeerClose] in
  let e := {| env_socket := 4; env_rcvbuf := 0; env_sockopt := 0;
              env_pton := 1; env_attach := 0 |} in
  exists r1 w1 buffer1,
    Tcp.receiveFrame r w [] = Ret (false, r1, w1, buffer1) /\
    count_occ Z.eq_dec
      (closes (snd (Tcp.disconnect (snd (fst (Tcp.connect e r1 w1)))
                      (snd (Tcp.connect e r1 w1))))) 3
    = 0%nat.
Proof.
  eexists _, _, _. split; [reflexivity|].
  eapply (proj1 reconnect_abandons_descriptor
           (connected_tcp (sample_config 8 1 false 4) 0 0) _
           (fresh_world [Packet [x0a]; PeerClose]) _ [] _
           {| env_socket := 4; env_rcvbuf := 0; env_sockopt := 0;
              env_pton := 1; env_attach := 0 |}).
  - reflexivity.
  - discriminate.
Defined.

(** ** Invariants over any sequence of calls *)

Lemma uint64_range_0 : uint64_range 0.
Proof. unfold uint64_range. lia. Qed.

Lemma tcp_step_inv (cfg : Config) (c : tcp_call) :
  forall r w buffer r' w' buffer',
    tcp_inv cfg r ->
    tcp_step c (r, w, buffer) = Ret (r', w', buffer') ->
    tcp_inv cfg r'.
Proof.
  intros r w buffer r' w' buffer' (Hc & Hs & Hb & Hf) H.
  destruct c as [e| | |more]; simpl in H.
  - destruct (Tcp.connected_ r) eqn:Hconn.
    { unfold Tcp.connect in H. rewrite Hconn in H.
      injection H as <- _ _. unfold tcp_inv. kept. }
    pose proof (tcp_connect_outcome e r w Hconn) as (Hok & Hc' & Hgood & Hbad).
    destruct (Tcp.connect e r w) as [[ok r1] w1] eqn:E.
    cbn [fst snd] in Hok, Hc', Hgood, Hbad. injection H as <- _ _.
    unfold tcp_inv. destruct ok.
    + destruct (Hgood eq_refl) as (_ & Hs1 & _).
      assert (Hv : env_socket e <> INVALID_SOCK).
      { symmetry in Hok. apply andb_prop in Hok as [Hok _].
        apply andb_prop in Hok as [Hok _].
        apply negb_true_iff in Hok. now apply Z.eqb_neq. }
      assert (Hz : Tcp.total_bytes_received_ r1 = 0
                   /\ Tcp.total_frames_received_ r1 = 0).
      { unfold Tcp.connect in E. rewrite Hconn in E.
        cbn [Tcp.set_socket Tcp.socket_] in E.
        apply Z.eqb_neq in Hv. rewrite Hv in E.
        destruct (env_pton e <=? 0).
        { destruct Tcp.disconnect; discriminate. }
        destruct (env_attach e <? 0).
        { destruct Tcp.disconnect; discriminate. }
        injection E as <- _. now split. }
      destruct Hz as [Hz1 Hz2]. rewrite Hz1, Hz2.
      conj_split; try congruence; try apply uint64_range_0.
    + destruct (Hbad eq_refl) as (Hd & _ & Hb1 & Hf1 & _).
      rewrite Hb1, Hf1. kept.
  - unfold Tcp.disconnect in H.
    destruct (negb (Tcp.socket_ r =? INVALID_SOCK));
      injection H as <- _ _; unfold tcp_inv; simpl; kept.
  - apply bind_ret_inv in H as ([[[ok r1] w1] b1] & Hrun & H).
    injection H as <- _ _.
    apply tcp_receiveFrame_keeps in Hrun as (Hc1 & Hs1 & Hcn & _ & Hr1 & Hr2).
    unfold tcp_inv. conj_split; auto; try congruence.
    intro Ht. rewrite Hs1. auto.
  - injection H as <- _ _. unfold tcp_inv. kept.
Qed.

(** X5. Whatever a caller does with a TCP receiver, in whatever order and
    whatever the network and the operating system answer: the receiver
    keeps the configuration it was made with (so [getFrameSize()] never
    changes, also after a header overrode the size of a frame), it is
    never connected without holding a descriptor, and both counters stay
    within 64 bits. *)
Theorem tcp_invariant :
  forall (cfg : Config) (calls : list tcp_call) (w : World)
         (buffer : list byte) r' w' buffer',
    tcp_run calls (Tcp.make cfg, w, buffer) = Ret (r', w', buffer') ->
    tcp_inv cfg r' /\ Tcp.getFrameSize r' = frame_size cfg.
Proof.
  intros cfg calls w buffer r' w' buffer' H.
  assert (Hinv : tcp_inv cfg r').
  { assert (H0 : tcp_inv cfg (Tcp.make cfg)).
    { unfold tcp_inv; simpl. kept; apply uint64_range_0. }
    revert H0 H. generalize (Tcp.make cfg) as r. revert w buffer.
    induction calls as [|c calls IH]; intros w buffer r H0 H; simpl in H.
    - injection H as <- _ _. exact H0.
    - apply bind_ret_inv in H as ([[r1 w1] b1] & Hstep & H).
      apply (IH w1 b1 r1); [|exact H].
      eapply tcp_step_inv; eassumption. }
  split; [exact Hinv|].
  unfold Tcp.getFrameSize. destruct Hinv as (Hc & _). now rewrite Hc.
Qed.

Lemma tcp_invariant_witness :
  exists r' w' buffer',
    tcp_run [TcpConnect sample_env; TcpNetwork [Packet [x0a; x0b; x0c]];
             TcpReceiveFrame; TcpReceiveFrame; TcpConnect sample_env]
      (Tcp.make (sample_config 8 1 false 4), fresh_world [], [])
    = Ret (r', w', buffer') /\
    tcp_inv (sample_config 8 1 false 4) r' /\
    Tcp.getFrameSize r' = 2.
Proof.
  eexists _, _, _. split; [reflexivity|].
  eapply (tcp_invariant (sample_config 8 1 false 4)
            [TcpConnect sample_env; TcpNetwork [Packet [x0a; x0b; x0c]];
             TcpReceiveFrame; TcpReceiveFrame; TcpConnect sample_env]
            (fresh_world []) []).
  reflexivity.
Defined.

Lemma resize_length (v v' : list byte) (n : nat) :
  resize v n = Ret v' -> length v' = n.
Proof.
  unfold resize. destruct (Z.of_nat n <=? vector_max_size); [|discriminate].
  intro H. injection H as <-.
  rewrite length_app, length_firstn, repeat_length. lia.
Qed.

Lemma udp_make_inv (cfg : Config) (r : Udp.UdpReceiver) :
  Udp.make cfg = Ret r -> udp_inv cfg r.
Proof.
  unfold Udp.make. intro H.
  apply bind_ret_inv in H as (acc & _ & H).
  apply bind_ret_inv in H as (pkt & Hpkt & H).
  injection H as <-. apply resize_length in Hpkt.
  unfold udp_inv; simpl. kept; try apply uint64_range_0. lia.
Qed.

Lemma udp_connect_inv (cfg : Config) (e : SetupEnv) (r : Udp.UdpReceiver)
    (w : World) :
  udp_inv cfg r -> udp_inv cfg (snd (fst (Udp.connect e r w))).
Proof.
  intros (Hc & Hs & Hb & Hf & Hp & Ha).
  unfold Udp.connect, Udp.disconnect.
  destruct (Udp.bound_ r) eqn:Hbound; [unfold udp_inv; simpl; kept|].
  cbn [Udp.set_socket Udp.socket_ Udp.config_].
  destruct (env_socket e =? INVALID_SOCK) eqn:Es.
  { unfold udp_inv; simpl. kept. }
  assert (Hv : env_socket e <> INVALID_SOCK) by now apply Z.eqb_neq.
  destruct (Udp.wildcard_ip (camera_ip (Udp.config_ r)));
    [|destruct (env_pton e <=? 0)];
    try destruct (env_attach e <? 0);
    unfold udp_inv; simpl; kept; try apply uint64_range_0; lia.
Qed.

Lemma udp_step_inv (cfg : Config) (c : udp_call) :
  forall r w buffer r' w' buffer',
    udp_inv cfg r ->
    udp_step c (r, w, buffer) = Ret (r', w', buffer') ->
    udp_inv cfg r'.
Proof.
  intros r w buffer r' w' buffer' Hinv H.
  destruct c as [e| | |more]; simpl in H.
  - pose proof (udp_connect_inv cfg e r w Hinv) as Hi.
    destruct (Udp.connect e r w) as [[ok r1] w1].
    injection H as <- _ _. exact Hi.
  - destruct Hinv as (Hc & Hs & Hb & Hf & Hp & Ha).
    unfold Udp.disconnect in H.
    destruct (negb (Udp.socket_ r =? INVALID_SOCK));
      injection H as <- _ _; unfold udp_inv; simpl; kept; lia.
  - destruct Hinv as (Hc & Hs & Hb & Hf & Hp & Ha).
    apply bind_ret_inv in H as ([[[ok r1] w1] b1] & Hrun & H).
    injection H as <- _ _.
    pose proof Hrun as Hrun'.
    apply udp_receiveFrame_keeps in Hrun
      as (Hc1 & Hs1 & Hcn & _ & Hr1 & Hr2 & Hp1 & Ha1).
    unfold udp_inv. conj_split; auto; try congruence.
    + intro Ht. rewrite Hs1. auto.
    + (* the loop starts from offset zero *)
      clear Ha1. unfold Udp.receiveFrame in Hrun'.
      destruct (Udp.bound_ r); simpl in Hrun'.
      * apply bind_ret_inv in Hrun' as (b2 & _ & Hrun').
        apply bind_ret_inv in Hrun' as ([[[ok2 r2] w2] b3] & Hex & Hrun').
        apply udp_loop_keeps in Hex as (_ & _ & _ & _ & _ & _ & _ & Ha2).
        unfold Udp.getFrameSize in Ha2. rewrite Hc in Ha2.
        destruct ok2; simpl in Hrun'; injection Hrun' as _ <- _ _; simpl;
          apply Ha2; simpl; lia.
      * injection Hrun' as _ <- _ _. exact Ha.
  - injection H as <- _ _. exact Hinv.
Qed.

(** X6. Whatever a caller does with a UDP receiver, in whatever order and
    whatever the network and the operating system answer: the receiver
    keeps the configuration it was made with, it is never bound without
    holding a descriptor, both counters stay within 64 bits, the packet
    buffer keeps the size given at construction, and the accumulation
    offset never exceeds the frame size. *)
Theorem udp_invariant :
  forall (cfg : Config) (calls : list udp_call) (r0 : Udp.UdpReceiver)
         (w : World) (buffer : list byte) r' w' buffer',
    Udp.make cfg = Ret r0 ->
    udp_run calls (r0, w, buffer) = Ret (r', w', buffer') ->
    udp_inv cfg r' /\ Udp.getFrameSize r' = frame_size cfg.
Proof.
  intros cfg calls r0 w buffer r' w' buffer' Hmake H.
  assert (Hinv : udp_inv cfg r').
  { pose proof (udp_make_inv cfg r0 Hmake) as H0. clear Hmake.
    revert r0 w buffer H0 H.
    induction calls as [|c calls IH]; intros r w buffer H0 H; simpl in H.
    - injection H as <- _ _. exact H0.
    - apply bind_ret_inv in H as ([[r1 w1] b1] & Hstep & H).
      apply (IH r1 w1 b1); [|exact H].
      eapply udp_step_inv; eassumption. }
  split; [exact Hinv|].
  unfold Udp.getFrameSize. destruct Hinv as (Hc & _). now rewrite Hc.
Qed.

Lemma udp_invariant_witness :
  let cfg :=
    {| width := 8; height := 2; camera_ip := ""%string; camera_port := 5000;
       recv_buffer_size := 0; udp_packet_size := 3; has_header := false;
       header_size := 4; msb_first := false; positive_first := true;
       row_major := true; frame_interval_us := 200; verbose := false |} in
  exists r0 r' w' buffer',
    Udp.make cfg = Ret r0 /\
    udp_run [UdpConnect sample_env;
             UdpNetwork [Packet [x0a; x0b; x0c; x0d]; Packet [x0e; x0f]];
             UdpReceiveFrame; UdpReceiveFrame; UdpDisconnect]
      (r0, fresh_world [], [])
    = Ret (r', w', buffer') /\
    udp_inv cfg r' /\
    Udp.getFrameSize r' = 4.
Proof.
  eexists _, _, _, _.
  split; [cbv; reflexivity|]. split; [cbv; reflexivity|].
  eapply (udp_invariant
            {| width := 8; height := 2; camera_ip := ""%string;
               camera_port := 5000; recv_buffer_size := 0;
               udp_packet_size := 3; has_header := false; header_size := 4;
               msb_first := false; positive_first := true; row_major := true;
               frame_interval_us := 200; verbose := false |}
            [UdpConnect sample_env;
             UdpNetwork [Packet [x0a; x0b; x0c; x0d]; Packet [x0e; x0f]];
             UdpReceiveFrame; UdpReceiveFrame; UdpDisconnect]
            _ (fresh_world []) []).
  - cbv; reflexivity.
  - cbv; reflexivity.
Defined.

(** ** Moves and destructors *)

(** X7. Move construction hands the connection over: the new TCP
    receiver is in the state [other] was in, [other] is left disconnected
    without descriptor, so that its destructor closes nothing, and
    destroying both objects, in either order, closes the descriptor once
    (not at all if there was none). *)
Theorem tcp_move_construct_transfers :
  forall (other : Tcp.TcpReceiver) (w : World),
    let this := fst (TcpOwnership.move_construct other) in
    let left := snd (TcpOwnership.move_construct other) in
    let closed :=
      if Tcp.socket_ other =? INVALID_SOCK then [] else [Tcp.socket_ other] in
    this = other /\
    Tcp.socket_ left = INVALID_SOCK /\
    Tcp.connected_ left = false /\
    TcpOwnership.destroy left w = w /\
    closes (TcpOwnership.destroy this (TcpOwnership.destroy left w))
      = closes w ++ closed /\
    closes (TcpOwnership.destroy left (TcpOwnership.destroy this w))
      = closes w ++ closed.
Proof.
  intros other w. destruct other as [cfg fd conn bytes frames].
  unfold TcpOwnership.move_construct, TcpOwnership.destroy. cbn [fst snd].
  cbn [Tcp.set_socket Tcp.set_connected Tcp.socket_ Tcp.connected_
         Tcp.config_ Tcp.total_bytes_received_ Tcp.total_frames_received_].
  assert (Hleft : forall v,
             Tcp.disconnect
               {| Tcp.config_ := cfg; Tcp.socket_ := INVALID_SOCK;
                  Tcp.connected_ := false;
                  Tcp.total_bytes_received_ := bytes;
                  Tcp.total_frames_received_ := frames |} v
             = ({| Tcp.config_ := cfg; Tcp.socket_ := INVALID_SOCK;
                   Tcp.connected_ := false;
                   Tcp.total_bytes_received_ := bytes;
                   Tcp.total_frames_received_ := frames |}, v))
    by reflexivity.
  rewrite !Hleft. cbn [snd].
  conj_split; try reflexivity; apply tcp_disconnect_closes.
Qed.

(** X8. Move assignment between two distinct TCP receivers first
    disconnects the target, closing the descriptor it held, then hands
    the connection of [other] over: descriptor, connected flag and both
    counters, but not the configuration, which the target keeps.
    [other] is left disconnected without descriptor, no third object is
    touched, and destroying the two objects afterwards closes the
    descriptor taken over once.  Assigning an object to itself does
    nothing. *)
Theorem tcp_move_assign_transfers :
  forall (this other : nat) (o : TcpOwnership.objects) (w : World),
    let o' := fst (TcpOwnership.move_assign this other o w) in
    let w' := snd (TcpOwnership.move_assign this other o w) in
    let closed (r : Tcp.TcpReceiver) :=
      if Tcp.socket_ r =? INVALID_SOCK then [] else [Tcp.socket_ r] in
    (this = other -> o' = o /\ w' = w) /\
    (this <> other ->
       Tcp.config_ (o' this) = Tcp.config_ (o this) /\
       Tcp.socket_ (o' this) = Tcp.socket_ (o other) /\
       Tcp.connected_ (o' this) = Tcp.connected_ (o other) /\
       Tcp.total_bytes_received_ (o' this)
         = Tcp.total_bytes_received_ (o other) /\
       Tcp.total_frames_received_ (o' this)
         = Tcp.total_frames_received_ (o other) /\
       Tcp.socket_ (o' other) = INVALID_SOCK /\
       Tcp.connected_ (o' other) = false /\
       (forall a, a <> this -> a <> other -> o' a = o a) /\
       closes w' = closes w ++ closed (o this) /\
       closes (TcpOwnership.destroy (o' this)
                 (TcpOwnership.destroy (o' other) w'))
         = closes w ++ closed (o this) ++ closed (o other)).
Proof.
  intros this other o w. unfold TcpOwnership.move_assign. split.
  - intros ->. rewrite Nat.eqb_refl. simpl. now split.
  - intro Hne.
    assert (E1 : Nat.eqb this other = false) by now apply Nat.eqb_neq.
    assert (E2 : Nat.eqb other this = false)
      by (apply Nat.eqb_neq; congruence).
    rewrite E1. cbn [negb].
    pose proof (tcp_disconnect_closes (o this) w) as Hcl.
    assert (Hcfg : Tcp.config_ (fst (Tcp.disconnect (o this) w))
                   = Tcp.config_ (o this)).
    { unfold Tcp.disconnect.
      now destruct (negb (Tcp.socket_ (o this) =? INVALID_SOCK)). }
    destruct (Tcp.disconnect (o this) w) as [t w1]. cbn [fst snd] in *.
    unfold TcpOwnership.put, TcpOwnership.destroy.
    rewrite !Nat.eqb_refl, E1.
    cbn [Tcp.set_socket Tcp.set_connected Tcp.socket_ Tcp.connected_
           Tcp.config_ Tcp.total_bytes_received_ Tcp.total_frames_received_].
    conj_split; try reflexivity; try assumption.
    + intros a Ha Hb.
      apply Nat.eqb_neq in Ha, Hb. now rewrite Hb, Ha.
    + rewrite tcp_disconnect_closes.
      cbn [Tcp.socket_].
      unfold Tcp.disconnect at 1. cbn [Tcp.socket_]. simpl negb. cbn [snd].
      rewrite Hcl, <- app_assoc. reflexivity.
Qed.

Lemma tcp_move_assign_transfers_witness :
  let o : TcpOwnership.objects :=
    fun a => match a with
             | O => connected_tcp (sample_config 8 1 false 4) 10 1
             | _ => Tcp.set_socket (Tcp.make (sample_config 8 8 true 4)) 7
             end in
  let res := TcpOwnership.move_assign 1 0 o (fresh_world []) in
  Tcp.config_ (fst res 1%nat) = sample_config 8 8 true 4 /\
  Tcp.socket_ (fst res 1%nat) = 3 /\
  Tcp.socket_ (fst res 0%nat) = INVALID_SOCK /\
  closes (snd res) = [7].
Proof.
  intros o res.
  assert (Hne : 1%nat <> 0%nat) by discriminate.
  destruct (proj2 (tcp_move_assign_transfers 1 0 o (fresh_world [])) Hne)
    as (Hc & Hs & _ & _ & _ & Hl & _ & _ & Hcl & _).
  split; [exact Hc|]. split; [exact Hs|]. split; [exact Hl | exact Hcl].
Defined.

(** X9. Move construction of a UDP receiver hands over the socket and
    both buffers: the new receiver is in the state [other] was in, while
    [other] is left unbound, without descriptor and with empty buffers
    (its counters and accumulation offset are not reset).  The destructor
    of [other] closes nothing, and destroying both objects, in either
    order, closes the descriptor once. *)
Theorem udp_move_construct_transfers :
  forall (other : Udp.UdpReceiver) (w : World),
    let this := fst (UdpOwnership.move_construct other) in
    let left := snd (UdpOwnership.move_construct other) in
    let closed :=
      if Udp.socket_ other =? INVALID_SOCK then [] else [Udp.socket_ other] in
    this = other /\
    Udp.socket_ left = INVALID_SOCK /\
    Udp.bound_ left = false /\
    Udp.packet_buffer_ left = [] /\
    Udp.accumulation_buffer_ left = [] /\
    Udp.accumulated_bytes_ left = Udp.accumulated_bytes_ other /\
    Udp.total_bytes_received_ left = Udp.total_bytes_received_ other /\
    Udp.total_frames_received_ left = Udp.total_frames_received_ other /\
    closes (UdpOwnership.destroy left w) = closes w /\
    closes (UdpOwnership.destroy this (UdpOwnership.destroy left w))
      = closes w ++ closed /\
    closes (UdpOwnership.destroy left (UdpOwnership.destroy this w))
      = closes w ++ closed.
Proof.
  intros other w. destruct other as [cfg fd bnd acc n pkt bytes frames].
  unfold UdpOwnership.move_construct, UdpOwnership.destroy. cbn [fst snd].
  cbn [UdpOwnership.set_buffers Udp.set_socket Udp.set_bound Udp.socket_
         Udp.bound_ Udp.config_ Udp.total_bytes_received_
         Udp.total_frames_received_ Udp.packet_buffer_
         Udp.accumulation_buffer_ Udp.accumulated_bytes_].
  conj_split; try reflexivity.
  - rewrite !udp_disconnect_closes. cbn [Udp.socket_]. simpl.
    now rewrite app_nil_r.
  - rewrite !udp_disconnect_closes. cbn [Udp.socket_]. simpl.
    now rewrite app_nil_r.
Qed.

(** X10. Move assignment between two distinct UDP receivers disconnects
    the target first, closing the descriptor it held, then takes over
    descriptor, bound flag, both buffers, accumulation offset and
    counters of [other], keeping its own configuration; [other] is left
    unbound without descriptor, whatever is left in its buffers.
    Destroying the two objects afterwards closes the descriptor taken
    over once.  Assigning an object to itself does nothing. *)
Theorem udp_move_assign_transfers :
  forall (acc_left pkt_left : list byte) (this other : nat)
         (o : UdpOwnership.objects) (w : World),
    let res := UdpOwnership.move_assign acc_left pkt_left this other o w in
    let o' := fst res in
    let w' := snd res in
    let closed (r : Udp.UdpReceiver) :=
      if Udp.socket_ r =? INVALID_SOCK then [] else [Udp.socket_ r] in
    (this = other -> o' = o /\ w' = w) /\
    (this <> other ->
       Udp.config_ (o' this) = Udp.config_ (o this) /\
       Udp.socket_ (o' this) = Udp.socket_ (o other) /\
       Udp.bound_ (o' this) = Udp.bound_ (o other) /\
       Udp.packet_buffer_ (o' this) = Udp.packet_buffer_ (o other) /\
       Udp.accumulation_buffer_ (o' this)
         = Udp.accumulation_buffer_ (o other) /\
       Udp.accumulated_bytes_ (o' this) = Udp.accumulated_bytes_ (o other) /\
       Udp.total_bytes_received_ (o' this)
         = Udp.total_bytes_received_ (o other) /\
       Udp.total_frames_received_ (o' this)
         = Udp.total_frames_received_ (o other) /\
       Udp.socket_ (o' other) = INVALID_SOCK /\
       Udp.bound_ (o' other) = false /\
       (forall a, a <> this -> a <> other -> o' a = o a) /\
       closes w' = closes w ++ closed (o this) /\
       closes (UdpOwnership.destroy (o' this)
                 (UdpOwnership.destroy (o' other) w'))
         = closes w ++ closed (o this) ++ closed (o other)).
Proof.
  intros acc_left pkt_left this other o w.
  unfold UdpOwnership.move_assign. cbv zeta. split.
  - intros ->. rewrite Nat.eqb_refl. simpl. now split.
  - intro Hne.
    assert (E1 : Nat.eqb this other = false) by now apply Nat.eqb_neq.
    rewrite E1. cbn [negb].
    pose proof (udp_disconnect_closes (o this) w) as Hcl.
    assert (Hcfg : Udp.config_ (fst (Udp.disconnect (o this) w))
                   = Udp.config_ (o this)).
    { unfold Udp.disconnect.
      now destruct (negb (Udp.socket_ (o this) =? INVALID_SOCK)). }
    destruct (Udp.disconnect (o this) w) as [t w1]. cbn [fst snd] in *.
    unfold UdpOwnership.put, UdpOwnership.destroy.
    rewrite !Nat.eqb_refl, E1.
    cbn [UdpOwnership.set_buffers Udp.set_socket Udp.set_bound Udp.socket_
           Udp.bound_ Udp.config_ Udp.total_bytes_received_
           Udp.total_frames_received_ Udp.packet_buffer_
           Udp.accumulation_buffer_ Udp.accumulated_bytes_].
    conj_split; try reflexivity; try assumption.
    + intros a Ha Hb.
      apply Nat.eqb_neq in Ha, Hb. now rewrite Hb, Ha.
    + rewrite !udp_disconnect_closes. cbn [Udp.socket_]. simpl.
      rewrite app_nil_r, Hcl, <- app_assoc. reflexivity.
Qed.

Lemma udp_move_assign_transfers_witness :
  let o : UdpOwnership.objects :=
    fun a => match a with
             | O => bound_udp (sample_config 8 1 false 4) 10 1
             | _ => Udp.set_socket (bound_udp (sample_config 8 8 true 4) 0 0) 7
             end in
  let res := UdpOwnership.move_assign [] [] 1 0 o (fresh_world []) in
  Udp.config_ (fst res 1%nat) = sample_config 8 8 true 4 /\
  Udp.socket_ (fst res 1%nat) = 3 /\
  Udp.socket_ (fst res 0%nat) = INVALID_SOCK /\
  closes (snd res) = [7].
Proof.
  intros o res.
  assert (Hne : 1%nat <> 0%nat) by discriminate.
  destruct (proj2 (udp_move_assign_transfers [] [] 1 0 o (fresh_world [])) Hne)
    as (Hc & Hs & _ & _ & _ & _ & _ & _ & Hl & _ & _ & Hcl & _).
  split; [exact Hc|]. split; [exact Hs|]. split; [exact Hl | exact Hcl].
Defined.

(** X11. A UDP receiver that was moved from cannot receive again: its
    packet buffer is empty, so once it is bound anew every
    [receiveFrame] for a frame of at least one byte fails at its first
    receive, whatever the network delivers, and unbinds the receiver. *)
Theorem udp_moved_from_cannot_receive :
  forall (other : Udp.UdpReceiver) (e : SetupEnv) (w : World)
         (s : list net_event) (buffer : list byte) r1 w1,
    let left := snd (UdpOwnership.move_construct other) in
    0 < frame_size (Udp.config_ other) <= INT_MAX ->
    Udp.connect e left w = (true, r1, w1) ->
    exists r2 w2 buffer2,
      Udp.receiveFrame r1 {| trace := trace w1; inbound := s |} buffer
        = Ret (false, r2, w2, buffer2) /\
      Udp.bound_ r2 = false /\
      Udp.total_frames_received_ r2 = Udp.total_frames_received_ r1.
Proof.
  intros other e w s buffer r1 w1 left Hfs Hconn.
  assert (Hr1 : Udp.bound_ r1 = true /\ Udp.packet_buffer_ r1 = []
                /\ Udp.config_ r1 = Udp.config_ other).
  { subst left. destruct other as [cfg fd bnd acc n pkt bytes frames].
    unfold UdpOwnership.move_construct, Udp.connect in Hconn.
    cbn [snd UdpOwnership.set_buffers Udp.set_socket Udp.set_bound
           Udp.bound_ Udp.socket_ Udp.config_] in Hconn.
    destruct (env_socket e =? INVALID_SOCK); [discriminate|].
    destruct (Udp.wildcard_ip (camera_ip cfg)).
    - destruct (env_attach e <? 0).
      + destruct Udp.disconnect; discriminate.
      + injection Hconn as <- _. now conj_split.
    - destruct (env_pton e <=? 0).
      { destruct Udp.disconnect; discriminate. }
      destruct (env_attach e <? 0).
      + destruct Udp.disconnect; discriminate.
      + injection Hconn as <- _. now conj_split. }
  destruct Hr1 as (Hb & Hp & Hc).
  unfold Udp.receiveFrame, Udp.getFrameSize. rewrite Hb, Hc. simpl negb.
  cbv iota.
  destruct (resize_small buffer (to_size_t (frame_size (Udp.config_ other))))
    as (b0 & -> & Hb0).
  { rewrite to_size_t_small by lia. lia. }
  simpl bind.
  assert (Hpos : (0 < to_size_t (frame_size (Udp.config_ other)))%nat).
  { rewrite to_size_t_small by lia. lia. }
  destruct (to_size_t (frame_size (Udp.config_ other))) as [|fuel] eqn:EF;
    [lia|].
  cbn [Udp.receive_loop Udp.set_accumulated Udp.accumulated_bytes_
         Udp.packet_buffer_ Udp.socket_].
  rewrite EF. simpl Nat.ltb. cbv iota.
  rewrite Hp. unfold recvfrom. cbn [inbound trace length].
  destruct s as [|[bs| |] rest]; cbn [firstn length Z.of_nat Z.leb Z.compare];
    simpl bind; eexists _, _, _; (split; [reflexivity|]); split; reflexivity.
Qed.

Lemma udp_moved_from_cannot_receive_witness :
  let other := bound_udp (sample_config 8 1 false 4) 0 0 in
  let left := snd (UdpOwnership.move_construct other) in
  exists r1 w1 r2 w2 buffer2,
    Udp.connect sample_env left (fresh_world []) = (true, r1, w1) /\
    Udp.receiveFrame r1
      {| trace := trace w1; inbound := [Packet [x01; x02]] |} []
      = Ret (false, r2, w2, buffer2) /\
    Udp.bound_ r2 = false /\
    Udp.total_frames_received_ r2 = Udp.total_frames_received_ r1.
Proof.
  intros other left. eexists _, _.
  assert (Hc : Udp.connect sample_env left (fresh_world [])
               = (true, snd (fst (Udp.connect sample_env left (fresh_world []))),
                  snd (Udp.connect sample_env left (fresh_world []))))
    by reflexivity.
  destruct (udp_moved_from_cannot_receive other sample_env (fresh_world [])
              [Packet [x01; x02]] [] _ _
              ltac:(vm_compute; split; [reflexivity | discriminate]) Hc)
    as (r2 & w2 & b2 & H).
  exists r2, w2, b2. split; [exact Hc | exact H].
Defined.

(** ** Frame size: rounding and the empty frame *)

(** X12. [frame_size()] rounds down to whole bytes per channel: for a
    geometry of [p = width * height] pixels, with [p] non-negative and
    within [int] (so that the source's product does not overflow), a
    frame has room for [4 * frame_size()] pixels per channel, which is at
    most [p] and misses fewer than 8 of them; nothing is missed exactly
    when [p] is a multiple of 8, and the frame is empty exactly when
    [p < 8].  The frame size itself is within [int]. *)
Theorem frame_size_rounds_down :
  forall (cfg : Config),
    let p := width cfg * height cfg in
    0 <= p <= INT_MAX ->
    frame_size cfg = 2 * (p / 8) /\
    0 <= frame_size cfg <= INT_MAX /\
    0 <= 4 * frame_size cfg <= p /\
    p - 4 * frame_size cfg < 8 /\
    (4 * frame_size cfg = p <-> p mod 8 = 0) /\
    (frame_size cfg = 0 <-> p < 8).
Proof.
  intros cfg p Hp. unfold frame_size, bytes_per_channel, pixels_per_channel.
  fold p. rewrite Z.quot_div_nonneg by lia.
  pose proof (Z.div_mod p 8 ltac:(lia)) as Hdm.
  pose proof (Z.mod_pos_bound p 8 ltac:(lia)) as Hm.
  assert (Hq : 0 <= p / 8) by (apply Z.div_pos; lia).
  conj_split; try lia; split; intro H; lia.
Qed.

Lemma frame_size_rounds_down_witness :
  let cfg := sample_config 5 3 false 4 in
  frame_size cfg = 2 * (15 / 8) /\
  0 <= frame_size cfg <= INT_MAX /\
  0 <= 4 * frame_size cfg <= 15 /\
  15 - 4 * frame_size cfg < 8 /\
  (4 * frame_size cfg = 15 <-> 15 mod 8 = 0) /\
  (frame_size cfg = 0 <-> 15 < 8).
Proof.
  apply (frame_size_rounds_down (sample_config 5 3 false 4)).
  vm_compute. split; discriminate.
Defined.

(** X13. With an empty frame (fewer than 8 pixels, no header declared)
    [receiveFrame] on a connected (bound) receiver succeeds at once: it
    makes no receive call, leaves the pending input alone, empties the
    caller's vector and counts a frame. *)
Theorem empty_frame_needs_no_input :
  (forall (r : Tcp.TcpReceiver) (w : World) (buffer : list byte),
      Tcp.connected_ r = true ->
      has_header (Tcp.config_ r) = false ->
      frame_size (Tcp.config_ r) = 0 ->
      Tcp.receiveFrame r w buffer = Ret (true, Tcp.incr_frames r, w, [])) /\
  (forall (r : Udp.UdpReceiver) (w : World) (buffer : list byte),
      Udp.bound_ r = true ->
      frame_size (Udp.config_ r) = 0 ->
      Udp.receiveFrame r w buffer
      = Ret (true, Udp.incr_frames (Udp.set_accumulated r 0), w, [])).
Proof.
  split.
  - intros r w buffer Hc Hh Hz.
    unfold Tcp.receiveFrame, Tcp.getFrameSize, Tcp.receiveBody.
    rewrite Hc, Hh, Hz. reflexivity.
  - intros r w buffer Hb Hz.
    unfold Udp.receiveFrame, Udp.getFrameSize.
    rewrite Hb, Hz. reflexivity.
Qed.

Lemma empty_frame_needs_no_input_witness :
  let r := connected_tcp (sample_config 3 2 false 4) 0 0 in
  let w := fresh_world [Packet [x01; x02]] in
  Tcp.receiveFrame r w [x09] = Ret (true, Tcp.incr_frames r, w, []).
Proof.
  apply (proj1 empty_frame_needs_no_input
           (connected_tcp (sample_config 3 2 false 4) 0 0)
           (fresh_world [Packet [x01; x02]]) [x09]);
    reflexivity.
Defined.

(** ** Frames in a row *)

Lemma wrap64_succ (a m : Z) :
  wrap64 (wrap64 (a + 1) + m) = wrap64 (a + (1 + m)).
Proof. rewrite wrap64_add_l. f_equal. lia. Qed.

(** X14. Asking a connected TCP receiver for [k] frames in a row cuts the
    byte stream into its frames, each after its header if one is
    declared, and nothing else: the frames handed over are a function of
    the bytes of the stream, not of the peer's writes.  If the stream
    holds all [k] frames the receiver stays connected and the rest of
    the stream is still pending, byte for byte; otherwise the frames
    before the incomplete one were handed over and the receiver is
    disconnected.  The frame counter has gone up by the number of frames
    handed over (modulo [2^64]). *)
Theorem tcp_frames_in_a_row :
  forall (k : nat) (r : Tcp.TcpReceiver) (w : World) (buffer : list byte),
    Tcp.connected_ r = true ->
    valid_config (Tcp.config_ r) ->
    let avail := stream_bytes (inbound w) in
    let frames := parse_frames (Tcp.config_ r) k avail in
    exists r' w',
      tcp_receive_many k r w buffer = Ret (frames, r', w') /\
      wrap64 (Tcp.total_frames_received_ r')
        = wrap64 (Tcp.total_frames_received_ r + Z.of_nat (length frames)) /\
      (length frames = k ->
         Tcp.connected_ r' = true /\
         stream_bytes (inbound w')
           = skipn (length (concat frames)
                    + k * header_length (Tcp.config_ r)) avail) /\
      (length frames <> k -> Tcp.connected_ r' = false).
Proof.
  induction k as [|k IH]; intros r w buffer Hc Hv avail frames.
  - exists r, w. simpl.
    split; [reflexivity|]. split; [now rewrite Z.add_0_r|].
    split; [intros _; split; [exact Hc | reflexivity]|].
    intro H. now destruct H.
  - destruct (tcp_receiveFrame_spec r w buffer Hc Hv)
      as (r1 & w1 & b1 & Hrun & _ & Hok & Hko).
    pose proof (tcp_receiveFrame_keeps _ _ _ _ _ _ _ Hrun) as (Hcfg & _).
    fold avail in Hrun, Hok, Hko.
    subst frames. cbn [parse_frames tcp_receive_many]. rewrite Hrun.
    set (hs := header_length (Tcp.config_ r)) in *.
    set (n := requested_length (Tcp.config_ r) (firstn hs avail)) in *.
    simpl bind.
    destruct (Nat.leb_spec0 (hs + n) (length avail)) as [Hle|Hgt].
    + destruct (Hok Hle) as (Hb1 & Hl1 & Hc1 & Hf1 & Hs1).
      assert (Hv1 : valid_config (Tcp.config_ r1)) by now rewrite Hcfg.
      destruct (IH r1 w1 b1 Hc1 Hv1) as (r' & w' & Hmany & Hfr & Hall & Hnot).
      rewrite Hcfg, Hs1 in Hmany, Hfr, Hall, Hnot. fold hs in Hall.
      rewrite Hmany. simpl bind. rewrite Hb1.
      exists r', w'. conj_split.
      * reflexivity.
      * rewrite Hfr, Hf1. cbn [length].
        rewrite wrap64_succ. f_equal. lia.
      * cbn [length concat]. intro Hlen. injection Hlen as Hlen.
        destruct (Hall Hlen) as (Hcn & Hst). split; [exact Hcn|].
        rewrite Hst, <- skipn_add. f_equal.
        rewrite length_app, length_firstn, length_skipn. lia.
      * cbn [length]. intro Hlen. apply Hnot. congruence.
    + exists r1, w1. conj_split.
      * reflexivity.
      * simpl. rewrite Z.add_0_r.
        destruct Hko as (_ & Hf1); [lia|]. now rewrite Hf1.
      * simpl. discriminate.
      * intros _. apply Hko. lia.
Qed.

Lemma tcp_frames_in_a_row_witness :
  let r := connected_tcp (sample_config 8 1 true 2) 0 0 in
  let w := fresh_world [Packet [x01; x00; x0a; x00]; Packet [x00];
                        Packet [x0b; x0c; x03; x00; x0d]] in
  exists r' w',
    tcp_receive_many 3 r w [] = Ret ([[x0a]; [x0b; x0c]], r', w') /\
    wrap64 (Tcp.total_frames_received_ r') = wrap64 (0 + 2) /\
    (2%nat = 3%nat ->
       Tcp.connected_ r' = true /\
       stream_bytes (inbound w')
         = skipn (3 + 3 * 2) [x01; x00; x0a; x00; x00; x0b; x0c; x03; x00; x0d]) /\
    (2%nat <> 3%nat -> Tcp.connected_ r' = false).
Proof.
  apply (tcp_frames_in_a_row 3
           (connected_tcp (sample_config 8 1 true 2) 0 0)
           (fresh_world [Packet [x01; x00; x0a; x00]; Packet [x00];
                         Packet [x0b; x0c; x03; x00; x0d]]) []).
  - reflexivity.
  - split; [vm_compute; split; discriminate | intros _; simpl; lia].
Defined.

(** ** What a failed call leaves in the caller's vector *)

Lemma tcp_loop_fail_buffer :
  forall fuel (r : Tcp.TcpReceiver) w buffer size total,
    (size - total <= fuel)%nat ->
    (total <= size <= length buffer)%nat ->
    (length (stream_bytes (inbound w)) < size - total)%nat ->
    exists r' w',
      Tcp.receiveExact_loop fuel r w buffer size total
      = Ret (false, r', w',
             write_at buffer total (stream_bytes (inbound w))).
Proof.
  induction fuel as [|fuel IH]; intros r w buffer size total Hfuel Hb Hshort.
  - lia.
  - simpl. replace (total <? size)%nat with true
      by (symmetry; apply Nat.ltb_lt; lia).
    unfold recv.
    destruct (stream_recv (inbound w) (size - total))
      as [[ret data] rest] eqn:E.
    assert (Hpos : (0 < size - total)%nat) by lia.
    destruct (stream_recv_spec _ _ Hpos _ _ _ E)
      as [[Hnil Hret] | (Hret & Hk & Hdata & Hrest)].
    + apply Z.leb_le in Hret. rewrite Hret, Hnil, write_at_nil.
      eexists _, _. reflexivity.
    + assert (Hka : (length data <= length (stream_bytes (inbound w)))%nat).
      { apply (f_equal (@length byte)) in Hdata.
        rewrite length_firstn in Hdata. lia. }
      replace (ret <=? 0) with false by (symmetry; apply Z.leb_gt; lia).
      replace (length buffer <? total + length data)%nat with false
        by (symmetry; apply Nat.ltb_ge; lia).
      replace (Z.to_nat ret) with (length data) by lia.
      destruct (IH (Tcp.add_bytes r ret)
                   {| trace := trace w ++ [sys_recv (Tcp.socket_ r) (size - total)];
                      inbound := rest |}
                   (write_at buffer total data) size (total + length data)%nat)
        as (r' & w' & Hrun).
      * lia.
      * rewrite length_write_at by lia. lia.
      * cbn [inbound]. rewrite Hrest, length_skipn. lia.
      * cbn [inbound] in Hrun. rewrite Hrest in Hrun.
        rewrite write_at_app in Hrun by lia.
        assert (Heq : data ++ skipn (length data) (stream_bytes (inbound w))
                      = stream_bytes (inbound w)).
        { rewrite Hdata at 1. apply firstn_skipn. }
        rewrite Heq in Hrun. exists r', w'. exact Hrun.
Qed.

(** X15. What a connected TCP [receiveFrame] that fails does to the
    caller's vector depends on where the stream broke.  If it broke
    inside the header the vector is untouched.  If it broke inside the
    payload the vector has been resized to the length of the frame and
    holds, from its start, the part of the payload that did arrive (the
    rest is what the resize left there): the partial data is not
    cleared. *)
Theorem tcp_failure_leaves_partial_data :
  forall (r : Tcp.TcpReceiver) (w : World) (buffer : list byte),
    Tcp.connected_ r = true ->
    valid_config (Tcp.config_ r) ->
    let avail := stream_bytes (inbound w) in
    let hs := header_length (Tcp.config_ r) in
    let n := requested_length (Tcp.config_ r) (firstn hs avail) in
    ((length avail < hs)%nat ->
       exists r' w',
         Tcp.receiveFrame r w buffer = Ret (false, r', w', buffer)) /\
    ((hs <= length avail < hs + n)%nat ->
       exists r' w',
         Tcp.receiveFrame r w buffer
         = Ret (false, r', w',
                write_at (firstn n buffer ++ repeat zero_byte (n - length buffer))
                         0 (skipn hs avail))).
Proof.
  intros r w buffer Hconn [Hfs Hhs] avail hs n.
  assert (Hbody : forall (r0 : Tcp.TcpReceiver) w0 fs,
             0 <= fs <= INT_MAX ->
             (length (stream_bytes (inbound w0)) < Z.to_nat fs)%nat ->
             exists r' w',
               Tcp.receiveBody r0 w0 buffer fs
               = Ret (false, r', w',
                      write_at (firstn (Z.to_nat fs) buffer
                                ++ repeat zero_byte (Z.to_nat fs - length buffer))
                               0 (stream_bytes (inbound w0)))).
  { intros r0 w0 fs Hr Hshort. unfold Tcp.receiveBody.
    rewrite to_size_t_small by exact Hr.
    unfold resize.
    replace (Z.of_nat (Z.to_nat fs) <=? vector_max_size) with true
      by (symmetry; apply Z.leb_le; unfold vector_max_size, INT_MAX in *; lia).
    simpl bind. unfold Tcp.receiveExact.
    destruct (tcp_loop_fail_buffer (Z.to_nat fs) r0 w0
                (firstn (Z.to_nat fs) buffer
                 ++ repeat zero_byte (Z.to_nat fs - length buffer))
                (Z.to_nat fs) 0) as (r' & w' & Hrun).
    - lia.
    - rewrite length_app, length_firstn, repeat_length. lia.
    - lia.
    - rewrite Hrun. simpl. eexists _, _. reflexivity. }
  unfold Tcp.receiveFrame. rewrite Hconn. simpl negb. cbv iota.
  unfold Tcp.getFrameSize.
  subst n hs. unfold header_length, requested_length.
  destruct (has_header (Tcp.config_ r)) eqn:Hh; simpl andb.
  - specialize (Hhs eq_refl).
    rewrite to_size_t_small by (unfold INT_MAX; lia).
    set (hs := Z.to_nat (header_size (Tcp.config_ r))).
    destruct (tcp_receiveExact_spec r w Tcp.header_word hs)
      as (r1 & w1 & hdr & Hrun & _ & _ & Hok & _); [simpl; lia|].
    fold avail in Hrun, Hok. rewrite Hrun. simpl bind. split.
    + intro Hshort.
      replace (hs <=? length avail)%nat with false
        by (symmetry; apply Nat.leb_gt; exact Hshort).
      simpl. eexists _, _. reflexivity.
    + intros [Hle Hshort].
      replace (hs <=? length avail)%nat with true
        by (symmetry; apply Nat.leb_le; exact Hle).
      simpl negb. cbv iota.
      destruct (Hok Hle) as (Hbuf & _ & Hstream).
      assert (Hdec : le_decode hdr = le_decode (firstn hs avail)).
      { rewrite Hbuf. apply le_decode_header. rewrite length_firstn. lia. }
      rewrite Hdec. set (h := le_decode (firstn hs avail)) in *.
      set (fs := if Tcp.header_valid h then h else frame_size (Tcp.config_ r)).
      assert (Hfsr : 0 <= fs <= INT_MAX).
      { subst fs. destruct (Tcp.header_valid h) eqn:Hv; [|exact Hfs].
        apply header_valid_range in Hv. unfold INT_MAX. lia. }
      replace (if Tcp.header_valid h then Z.to_nat h
               else Z.to_nat (frame_size (Tcp.config_ r)))
        with (Z.to_nat fs) in *
        by (subst fs; now destruct (Tcp.header_valid h)).
      destruct (Hbody r1 w1 fs Hfsr) as (r' & w' & Hrun2).
      { rewrite Hstream, length_skipn. lia. }
      rewrite Hstream in Hrun2. exists r', w'. exact Hrun2.
  - split; [simpl; lia|]. intros [_ Hshort]. simpl in Hshort.
    destruct (Hbody r w _ Hfs) as (r' & w' & Hrun2); [exact Hshort|].
    exists r', w'. exact Hrun2.
Qed.

Lemma tcp_failure_leaves_partial_data_witness :
  let r := connected_tcp (sample_config 8 2 false 4) 0 0 in
  let w := fresh_world [Packet [x0a; x0b]; PeerClose] in
  exists r' w',
    Tcp.receiveFrame r w [x01; x02; x03; x04; x05; x06]
    = Ret (false, r', w', [x0a; x0b; x03; x04]).
Proof.
  apply (proj2 (tcp_failure_leaves_partial_data
                  (connected_tcp (sample_config 8 2 false 4) 0 0)
                  (fresh_world [Packet [x0a; x0b]; PeerClose])
                  [x01; x02; x03; x04; x05; x06] eq_refl
                  ltac:(split; [vm_compute; split; discriminate | discriminate]))).
  vm_compute. lia.
Defined.

Lemma udp_loop_breaks :
  forall ds fuel (r : Udp.UdpReceiver) w buffer fs rest,
    inbound w = map Packet ds ++ rest ->
    breaks_frame rest = true ->
    Forall (fits r) ds ->
    length buffer = to_size_t fs ->
    (Udp.accumulated_bytes_ r + length (concat ds) < to_size_t fs)%nat ->
    (to_size_t fs - Udp.accumulated_bytes_ r <= fuel)%nat ->
    exists r' w',
      Udp.receive_loop fuel r w buffer fs
        = Ret (false, r', w',
               write_at buffer (Udp.accumulated_bytes_ r) (concat ds)) /\
      inbound w' = tl rest /\
      Udp.accumulated_bytes_ r'
        = (Udp.accumulated_bytes_ r + length (concat ds))%nat /\
      Udp.total_frames_received_ r' = Udp.total_frames_received_ r /\
      wrap64 (Udp.total_bytes_received_ r')
        = wrap64 (Udp.total_bytes_received_ r + Z.of_nat (length (concat ds))).
Proof.
  induction ds as [|d ds IH];
    intros fuel r w buffer fs rest Hin Hbad Hall Hlen Hshort Hfuel.
  - simpl in Hin, Hshort.
    destruct fuel as [|fuel]; [lia|].
    cbn [Udp.receive_loop].
    replace (Udp.accumulated_bytes_ r <? to_size_t fs)%nat with true
      by (symmetry; apply Nat.ltb_lt; lia).
    unfold recvfrom. rewrite Hin.
    cbn [concat length]. rewrite write_at_nil, Nat.add_0_r, Z.add_0_r.
    destruct rest as [|[[|b bs]| |] rest]; try discriminate;
      cbn [firstn length Z.of_nat Z.leb Z.compare tl];
      try rewrite firstn_nil; simpl;
      eexists _, _; (split; [reflexivity|]); simpl; auto.
  - inversion Hall as [|d0 ds0 Hd Hall']; subst d0 ds0. unfold fits in Hd.
    cbn [concat] in Hshort. rewrite length_app in Hshort.
    destruct fuel as [|fuel]; [lia|].
    cbn [Udp.receive_loop].
    replace (Udp.accumulated_bytes_ r <? to_size_t fs)%nat with true
      by (symmetry; apply Nat.ltb_lt; lia).
    unfold recvfrom. rewrite Hin. cbn [map app].
    cbn zeta. cbn [Udp.set_packet Udp.packet_buffer_ Udp.accumulated_bytes_
                    Udp.socket_].
    rewrite (firstn_all2 (n := length (Udp.packet_buffer_ r)) d) by lia.
    replace (Z.of_nat (length d) <=? 0) with false
      by (symmetry; apply Z.leb_gt; lia).
    rewrite Nat2Z.id.
    rewrite memcpy_ok.
    2:{ lia. }
    2:{ rewrite length_write_at by (simpl; lia). lia. }
    cbn [bind]. rewrite firstn_write_at_0 by lia.
    rewrite Nat.min_r by lia. rewrite firstn_all.
    match goal with
    | |- context [Udp.receive_loop fuel ?r1 ?w1 ?b1 fs] =>
        destruct (IH fuel r1 w1 b1 fs rest)
          as (r' & w' & Hrun & Hi & Hacc & Hf & Hby)
    end.
    + reflexivity.
    + exact Hbad.
    + unfold fits in *.
      cbn [Udp.add_bytes Udp.set_accumulated Udp.set_packet
             Udp.packet_buffer_].
      rewrite length_write_at by (simpl; lia). exact Hall'.
    + rewrite length_write_at by lia. exact Hlen.
    + cbn [Udp.add_bytes Udp.set_accumulated Udp.accumulated_bytes_]. lia.
    + cbn [Udp.add_bytes Udp.set_accumulated Udp.accumulated_bytes_]. lia.
    + cbn [Udp.add_bytes Udp.set_accumulated Udp.set_packet
             Udp.accumulated_bytes_ Udp.total_frames_received_
             Udp.total_bytes_received_] in Hrun, Hacc, Hf, Hby.
      exists r', w'. split.
      { rewrite Hrun. do 2 f_equal. now rewrite write_at_app by lia. }
      conj_split; try assumption.
      * cbn [concat]. rewrite length_app. lia.
      * rewrite Hby, wrap64_add_l. f_equal.
        cbn [concat]. rewrite length_app. lia.
Qed.

(** X16. A bound UDP [receiveFrame] fails as soon as a receive returns
    zero or an error before the frame is complete, and a datagram of no
    bytes is enough for that: the receiver is then unbound although its
    socket is as before.  The frame counter is unchanged, the byte
    counter has counted the datagrams received, the accumulation offset
    stays at the bytes copied, and the caller's vector, resized to the
    frame size, holds these bytes at its start: the partial frame is not
    cleared. *)
Theorem udp_failure_leaves_partial_data :
  forall (r : Udp.UdpReceiver) (w : World) (buffer : list byte)
         (datagrams : list (list byte)) (rest : list net_event),
    Udp.bound_ r = true ->
    0 <= frame_size (Udp.config_ r) <= INT_MAX ->
    inbound w = map Packet datagrams ++ rest ->
    breaks_frame rest = true ->
    Forall (fits r) datagrams ->
    (length (concat datagrams) < Z.to_nat (frame_size (Udp.config_ r)))%nat ->
    let n := Z.to_nat (frame_size (Udp.config_ r)) in
    exists r' w',
      Udp.receiveFrame r w buffer
        = Ret (false, r', w',
               write_at (firstn n buffer ++ repeat zero_byte (n - length buffer))
                        0 (concat datagrams)) /\
      Udp.bound_ r' = false /\
      Udp.socket_ r' = Udp.socket_ r /\
      inbound w' = tl rest /\
      Udp.accumulated_bytes_ r' = length (concat datagrams) /\
      Udp.total_frames_received_ r' = Udp.total_frames_received_ r /\
      wrap64 (Udp.total_bytes_received_ r')
        = wrap64 (Udp.total_bytes_received_ r
                  + Z.of_nat (length (concat datagrams))).
Proof.
  intros r w buffer ds rest Hb Hfs Hin Hbad Hall Hshort n.
  pose proof (to_size_t_small _ Hfs) as Hsz. fold n in Hsz.
  destruct (udp_loop_breaks ds n (Udp.set_accumulated r 0) w
              (firstn n buffer ++ repeat zero_byte (n - length buffer))
              (frame_size (Udp.config_ r)) rest)
    as (r' & w' & Hrun & Hi & Hacc & Hf & Hby).
  - exact Hin.
  - exact Hbad.
  - exact Hall.
  - rewrite Hsz, length_app, length_firstn, repeat_length. lia.
  - simpl. rewrite Hsz. exact Hshort.
  - simpl. lia.
  - cbn [Udp.set_accumulated Udp.accumulated_bytes_
           Udp.total_frames_received_ Udp.total_bytes_received_]
      in Hrun, Hacc, Hf, Hby.
    unfold Udp.receiveFrame, Udp.getFrameSize. rewrite Hb. simpl negb.
    cbv iota. rewrite Hsz. unfold resize.
    replace (Z.of_nat n <=? vector_max_size) with true
      by (symmetry; apply Z.leb_le; subst n;
          unfold vector_max_size, INT_MAX in *; lia).
    simpl bind. rewrite Hrun. simpl bind.
    exists r', w'. split; [reflexivity|].
    pose proof (udp_loop_false_unbinds _ _ _ _ _ _ _ _ Hrun) as Hub.
    apply udp_loop_keeps in Hrun as (_ & Hs & _).
    conj_split; auto.
Qed.

Lemma udp_failure_leaves_partial_data_witness :
  let r := bound_udp (sample_config 8 2 false 4) 0 0 in
  let w := fresh_world [Packet [x0a; x0b]; Packet []; Packet [x0c; x0d]] in
  exists r' w',
    Udp.receiveFrame r w [x01; x02; x03; x04; x05]
      = Ret (false, r', w', [x0a; x0b; x03; x04]) /\
    Udp.bound_ r' = false /\
    Udp.socket_ r' = 3 /\
    inbound w' = [Packet [x0c; x0d]] /\
    Udp.accumulated_bytes_ r' = 2%nat /\
    Udp.total_frames_received_ r' = 0 /\
    wrap64 (Udp.total_bytes_received_ r') = wrap64 (0 + 2).
Proof.
  apply (udp_failure_leaves_partial_data
           (bound_udp (sample_config 8 2 false 4) 0 0)
           (fresh_world [Packet [x0a; x0b]; Packet []; Packet [x0c; x0d]])
           [x01; x02; x03; x04; x05] [[x0a; x0b]]
           [Packet []; Packet [x0c; x0d]]).
  - reflexivity.
  - vm_compute. split; discriminate.
  - reflexivity.
  - reflexivity.
  - repeat constructor; simpl; lia.
  - vm_compute. lia.
Defined.

Lemma udp_receiveFrame_complete :
  forall (r : Udp.UdpReceiver) (w : World) (buffer : list byte)
         (datagrams : list (list byte)) (tail : list net_event),
    Udp.bound_ r = true ->
    0 <= frame_size (Udp.config_ r) <= INT_MAX ->
    inbound w = map Packet datagrams ++ tail ->
    Forall (fits r) datagrams ->
    completes (Z.to_nat (frame_size (Udp.config_ r))) datagrams ->
    exists r' w',
      Udp.receiveFrame r w buffer
        = Ret (true, r', w',
               firstn (Z.to_nat (frame_size (Udp.config_ r)))
                      (concat datagrams)) /\
      inbound w' = tail /\
      Udp.bound_ r' = true /\
      Udp.config_ r' = Udp.config_ r /\
      length (Udp.packet_buffer_ r') = length (Udp.packet_buffer_ r) /\
      Udp.total_frames_received_ r'
        = wrap64 (Udp.total_frames_received_ r + 1) /\
      wrap64 (Udp.total_bytes_received_ r')
        = wrap64 (Udp.total_bytes_received_ r
                  + Z.of_nat (length (concat datagrams))).
Proof.
  intros r w buffer ds tail Hb Hfs Hin Hall Hcov.
  assert (Hrun : exists r' w',
             Udp.receiveFrame r w buffer
             = Ret (true, r', w',
                    firstn (Z.to_nat (frame_size (Udp.config_ r))) (concat ds))
             /\ inbound w' = tail
             /\ Udp.bound_ r' = true
             /\ Udp.total_frames_received_ r'
                = wrap64 (Udp.total_frames_received_ r + 1)
             /\ wrap64 (Udp.total_bytes_received_ r')
                = wrap64 (Udp.total_bytes_received_ r
                          + Z.of_nat (length (concat ds)))).
  { unfold Udp.receiveFrame, Udp.getFrameSize. rewrite Hb. simpl negb.
    cbv iota.
    destruct (resize_small buffer (to_size_t (frame_size (Udp.config_ r))))
      as (b0 & -> & Hb0).
    { rewrite to_size_t_small by exact Hfs. lia. }
    simpl bind.
    destruct (udp_loop_complete ds
                (to_size_t (frame_size (Udp.config_ r)))
                (Udp.set_accumulated r 0) w b0
                (frame_size (Udp.config_ r)) tail)
      as (r' & w' & Hrun & Hi & Hacc & Hbd & Hc & Hf & Hby).
    - exact Hin.
    - exact Hall.
    - exact Hb0.
    - simpl. rewrite to_size_t_small by exact Hfs. exact Hcov.
    - simpl. lia.
    - cbn [Udp.set_accumulated Udp.accumulated_bytes_ Udp.bound_
             Udp.total_frames_received_ Udp.total_bytes_received_]
        in Hrun, Hacc, Hbd, Hf, Hby.
      rewrite Hrun. simpl bind.
      rewrite to_size_t_small in * by exact Hfs.
      rewrite Nat.sub_0_r.
      rewrite write_at_whole.
      2:{ rewrite length_firstn, Hb0. destruct Hcov as [_ Hc2]. lia. }
      eexists _, _. split; [reflexivity|]. simpl.
      conj_split; try assumption.
      + now rewrite Hbd.
      + now rewrite Hf. }
  destruct Hrun as (r' & w' & Hrun & Hi & Hbd & Hf & Hby).
  exists r', w'.
  pose proof (udp_receiveFrame_keeps _ _ _ _ _ _ _ Hrun)
    as (Hc & _ & _ & _ & _ & _ & Hp & _).
  conj_split; assumption.
Qed.

(** X17. Asking a bound UDP receiver for frames in a row, when the
    datagrams come in runs that each complete a frame with their last
    datagram: every call consumes exactly one run, and frame [i] is the
    concatenation of run [i] cut to the frame size.  The bytes a run
    carries beyond its frame are dropped, not carried into the next
    frame, which starts with the next datagram.  Afterwards the input
    behind the runs is still pending, the frame counter has gone up by
    the number of runs and the byte counter by all bytes received
    (modulo [2^64]). *)
Theorem udp_frames_in_a_row :
  forall (runs : list (list (list byte))) (r : Udp.UdpReceiver) (w : World)
         (buffer : list byte) (tail : list net_event),
    Udp.bound_ r = true ->
    0 <= frame_size (Udp.config_ r) <= INT_MAX ->
    inbound w = map Packet (concat runs) ++ tail ->
    Forall (Forall (fits r)) runs ->
    Forall (completes (Z.to_nat (frame_size (Udp.config_ r)))) runs ->
    exists r' w',
      udp_receive_many (length runs) r w buffer
        = Ret (map (fun run =>
                      firstn (Z.to_nat (frame_size (Udp.config_ r)))
                             (concat run)) runs,
               r', w') /\
      inbound w' = tail /\
      Udp.bound_ r' = true /\
      wrap64 (Udp.total_frames_received_ r')
        = wrap64 (Udp.total_frames_received_ r + Z.of_nat (length runs)) /\
      wrap64 (Udp.total_bytes_received_ r')
        = wrap64 (Udp.total_bytes_received_ r
                  + Z.of_nat (length (concat (concat runs)))).
Proof.
  induction runs as [|run runs IH];
    intros r w buffer tail Hb Hfs Hin Hfit Hcov.
  - exists r, w. simpl in *. rewrite !Z.add_0_r. now conj_split.
  - inversion Hfit as [|x xs Hfit1 Hfit2]; subst x xs.
    inversion Hcov as [|x xs Hcov1 Hcov2]; subst x xs.
    cbn [concat] in Hin. rewrite map_app, <- app_assoc in Hin.
    destruct (udp_receiveFrame_complete r w buffer run
                (map Packet (concat runs) ++ tail) Hb Hfs Hin Hfit1 Hcov1)
      as (r1 & w1 & Hrun & Hi1 & Hb1 & Hc1 & Hp1 & Hf1 & Hby1).
    assert (Hfit' : Forall (Forall (fits r1)) runs).
    { eapply Forall_impl; [|exact Hfit2]. intros ds Hds.
      eapply Forall_impl; [|exact Hds]. intros d Hd.
      unfold fits in *. now rewrite Hp1. }
    destruct (IH r1 w1
                (firstn (Z.to_nat (frame_size (Udp.config_ r))) (concat run))
                tail Hb1)
      as (r' & w' & Hmany & Hi & Hbd & Hf & Hby).
    + now rewrite Hc1.
    + exact Hi1.
    + exact Hfit'.
    + now rewrite Hc1.
    + rewrite Hc1 in Hmany.
      exists r', w'. cbn [length udp_receive_many map].
      rewrite Hrun. simpl bind. rewrite Hmany. simpl bind.
      conj_split; try assumption.
      * reflexivity.
      * rewrite Hf, Hf1, wrap64_succ. f_equal. lia.
      * rewrite Hby, <- wrap64_add_l, Hby1, wrap64_add_l. f_equal.
        cbn [concat]. rewrite concat_app, length_app. lia.
Qed.

Lemma udp_frames_in_a_row_witness :
  let r := bound_udp (sample_config 8 1 false 4) 0 0 in
  let w := fresh_world [Packet [x0a]; Packet [x0b; x0c]; Packet [x0d; x0e];
                        Packet [x0f]] in
  exists r' w',
    udp_receive_many 2 r w [] = Ret ([[x0a; x0b]; [x0d; x0e]], r', w') /\
    inbound w' = [Packet [x0f]] /\
    Udp.bound_ r' = true /\
    wrap64 (Udp.total_frames_received_ r') = wrap64 (0 + 2) /\
    wrap64 (Udp.total_bytes_received_ r') = wrap64 (0 + 5).
Proof.
  apply (udp_frames_in_a_row
           [[[x0a]; [x0b; x0c]]; [[x0d; x0e]]]
           (bound_udp (sample_config 8 1 false 4) 0 0)
           (fresh_world [Packet [x0a]; Packet [x0b; x0c]; Packet [x0d; x0e];
                         Packet [x0f]]) [] [Packet [x0f]]).
  - reflexivity.
  - vm_compute. split; discriminate.
  - reflexivity.
  - repeat constructor; simpl; lia.
  - repeat constructor; vm_compute; lia.
Defined.

(** ** The socket library *)

Lemma same_class_eq (a b : SocketLib.receiver_class) :
  SocketLib.same_class a b = true <-> a = b.
Proof. destruct a, b; simpl; split; congruence. Qed.

Lemma answers_of_cons (c d : SocketLib.receiver_class) (a : Z)
    (cs : constructions) :
  answers_of c ((d, a) :: cs)
  = if SocketLib.same_class d c then a :: answers_of c cs
    else answers_of c cs.
Proof.
  unfold answers_of. simpl. now destruct (SocketLib.same_class d c).
Qed.

(** The startup calls the class [c] will still make in state [s]. *)
Lemma init_each_spec (cs : constructions) :
  forall (s : SocketLib.State),
    (forall c,
        SocketLib.socket_lib_initialized_ (init_each true cs s) c
        = SocketLib.socket_lib_initialized_ s c
          || existsb (Z.eqb 0) (answers_of c cs)) /\
    Permutation
      (SocketLib.wsa_calls (init_each true cs s))
      (SocketLib.wsa_calls s
       ++ map SocketLib.WSAStartup
            ((if SocketLib.socket_lib_initialized_ s SocketLib.TcpClass
              then [] else until_success (answers_of SocketLib.TcpClass cs))
             ++
             (if SocketLib.socket_lib_initialized_ s SocketLib.UdpClass
              then [] else until_success (answers_of SocketLib.UdpClass cs)))).
Proof.
  induction cs as [|[c a] cs IH]; intro s.
  - split.
    + intro c. cbn. now rewrite orb_false_r.
    + cbn [init_each answers_of filter map until_success].
      do 2 destruct (SocketLib.socket_lib_initialized_ s _);
        cbn; rewrite app_nil_r; apply Permutation_refl.
  - cbn [init_each]. unfold SocketLib.initSocketLib.
    destruct (SocketLib.socket_lib_initialized_ s c) eqn:Ec; cbn [negb snd].
    + destruct (IH s) as [Hf Hp]. split.
      * intro d. rewrite Hf, answers_of_cons.
        destruct (SocketLib.same_class c d) eqn:Ed; [|reflexivity].
        apply same_class_eq in Ed. subst d. now rewrite Ec.
      * rewrite !answers_of_cons.
        destruct c; cbn [SocketLib.same_class]; rewrite Ec in *; exact Hp.
    + destruct (a =? 0) eqn:Ea; cbn [negb snd].
      * apply Z.eqb_eq in Ea. subst a.
        destruct (IH (SocketLib.set_initialized
                        (SocketLib.call s (SocketLib.WSAStartup 0)) c true))
          as [Hf Hp].
        cbn [SocketLib.set_initialized SocketLib.call
             SocketLib.socket_lib_initialized_ SocketLib.wsa_calls] in Hf, Hp.
        split.
        -- intro d. rewrite Hf, answers_of_cons.
           destruct c, d; cbn [SocketLib.same_class existsb Z.eqb orb];
             rewrite ?Ec; reflexivity.
        -- rewrite !answers_of_cons. rewrite <- app_assoc in Hp.
           destruct c; cbn [SocketLib.same_class until_success Z.eqb] in Hp |- *;
             rewrite Ec.
           ++ exact Hp.
           ++ eapply Permutation_trans; [exact Hp|].
              apply Permutation_app_head.
              rewrite app_nil_r, map_app. cbn [map app].
              apply Permutation_cons_append.
      * assert (Ea' : (0 =? a) = false) by (now rewrite Z.eqb_sym).
        destruct (IH (SocketLib.call s (SocketLib.WSAStartup a)))
          as [Hf Hp].
        cbn [SocketLib.call SocketLib.socket_lib_initialized_
             SocketLib.wsa_calls] in Hf, Hp.
        split.
        -- intro d. rewrite Hf, answers_of_cons.
           destruct (SocketLib.same_class c d) eqn:Ed; [|reflexivity].
           cbn [existsb]. now rewrite Ea'.
        -- rewrite !answers_of_cons. rewrite <- app_assoc in Hp.
           destruct c; cbn [SocketLib.same_class until_success] in Hp |- *;
             rewrite Ec in *; rewrite Ea.
           ++ exact Hp.
           ++ eapply Permutation_trans; [exact Hp|].
              apply Permutation_app_head.
              destruct (SocketLib.socket_lib_initialized_ s SocketLib.TcpClass).
              ** apply Permutation_refl.
              ** rewrite !map_app. cbn [map app].
                 apply Permutation_middle.
Qed.

Lemma init_each_initialized (c : SocketLib.receiver_class)
    (cs : constructions) (s : SocketLib.State) :
  (forall x, In x cs -> fst x = c) ->
  SocketLib.socket_lib_initialized_ s c = true ->
  init_each true cs s = s.
Proof.
  intros Hall H. induction cs as [|[d a] cs IH]; [reflexivity|].
  cbn [init_each]. assert (d = c) by (apply (Hall (d, a)); now left).
  subst d. unfold SocketLib.initSocketLib. rewrite H. cbn [negb snd].
  apply IH. intros x Hx. apply Hall. now right.
Qed.

Lemma init_each_one_class (c : SocketLib.receiver_class)
    (cs : constructions) :
  forall (s : SocketLib.State),
    (forall x, In x cs -> fst x = c) ->
    SocketLib.socket_lib_initialized_ s c = false ->
    SocketLib.wsa_calls (init_each true cs s)
    = SocketLib.wsa_calls s
      ++ map SocketLib.WSAStartup (until_success (map snd cs)).
Proof.
  induction cs as [|[d a] cs IH]; intros s Hall Hs.
  - cbn. now rewrite app_nil_r.
  - assert (d = c) by (apply (Hall (d, a)); now left). subst d.
    assert (Hrest : forall x, In x cs -> fst x = c)
      by (intros x Hx; apply Hall; now right).
    cbn [init_each map snd until_success].
    unfold SocketLib.initSocketLib. rewrite Hs. cbn [negb].
    destruct (a =? 0) eqn:Ea; cbn [negb snd].
    + rewrite (init_each_initialized c) by
        (try exact Hrest; cbn; now rewrite (proj2 (same_class_eq c c) eq_refl)).
      reflexivity.
    + rewrite IH by (try exact Hrest; exact Hs).
      cbn [SocketLib.call SocketLib.wsa_calls map].
      now rewrite <- app_assoc.
Qed.

(** X18. Each receiver class keeps its own flag: over any receivers
    constructed, each constructor calling [initSocketLib] of its class, on
    Windows a class calls [WSAStartup] until it succeeds for that class
    for the first time and never again, and its flag is set exactly if one
    of its calls succeeded.  The calls of the process are those of the two
    classes interleaved, so a program that makes receivers of both classes
    starts the library once per class; with receivers of one class only
    the calls are that class's, in order.  [cleanupSocketLib] of a class
    calls [WSACleanup] once if its flag is set, clears that flag alone,
    and a second one calls nothing.  On other platforms neither function
    calls anything and [initSocketLib] returns success. *)
Theorem socket_lib_started_once_per_class :
  forall (cs : constructions),
    let s := init_each true cs SocketLib.start in
    (forall c,
        SocketLib.socket_lib_initialized_ s c
        = existsb (Z.eqb 0) (answers_of c cs)) /\
    Permutation
      (SocketLib.wsa_calls s)
      (map SocketLib.WSAStartup
         (until_success (answers_of SocketLib.TcpClass cs)
          ++ until_success (answers_of SocketLib.UdpClass cs))) /\
    (forall c,
        (forall x, In x cs -> fst x = c) ->
        SocketLib.wsa_calls s
        = map SocketLib.WSAStartup (until_success (map snd cs))) /\
    (forall c,
        let s1 := SocketLib.cleanupSocketLib true c s in
        SocketLib.wsa_calls s1
        = SocketLib.wsa_calls s
          ++ (if existsb (Z.eqb 0) (answers_of c cs)
              then [SocketLib.WSACleanup] else []) /\
        SocketLib.socket_lib_initialized_ s1 c = false /\
        (forall d, d <> c ->
           SocketLib.socket_lib_initialized_ s1 d
           = SocketLib.socket_lib_initialized_ s d) /\
        SocketLib.cleanupSocketLib true c s1 = s1) /\
    (forall c a s0, SocketLib.initSocketLib false c a s0 = (true, s0)) /\
    (forall c s0, SocketLib.cleanupSocketLib false c s0 = s0).
Proof.
  intros cs s.
  destruct (init_each_spec cs SocketLib.start) as [Hf Hp].
  fold s in Hf, Hp. cbn [SocketLib.start SocketLib.socket_lib_initialized_
                         SocketLib.wsa_calls orb app] in Hf, Hp.
  conj_split; try reflexivity.
  - exact Hf.
  - exact Hp.
  - intros c Hall. subst s.
    now rewrite (init_each_one_class c) by (try exact Hall; reflexivity).
  - intros c s1. subst s1. unfold SocketLib.cleanupSocketLib.
    rewrite <- Hf.
    destruct (SocketLib.socket_lib_initialized_ s c) eqn:E.
    + cbn [SocketLib.set_initialized SocketLib.call
           SocketLib.socket_lib_initialized_ SocketLib.wsa_calls].
      rewrite (proj2 (same_class_eq c c) eq_refl).
      conj_split; try reflexivity.
      intros d Hd. destruct (SocketLib.same_class d c) eqn:Ed; [|reflexivity].
      apply same_class_eq in Ed. contradiction.
    + rewrite E, app_nil_r. conj_split; try reflexivity; exact E.
Qed.

Lemma socket_lib_started_once_per_class_witness :
  let cs := [(SocketLib.TcpClass, 0); (SocketLib.UdpClass, 0);
             (SocketLib.TcpClass, 0)] in
  Permutation
    (SocketLib.wsa_calls (init_each true cs SocketLib.start))
    [SocketLib.WSAStartup 0; SocketLib.WSAStartup 0].
Proof.
  exact (proj1 (proj2 (socket_lib_started_once_per_class
                         [(SocketLib.TcpClass, 0); (SocketLib.UdpClass, 0);
                          (SocketLib.TcpClass, 0)]))).
Defined.

(** ** Datagrams longer than the packet buffer *)

Lemma udp_loop_cut :
  forall ds fuel (r : Udp.UdpReceiver) w buffer fs tail (p : nat),
    inbound w = map Packet ds ++ tail ->
    length (Udp.packet_buffer_ r) = p ->
    (0 < p)%nat ->
    Forall (fun d : list byte => d <> []) ds ->
    length buffer = to_size_t fs ->
    (Udp.accumulated_bytes_ r
       + length (concat (removelast (map (firstn p) ds))) < to_size_t fs
     <= Udp.accumulated_bytes_ r
        + length (concat (map (firstn p) ds)))%nat ->
    (to_size_t fs - Udp.accumulated_bytes_ r <= fuel)%nat ->
    exists r' w',
      Udp.receive_loop fuel r w buffer fs
        = Ret (true, r', w',
               write_at buffer (Udp.accumulated_bytes_ r)
                 (firstn (to_size_t fs - Udp.accumulated_bytes_ r)
                    (concat (map (firstn p) ds)))) /\
      inbound w' = tail /\
      wrap64 (Udp.total_bytes_received_ r')
        = wrap64 (Udp.total_bytes_received_ r
                  + Z.of_nat (length (concat (map (firstn p) ds)))).
Proof.
  induction ds as [|d ds IH];
    intros fuel r w buffer fs tail p Hin Hp Hpos Hne Hlen Hcov Hfuel.
  - simpl in Hcov. lia.
  - inversion Hne as [|d0 ds0 Hd Hne']; subst d0 ds0.
    assert (Hcut : (0 < length (firstn p d) <= p)%nat).
    { rewrite length_firstn. destruct d; [contradiction|]. simpl. lia. }
    assert (Ha : (Udp.accumulated_bytes_ r < to_size_t fs)%nat).
    { destruct Hcov as [Hc _]. lia. }
    destruct fuel as [|fuel]; [lia|].
    cbn [Udp.receive_loop].
    replace (Udp.accumulated_bytes_ r <? to_size_t fs)%nat with true
      by (symmetry; apply Nat.ltb_lt; exact Ha).
    unfold recvfrom. rewrite Hin. cbn [map app].
    cbn zeta. cbn [Udp.set_packet Udp.packet_buffer_ Udp.accumulated_bytes_
                    Udp.socket_].
    rewrite Hp.
    replace (Z.of_nat (length (firstn p d)) <=? 0) with false
      by (symmetry; apply Z.leb_gt; lia).
    rewrite Nat2Z.id.
    rewrite memcpy_ok.
    2:{ lia. }
    2:{ rewrite length_write_at by (simpl; lia). lia. }
    cbn [bind]. rewrite firstn_write_at_0 by lia.
    destruct ds as [|d' ds'].
    + simpl in Hcov. rewrite app_nil_r in Hcov.
      rewrite Nat.min_l by lia.
      rewrite udp_loop_done by (simpl; lia).
      eexists _, _. split.
      { cbn [map concat]. rewrite app_nil_r. reflexivity. }
      simpl. rewrite app_nil_r.
      conj_split; try reflexivity.
      unfold wrap64. apply Z.mod_mod. lia.
    + assert (Hrl : removelast (map (firstn p) (d :: d' :: ds'))
                    = firstn p d :: removelast (map (firstn p) (d' :: ds')))
        by reflexivity.
      rewrite Hrl in Hcov.
      change (map (firstn p) (d :: d' :: ds'))
        with (firstn p d :: map (firstn p) (d' :: ds')) in *.
      cbn [concat] in Hcov. rewrite !length_app in Hcov.
      rewrite Nat.min_r by lia. rewrite firstn_all.
      match goal with
      | |- context [Udp.receive_loop fuel ?r1 ?w1 ?b1 fs] =>
          destruct (IH fuel r1 w1 b1 fs tail p)
            as (r' & w' & Hrun & Hi & Hby)
      end.
      * reflexivity.
      * cbn [Udp.add_bytes Udp.set_accumulated Udp.set_packet
               Udp.packet_buffer_].
        rewrite length_write_at by (simpl; lia). exact Hp.
      * exact Hpos.
      * exact Hne'.
      * rewrite length_write_at by lia. exact Hlen.
      * cbn [Udp.add_bytes Udp.set_accumulated Udp.accumulated_bytes_]. lia.
      * cbn [Udp.add_bytes Udp.set_accumulated Udp.accumulated_bytes_]. lia.
      * cbn [Udp.add_bytes Udp.set_accumulated Udp.set_packet
               Udp.accumulated_bytes_ Udp.total_bytes_received_]
          in Hrun, Hby.
        exists r', w'. split.
        { rewrite Hrun. do 2 f_equal.
          rewrite write_at_app by lia. f_equal.
          cbn [concat].
          rewrite (firstn_app (to_size_t fs - Udp.accumulated_bytes_ r)
                     (firstn p d)).
          rewrite (firstn_all2
                     (n := (to_size_t fs - Udp.accumulated_bytes_ r)%nat)
                     (firstn p d)) by lia.
          do 2 f_equal. lia. }
        split; [exact Hi|].
        rewrite Hby, wrap64_add_l. f_equal.
        cbn [concat]. rewrite !length_app. lia.
Qed.

(** X19. A datagram longer than the packet buffer (of the configured
    [udp_packet_size] bytes) is cut to the buffer when it is received:
    only its first bytes enter the frame and the byte counter, the rest
    is lost.  The frame of a bound [receiveFrame] is the concatenation of
    the datagrams, each cut to the packet buffer, cut to the frame
    size. *)
Theorem udp_long_datagrams_are_cut :
  forall (r : Udp.UdpReceiver) (w : World) (buffer : list byte)
         (datagrams : list (list byte)) (tail : list net_event),
    Udp.bound_ r = true ->
    0 <= frame_size (Udp.config_ r) <= INT_MAX ->
    inbound w = map Packet datagrams ++ tail ->
    (0 < length (Udp.packet_buffer_ r))%nat ->
    Forall (fun d : list byte => d <> []) datagrams ->
    let received := map (firstn (length (Udp.packet_buffer_ r))) datagrams in
    completes (Z.to_nat (frame_size (Udp.config_ r))) received ->
    exists r' w',
      Udp.receiveFrame r w buffer
        = Ret (true, r', w',
               firstn (Z.to_nat (frame_size (Udp.config_ r)))
                      (concat received)) /\
      inbound w' = tail /\
      wrap64 (Udp.total_bytes_received_ r')
        = wrap64 (Udp.total_bytes_received_ r
                  + Z.of_nat (length (concat received))).
Proof.
  intros r w buffer ds tail Hb Hfs Hin Hpos Hne received Hcov.
  unfold Udp.receiveFrame, Udp.getFrameSize. rewrite Hb. simpl negb.
  cbv iota.
  destruct (resize_small buffer (to_size_t (frame_size (Udp.config_ r))))
    as (b0 & -> & Hb0).
  { rewrite to_size_t_small by exact Hfs. lia. }
  simpl bind.
  destruct (udp_loop_cut ds
              (to_size_t (frame_size (Udp.config_ r)))
              (Udp.set_accumulated r 0) w b0
              (frame_size (Udp.config_ r)) tail
              (length (Udp.packet_buffer_ r)))
    as (r' & w' & Hrun & Hi & Hby).
  - exact Hin.
  - reflexivity.
  - exact Hpos.
  - exact Hne.
  - exact Hb0.
  - simpl. rewrite to_size_t_small by exact Hfs. exact Hcov.
  - simpl. lia.
  - cbn [Udp.set_accumulated Udp.accumulated_bytes_
           Udp.total_bytes_received_] in Hrun, Hby.
    rewrite Hrun. simpl bind.
    rewrite to_size_t_small in * by exact Hfs.
    rewrite Nat.sub_0_r.
    rewrite write_at_whole.
    2:{ rewrite length_firstn, Hb0. destruct Hcov as [_ Hc2].
        fold received. lia. }
    eexists _, _. split; [reflexivity|]. simpl.
    split; assumption.
Qed.

Lemma udp_long_datagrams_are_cut_witness :
  let cfg :=
    {| width := 8; height := 2; camera_ip := ""%string; camera_port := 5000;
       recv_buffer_size := 0; udp_packet_size := 3; has_header := false;
       header_size := 4; msb_first := false; positive_first := true;
       row_major := true; frame_interval_us := 200; verbose := false |} in
  let r :=
    {| Udp.config_ := cfg; Udp.socket_ := 3; Udp.bound_ := true;
       Udp.accumulation_buffer_ := []; Udp.accumulated_bytes_ := 0%nat;
       Udp.packet_buffer_ := [x00; x00; x00];
       Udp.total_bytes_received_ := 0; Udp.total_frames_received_ := 0 |} in
  let w := fresh_world [Packet [x01; x02; x03; x04; x05]; Packet [x06; x07]] in
  exists r' w',
    Udp.receiveFrame r w [] = Ret (true, r', w', [x01; x02; x03; x06]) /\
    inbound w' = [] /\
    wrap64 (Udp.total_bytes_received_ r') = wrap64 (0 + 5).
Proof.
  intros cfg r w.
  apply (udp_long_datagrams_are_cut r w []
           [[x01; x02; x03; x04; x05]; [x06; x07]] []).
  - reflexivity.
  - vm_compute. split; discriminate.
  - reflexivity.
  - simpl. lia.
  - repeat constructor; discriminate.
  - unfold completes. vm_compute. lia.
Defined.
